(** * cleanenv: binding environment variables onto a tagged record

    A shallow embedding of the value-coercion and metadata-extraction engine
    of the [cleanenv] package ([common.go], [env.go], [cleanenv.go] and the
    finalizer), together with the parts of the Go standard library it calls
    ([strings], [strconv], [reflect]).

    Conventions.
    - A Go [string] is a sequence of bytes: [string] of [ascii].
    - Integers are [Z]; the width of a target is written out where the
      source depends on it ([strconv.ParseInt] and [ParseUint]).  The
      platform is a 64-bit one ([int] and [uint] have 64 bits).
    - A function returning [(T, error)] returns a [result T]; a run-time
      panic is a third outcome.
    - The record being bound is a store from field locations to values;
      a [reflect.Value] obtained from a field is a location of that store
      together with its static type. *)

From Stdlib Require Import ZArith Ascii String List Bool Lia.
From stdpp Require Import base option list strings gmap.

Local Open Scope string_scope.
Local Open Scope list_scope.
Set Warnings "-register-all".

(** ** Bytes *)

Definition byte_val (c : ascii) : nat := nat_of_ascii c.

Definition byte_in (lo hi : nat) (c : ascii) : bool :=
  ((lo <=? byte_val c) && (byte_val c <=? hi))%nat.

Definition byte_is (n : nat) (c : ascii) : bool := (byte_val c =? n)%nat.

(** ** Package [unicode/utf8] *)

Module Utf8.

(** [utf8.RuneSelf]: bytes below it are single-byte runes. *)
Definition RuneSelf : nat := 128.

Definition is_cont (c : ascii) : bool := byte_in 128 191 c.

(** Width in bytes of the first rune of a non-empty string, as
    [utf8.DecodeRuneInString] reports it: an invalid or truncated
    encoding has width 1. *)
Definition rune_len (s : string) : nat :=
  match s with
  | "" => 0
  | String c0 s1 =>
    let two (lo hi : nat) :=
      match s1 with
      | String c1 _ => if byte_in lo hi c1 then 2 else 1
      | _ => 1
      end in
    let three (lo hi : nat) :=
      match s1 with
      | String c1 (String c2 _) =>
        if byte_in lo hi c1 && is_cont c2 then 3 else 1
      | _ => 1
      end in
    let four (lo hi : nat) :=
      match s1 with
      | String c1 (String c2 (String c3 _)) =>
        if byte_in lo hi c1 && is_cont c2 && is_cont c3 then 4 else 1
      | _ => 1
      end in
    if byte_in 0 127 c0 then 1
    else if byte_in 194 223 c0 then two 128 191
    else if byte_is 224 c0 then three 160 191
    else if byte_in 225 236 c0 then three 128 191
    else if byte_is 237 c0 then three 128 159
    else if byte_in 238 239 c0 then three 128 191
    else if byte_is 240 c0 then four 144 191
    else if byte_in 241 243 c0 then four 128 191
    else if byte_is 244 c0 then four 128 143
    else 1
  end.

End Utf8.

(** ** Package [strings] *)

Module GoStrings.

Definition HasPrefix (s pre : string) : bool := String.prefix pre s.

Definition HasSuffix (s suffix : string) : bool :=
  String.prefix (String.rev suffix) (String.rev s).

(** [s[n:]] for [n <= len(s)]. *)
Fixpoint drop_bytes (n : nat) (s : string) : string :=
  match n, s with
  | S n', String _ s' => drop_bytes n' s'
  | _, _ => s
  end.

(** [explode]: the runes of [s], one string per rune.  [k] counts the
    bytes that still belong to the rune being collected. *)
Fixpoint explode_go (k : nat) (s : string) : string * list string :=
  match s with
  | "" => ("", [])
  | String c s' =>
    match k with
    | S k' => let '(r, rest) := explode_go k' s' in (String c r, rest)
    | O =>
      let '(r, rest) := explode_go (Utf8.rune_len s - 1) s' in
      ("", String c r :: rest)
    end
  end.

Definition explode (s : string) : list string := snd (explode_go 0 s).

(** The loop of [genSplit] for a non-empty separator: cut at every
    leftmost, non-overlapping occurrence of [sep].  [skip] counts the
    bytes of a matched separator that are still to be dropped.  The first
    component is the piece being collected, the second the later ones. *)
Fixpoint split_go (sep : string) (skip : nat) (s : string) : string * list string :=
  match s with
  | "" => ("", [])
  | String c s' =>
    match skip with
    | S k => split_go sep k s'
    | O =>
      if HasPrefix s sep
      then let '(p, ps) := split_go sep (String.length sep - 1) s' in ("", p :: ps)
      else let '(p, ps) := split_go sep 0 s' in (String c p, ps)
    end
  end.

(** [strings.Split(s, sep)]. *)
Definition Split (s sep : string) : list string :=
  if decide (sep = "") then explode s
  else let '(p, ps) := split_go sep 0 s in p :: ps.

(** [s[:m]] and [s[m+len(sep):]] for [m = strings.Index(s, sep)]. *)
Fixpoint cut_first (sep s : string) : option (string * string) :=
  if HasPrefix s sep then Some ("", drop_bytes (String.length sep) s)
  else match s with
       | "" => None
       | String c s' =>
         match cut_first sep s' with
         | Some (a, b) => Some (String c a, b)
         | None => None
         end
       end.

(** [strings.Contains(s, substr)]: [strings.Index(s, substr) >= 0]. *)
Definition Contains (s substr : string) : bool :=
  match cut_first substr s with
  | Some _ => true
  | None => false
  end.

(** [strings.SplitN(s, sep, n)] for a non-empty [sep] (the package only
    ever passes [":"]; with an empty separator Go explodes [s] into
    runes instead). *)
Fixpoint SplitN (s sep : string) (n : nat) : list string :=
  match n with
  | 0 => []
  | 1 => [s]
  | S n' =>
    match cut_first sep s with
    | Some (a, b) => a :: SplitN b sep n'
    | None => [s]
    end
  end.

(** [strings.Join]. *)
Fixpoint Join (elems : list string) (sep : string) : string :=
  match elems with
  | [] => ""
  | [e] => e
  | e :: rest => e ++ sep ++ Join rest sep
  end.

(** [strings.ReplaceAll(s, old, new)] for a non-empty [old]: every
    leftmost, non-overlapping occurrence is replaced. *)
Definition ReplaceAll (s old new : string) : string := Join (Split s old) new.

(** The ASCII white space of [asciiSpace]. *)
Definition ascii_space (c : ascii) : bool :=
  byte_in 9 13 c || byte_is 32 c.

(** Strips the white-space runes at the front of [s]: the ASCII ones and
    the encodings of U+0085, U+00A0, U+1680, U+2000..U+200A, U+2028,
    U+2029, U+202F, U+205F and U+3000 ([unicode.IsSpace]). *)
Fixpoint trim_left (s : string) : string :=
  match s with
  | "" => ""
  | String c0 s1 =>
    if ascii_space c0 then trim_left s1
    else match s1 with
         | String c1 s2 =>
           if byte_is 194 c0 && (byte_is 133 c1 || byte_is 160 c1) then trim_left s2
           else match s2 with
                | String c2 s3 =>
                  if (byte_is 225 c0 && byte_is 154 c1 && byte_is 128 c2)
                     || (byte_is 226 c0 && byte_is 128 c1
                         && (byte_in 128 138 c2 || byte_in 168 169 c2 || byte_is 175 c2))
                     || (byte_is 226 c0 && byte_is 129 c1 && byte_is 159 c2)
                     || (byte_is 227 c0 && byte_is 128 c1 && byte_is 128 c2)
                  then trim_left s3 else s
                | _ => s
                end
         | _ => s
         end
  end.

(** The same from the back, on the reversed string. *)
Fixpoint trim_left_rev (s : string) : string :=
  match s with
  | "" => ""
  | String c0 s1 =>
    if ascii_space c0 then trim_left_rev s1
    else match s1 with
         | String c1 s2 =>
           if byte_is 194 c1 && (byte_is 133 c0 || byte_is 160 c0) then trim_left_rev s2
           else match s2 with
                | String c2 s3 =>
                  if (byte_is 225 c2 && byte_is 154 c1 && byte_is 128 c0)
                     || (byte_is 226 c2 && byte_is 128 c1
                         && (byte_in 128 138 c0 || byte_in 168 169 c0 || byte_is 175 c0))
                     || (byte_is 226 c2 && byte_is 129 c1 && byte_is 159 c0)
                     || (byte_is 227 c2 && byte_is 128 c1 && byte_is 128 c0)
                  then trim_left_rev s3 else s
                | _ => s
                end
         | _ => s
         end
  end.

(** [strings.TrimSpace]. *)
Definition TrimSpace (s : string) : string :=
  String.rev (trim_left_rev (String.rev (trim_left s))).

Definition isASCII (s : string) : bool :=
  forallb (byte_in 0 127) (list_ascii_of_string s).

Definition upper_byte (c : ascii) : ascii :=
  if byte_in 97 122 c then ascii_of_nat (byte_val c - 32) else c.

Definition lower_byte (c : ascii) : ascii :=
  if byte_in 65 90 c then ascii_of_nat (byte_val c + 32) else c.

Fixpoint map_bytes (f : ascii -> ascii) (s : string) : string :=
  match s with
  | "" => ""
  | String c s' => String (f c) (map_bytes f s')
  end.

End GoStrings.

(** ** Kinds, errors and outcomes *)

(** [reflect.Kind]. *)
Inductive Kind : Type :=
| Invalid | Bool
| Int | Int8 | Int16 | Int32 | Int64
| Uint | Uint8 | Uint16 | Uint32 | Uint64 | Uintptr
| Float32 | Float64 | Complex64 | Complex128
| Array | Chan | Func | Interface | Map | Ptr | Slice
| String_ | Struct | UnsafePointer.

Global Instance Kind_eq_dec : EqDecision Kind.
Proof. solve_decision. Defined.

(** The [Err] field of a [*strconv.NumError]. *)
Inductive num_err : Type := ErrSyntax | ErrRange | ErrBase | ErrBitSize.

(** The error values of the package and of the library calls it forwards. *)
Inductive error : Type :=
| NumError (func num : string) (err : num_err)
    (* strconv: parsing "num": ... *)
| WrongType (k : Kind)
    (* "wrong type %v" *)
| UnsupportedType (pkgPath name : string)
    (* "unsupported type %s.%s" *)
| InvalidMapItem (pair : string)
    (* "invalid map item: %q" *)
| RequiredMissing (fieldName : string)
    (* "field %q is required but the value is not provided" *)
| ForeignError (msg : string).
    (* an error of [time.ParseDuration], [time.Parse] or a [Setter] *)

(** Run-time panics the package can raise. *)
Inductive panic : Type :=
| AddrOfUnaddressable
    (* reflect.Value.Addr of unaddressable value *)
| InterfaceOfUnexported
    (* reflect.Value.Interface: cannot return value obtained from
       unexported field or method *)
| SetNotAssignable
    (* reflect.Set: value of type []uint8 is not assignable to type ... *)
| NilDereference
    (* invalid memory address or nil pointer dereference *)
| MakeOfWrongKind
    (* reflect.MakeSlice of non-slice type, reflect.MakeMap of non-map type *)
| FlagBeginsWithMinus (name : string)
    (* flag "name" begins with - *)
| FlagContainsEquals (name : string).
    (* flag "name" contains = *)

Inductive result (A : Type) : Type :=
| Ok (a : A)
| Err (e : error)
| Panic (p : panic).
Arguments Ok {A} a.
Arguments Err {A} e.
Arguments Panic {A} p.

(** The outcome of a function whose only result is an [error]. *)
Abbreviation status := (result unit).
Abbreviation Nil := (Ok tt).

(** ** Package [strconv] *)

Module Strconv.

Local Open Scope Z_scope.

(** [lower(c)] is [c | ('x' - 'X')]. *)
Definition lower (c : ascii) : ascii := ascii_of_nat (Nat.lor (byte_val c) 32).

Inductive saw : Type := SawStart | SawDigit | SawUnderscore | SawOther.

Fixpoint underscoreOK_go (hex : bool) (seen : saw) (s : string) : bool :=
  match s with
  | "" => match seen with SawUnderscore => false | _ => true end
  | String c s' =>
    if byte_in 48 57 c || (hex && byte_in 97 102 (lower c))
    then underscoreOK_go hex SawDigit s'
    else if byte_is 95 c
    then match seen with
         | SawDigit => underscoreOK_go hex SawUnderscore s'
         | _ => false
         end
    else match seen with
         | SawUnderscore => false
         | _ => underscoreOK_go hex SawOther s'
         end
  end.

(** [underscoreOK]: underscores only between digits or after a base prefix. *)
Definition underscoreOK (s : string) : bool :=
  let s := match s with
           | String c s' => if byte_is 45 c || byte_is 43 c then s' else s
           | _ => s
           end in
  match s with
  | String c0 (String c1 s2) =>
    if byte_is 48 c0
       && (byte_is 98 (lower c1) || byte_is 111 (lower c1) || byte_is 120 (lower c1))
    then underscoreOK_go (byte_is 120 (lower c1)) SawDigit s2
    else underscoreOK_go false SawStart s
  | _ => underscoreOK_go false SawStart s
  end.

Inductive scan : Type :=
| Scanned (n : Z) (underscores : bool)
| ScanSyntax
| ScanRange.

(** The digit loop of [ParseUint]; [n] is a [uint64], so the sum wraps. *)
Fixpoint scan_digits (base0 : bool) (base cutoff maxVal : Z)
         (s : string) (n : Z) (underscores : bool) : scan :=
  match s with
  | "" => Scanned n underscores
  | String c s' =>
    if byte_is 95 c && base0
    then scan_digits base0 base cutoff maxVal s' n true
    else
      let d :=
        if byte_in 48 57 c then Some (Z.of_nat (byte_val c) - 48)
        else if byte_in 97 122 (lower c)
             then Some (Z.of_nat (byte_val (lower c)) - 97 + 10)
             else None in
      match d with
      | None => ScanSyntax
      | Some d =>
        if base <=? d then ScanSyntax
        else if cutoff <=? n then ScanRange
        else
          let n := n * base in
          let n1 := (n + d) mod 2 ^ 64 in
          if (n1 <? n) || (maxVal <? n1) then ScanRange
          else scan_digits base0 base cutoff maxVal s' n1 underscores
      end
  end.

Definition maxUint64 : Z := 2 ^ 64 - 1.
Definition IntSize : Z := 64.

(** The base of a literal and the digits after its prefix, for [base == 0]. *)
Definition base_prefix (s : string) : Z * string :=
  match s with
  | String c0 s1 =>
    if byte_is 48 c0 then
      match s1 with
      | String c1 (String c2 s3) =>
        if byte_is 98 (lower c1) then (2, String c2 s3)
        else if byte_is 111 (lower c1) then (8, String c2 s3)
        else if byte_is 120 (lower c1) then (16, String c2 s3)
        else (8, s1)
      | _ => (8, s1)
      end
    else (10, s)
  | _ => (10, s)
  end.

(** [strconv.ParseUint]: the value and the error, as Go returns both. *)
Definition ParseUint (s : string) (base bitSize : Z) : Z * option error :=
  if decide (s = "") then (0, Some (NumError "ParseUint" s ErrSyntax))
  else
    let base0 := base =? 0 in
    let s0 := s in
    let chosen :=
      if (2 <=? base) && (base <=? 36) then Some (base, s)
      else if base =? 0 then Some (base_prefix s)
      else None in
    match chosen with
    | None => (0, Some (NumError "ParseUint" s0 ErrBase))
    | Some (base, s) =>
      let bitSize := if bitSize =? 0 then IntSize else bitSize in
      if (bitSize <? 0) || (64 <? bitSize)
      then (0, Some (NumError "ParseUint" s0 ErrBitSize))
      else
        let cutoff := maxUint64 / base + 1 in
        let maxVal := 2 ^ bitSize - 1 in
        match scan_digits base0 base cutoff maxVal s 0 false with
        | ScanSyntax => (0, Some (NumError "ParseUint" s0 ErrSyntax))
        | ScanRange => (maxVal, Some (NumError "ParseUint" s0 ErrRange))
        | Scanned n underscores =>
          if underscores && negb (underscoreOK s0)
          then (0, Some (NumError "ParseUint" s0 ErrSyntax))
          else (n, None)
        end
    end.

(** [strconv.ParseInt]. *)
Definition ParseInt (s : string) (base bitSize : Z) : Z * option error :=
  if decide (s = "") then (0, Some (NumError "ParseInt" s ErrSyntax))
  else
    let s0 := s in
    let '(neg, s) :=
      match s with
      | String c s' =>
        if byte_is 43 c then (false, s')
        else if byte_is 45 c then (true, s')
        else (false, s)
      | _ => (false, s)
      end in
    let '(un, err) := ParseUint s base bitSize in
    let pass :=
      match err with
      | Some (NumError _ _ ErrRange) | None => true
      | Some _ => false
      end in
    if negb pass
    then (0, match err with
             | Some (NumError _ _ e) => Some (NumError "ParseInt" s0 e)
             | other => other
             end)
    else
      let bitSize := if bitSize =? 0 then IntSize else bitSize in
      let cutoff := 2 ^ (bitSize - 1) in
      if negb neg && (cutoff <=? un)
      then (cutoff - 1, Some (NumError "ParseInt" s0 ErrRange))
      else if neg && (cutoff <? un)
      then (- cutoff, Some (NumError "ParseInt" s0 ErrRange))
      else ((if neg then - un else un), None).

(** [strconv.ParseBool]. *)
Definition ParseBool (str : string) : bool * option error :=
  if bool_decide (str ∈ ["1"; "t"; "T"; "TRUE"; "true"; "True"]) then (true, None)
  else if bool_decide (str ∈ ["0"; "f"; "F"; "FALSE"; "false"; "False"]) then (false, None)
  else (false, Some (NumError "ParseBool" str ErrSyntax)).

End Strconv.

(** ** Values and types, as package [reflect] shows them *)

(** The content of a variable.  A float is kept as its
    [math.Float64bits]; a nil slice, map, pointer, channel, function or
    interface is [VNilRef], a non-nil slice or map carries its elements. *)
Inductive Value : Type :=
| VBool (b : bool)
| VInt (i : Z)
| VUint (u : Z)
| VFloat (bits : Z)
| VComplex (re im : Z)
| VString (s : string)
| VNilRef
| VRef (addr : nat)
| VSlice (elems : list Value)
| VMap (entries : list (Value * Value))
| VArray (elems : list Value)
| VStruct (fields : list Value).

(** What a type carries besides its shape: its package path and name
    (both empty for an unnamed composite type, the path empty for a
    predeclared type), and its [SetValue] method when the type, or a pointer
    to it, implements [Setter].  The method sees the current content of the
    variable and the raw string, and returns the content it leaves behind
    and its error. *)
Record uncommon : Type := {
  PkgPath : string;
  Name : string;
  AsSetter : Value -> option (string -> Value * option error)
}.

(** [reflect.StructField]: [fPkgPath] is empty for an exported field; the
    tag is kept parsed, as its key/value pairs in order. *)
Record StructField (T : Type) : Type := {
  fName : string;
  fPkgPath : string;
  fType : T;
  fTag : list (string * string)
}.
Arguments fName {T} _.
Arguments fPkgPath {T} _.
Arguments fType {T} _.
Arguments fTag {T} _.

(** [reflect.Type].  [TBasic] is a type of a kind without element
    types (booleans, numbers, strings, channels, functions, interfaces,
    unsafe pointers). *)
Inductive rtype : Type :=
| TBasic (u : uncommon) (k : Kind)
| TArray (u : uncommon) (len : nat) (elem : rtype)
| TSlice (u : uncommon) (elem : rtype)
| TMap (u : uncommon) (key elem : rtype)
| TPtr (u : uncommon) (elem : rtype)
| TStruct (u : uncommon) (fields : list (StructField rtype)).

Definition uncommon_of (t : rtype) : uncommon :=
  match t with
  | TBasic u _ | TArray u _ _ | TSlice u _ | TMap u _ _ | TPtr u _ | TStruct u _ => u
  end.

Definition Kind_of (t : rtype) : Kind :=
  match t with
  | TBasic _ k => k
  | TArray _ _ _ => Array
  | TSlice _ _ => Slice
  | TMap _ _ _ => Map
  | TPtr _ _ => Ptr
  | TStruct _ _ => Struct
  end.

(** [Type.Bits] on the kinds it is called for. *)
Definition Bits (t : rtype) : Z :=
  match Kind_of t with
  | Int8 | Uint8 => 8
  | Int16 | Uint16 => 16
  | Int32 | Uint32 | Float32 => 32
  | Int | Int64 | Uint | Uint64 | Uintptr | Float64 | Complex64 => 64
  | Complex128 => 128
  | _ => 0
  end.

(** [StructTag.Lookup] and [StructTag.Get]. *)
Fixpoint Tag_Lookup (tag : list (string * string)) (key : string) : option string :=
  match tag with
  | [] => None
  | (k, v) :: rest => if decide (k = key) then Some v else Tag_Lookup rest key
  end.

Definition Tag_Get (tag : list (string * string)) (key : string) : string :=
  default "" (Tag_Lookup tag key).

(** The zero value of a type ([reflect.Zero], [reflect.New(t).Elem()],
    the elements of a fresh [reflect.MakeSlice]). *)
Fixpoint Zero (t : rtype) : Value :=
  match t with
  | TBasic _ k =>
    match k with
    | Bool => VBool false
    | Int | Int8 | Int16 | Int32 | Int64 => VInt 0
    | Uint | Uint8 | Uint16 | Uint32 | Uint64 | Uintptr => VUint 0
    | Float32 | Float64 => VFloat 0
    | Complex64 | Complex128 => VComplex 0 0
    | String_ => VString ""
    | _ => VNilRef
    end
  | TArray _ n e => VArray (replicate n (Zero e))
  | TSlice _ _ | TMap _ _ _ | TPtr _ _ => VNilRef
  | TStruct _ fields => VStruct (map (fun f => Zero (fType f)) fields)
  end.

(** [==] on two floats given by their bits: a NaN equals nothing, the
    two zeros are equal. *)
Definition float_eqb (a b : Z) : bool :=
  let nan x := ((x / 2 ^ 52) mod 2 ^ 11 =? 2047)%Z && negb (x mod 2 ^ 52 =? 0)%Z in
  negb (nan a) && negb (nan b)
  && ((a =? b)%Z || ((a mod 2 ^ 63 =? 0)%Z && (b mod 2 ^ 63 =? 0)%Z)).

(** [==] on map keys. *)
Fixpoint Value_eqb (a b : Value) : bool :=
  let all2 :=
    fix all2 (xs ys : list Value) : bool :=
      match xs, ys with
      | [], [] => true
      | x :: xs', y :: ys' => Value_eqb x y && all2 xs' ys'
      | _, _ => false
      end in
  match a, b with
  | VBool x, VBool y => bool_decide (x = y)
  | VInt x, VInt y => (x =? y)%Z
  | VUint x, VUint y => (x =? y)%Z
  | VFloat x, VFloat y => float_eqb x y
  | VComplex x1 x2, VComplex y1 y2 => float_eqb x1 y1 && float_eqb x2 y2
  | VString x, VString y => bool_decide (x = y)
  | VNilRef, VNilRef => true
  | VRef x, VRef y => (x =? y)%nat
  | VArray xs, VArray ys => all2 xs ys
  | VStruct xs, VStruct ys => all2 xs ys
  | _, _ => false
  end.

(** [Value.SetMapIndex(k, v)] on the entries of a map: an entry with an
    equal key is overwritten, key and element. *)
Fixpoint SetMapIndex (entries : list (Value * Value)) (k v : Value) : list (Value * Value) :=
  match entries with
  | [] => [(k, v)]
  | (k', v') :: rest =>
    if Value_eqb k' k then (k, v) :: rest else (k', v') :: SetMapIndex rest k v
  end.

(** [Value.MapIndex]. *)
Fixpoint MapIndex (entries : list (Value * Value)) (k : Value) : option Value :=
  match entries with
  | [] => None
  | (k', v') :: rest => if Value_eqb k' k then Some v' else MapIndex rest k
  end.

(** [isZero], the backport of [reflect.Value.IsZero]; the kind of a value
    is read off its content. *)
Fixpoint isZero (v : Value) : bool :=
  match v with
  | VBool b => negb b
  | VInt i => (i =? 0)%Z
  | VUint u => (u =? 0)%Z
  | VFloat bits => (bits =? 0)%Z
  | VComplex re im => (re =? 0)%Z && (im =? 0)%Z
  | VArray elems => forallb isZero elems
  | VNilRef => true
  | VRef _ | VSlice _ | VMap _ => false
  | VString s => (String.length s =? 0)%nat
  | VStruct fields => forallb isZero fields
  end.

(** ** The library calls that stay abstract

    What the package forwards to [strconv.ParseFloat], [time] and the
    Unicode tables, and what [flag.Parse] does to the process. *)
Record GoLib : Type := {
  (* strconv.ParseFloat(s, bitSize), as the bits of the float64 *)
  ParseFloat : string -> Z -> Z * option error;
  (* time.ParseDuration(s), in nanoseconds *)
  ParseDuration : string -> Z * option error;
  (* time.Parse(layout, value), as the content of a time.Time *)
  time_Parse : string -> string -> Value * option error;
  (* strings.ToUpper and strings.ToLower on a string that is not ASCII *)
  unicode_ToUpper : string -> string;
  unicode_ToLower : string -> string;
  (* whether flag.Parse(), on the process-wide flag set, returns; it ends
     the process on a command line it rejects (flag.ExitOnError) *)
  flag_Parse_returns : bool
}.

(** ** Constants of [cleanenv.go] *)

Definition DefaultSeparator : string := ",".
Definition TagEnv : string := "env".
Definition TagEnvLayout : string := "env-layout".
Definition TagEnvDefault : string := "env-default".
Definition TagEnvSeparator : string := "env-separator".
Definition TagEnvDescription : string := "env-description".
Definition TagEnvRequired : string := "env-required".
Definition TagEnvPrefix : string := "env-prefix".

(** [time.RFC3339]. *)
Definition RFC3339 : string := "2006-01-02T15:04:05Z07:00".

(** ** The record, its fields and the descriptors *)

(** The location of a field: the field indices from the root record. *)
Abbreviation path := (list nat).

(** The record being bound.  A location that was never written holds the
    zero value of its type. *)
Abbreviation store := (gmap path Value).

(** A [reflect.Value] that stands for a settable field: where it is and
    its static type. *)
Record handle : Type := {
  loc : path;
  typ : rtype
}.

Definition load (st : store) (h : handle) : Value :=
  default (Zero (typ h)) (st !! loc h).

(** [structMeta]. *)
Record structMeta : Type := {
  envList : list string;
  fieldName : string;
  fieldValue : handle;
  defValue : option string;
  layout : option string;
  separator : string;
  description : string;
  required : bool
}.

(** The method [isFieldValueZero] of [structMeta]. *)
Definition isFieldValueZero (sm : structMeta) (st : store) : bool :=
  isZero (load st (fieldValue sm)).

(** ** Value coercion ([common.go]) *)

Definition of_error (err : option error) : status :=
  match err with
  | Some e => Err e
  | None => Nil
  end.

Definition is_time (name : string) (t : rtype) : bool :=
  bool_decide (PkgPath (uncommon_of t) = "time")
  && bool_decide (Name (uncommon_of t) = name).

(** What a coercion does to its target: the content it writes, if it
    writes, and the error it returns. *)
Abbreviation effect := (option Value * status)%type.

Section Coercion.

Variable lib : GoLib.

(** The loop of [parseSlice]: the element [i] of the fresh slice is
    coerced from [values[i]]; the first failure ends the loop. *)
Fixpoint parseElems (parseElem : string -> effect) (zero : Value)
         (values : list string) : result (list Value) :=
  match values with
  | [] => Ok []
  | val :: rest =>
    match parseElem val with
    | (w, Ok _) =>
      match parseElems parseElem zero rest with
      | Ok vs => Ok (default zero w :: vs)
      | other => other
      end
    | (_, Err e) => Err e
    | (_, Panic p) => Panic p
    end
  end.

(** The body of [parseSlice], given the coercion of one element. *)
Definition parseSlice_with (parseElem : string -> effect) (elem : rtype)
           (value sep : string) : result Value :=
  if decide (Kind_of elem = Uint8)
  then Ok (VSlice (map (fun c => VUint (Z.of_nat (byte_val c)))
                       (list_ascii_of_string value)))
  else if negb (String.length (GoStrings.TrimSpace value) =? 0)%nat
  then
    let values := GoStrings.Split value sep in
    match parseElems parseElem (Zero elem) values with
    | Ok vs => Ok (VSlice vs)
    | Err e => Err e
    | Panic p => Panic p
    end
  else Ok (VSlice []).

(** The body of the loop of [parseMap]: the entry is cut at its first
    [":"], and the key and the element are coerced each into a fresh
    variable. *)
Definition parseEntry (parseKey parseElem : string -> effect) (zeroKey zeroElem : Value)
           (kv : string) : result (Value * Value) :=
  match GoStrings.SplitN kv ":" 2 with
  | [kv0; kv1] =>
    match parseKey kv0 with
    | (wk, Ok _) =>
      match parseElem kv1 with
      | (wv, Ok _) => Ok (default zeroKey wk, default zeroElem wv)
      | (_, Err e) => Err e
      | (_, Panic p) => Panic p
      end
    | (_, Err e) => Err e
    | (_, Panic p) => Panic p
    end
  | _ => Err (InvalidMapItem kv)
  end.

(** The loop of [parseMap]. *)
Fixpoint parsePairs (parseKey parseElem : string -> effect) (zeroKey zeroElem : Value)
         (pairs : list string) (mapValue : list (Value * Value))
  : result (list (Value * Value)) :=
  match pairs with
  | [] => Ok mapValue
  | kv :: rest =>
    match parseEntry parseKey parseElem zeroKey zeroElem kv with
    | Ok (k, v) =>
      parsePairs parseKey parseElem zeroKey zeroElem rest (SetMapIndex mapValue k v)
    | Err e => Err e
    | Panic p => Panic p
    end
  end.

(** The body of [parseMap], given the coercions of a key and of an element. *)
Definition parseMap_with (parseKey parseElem : string -> effect) (key elem : rtype)
           (value sep : string) : result Value :=
  if negb (String.length (GoStrings.TrimSpace value) =? 0)%nat
  then
    let pairs := GoStrings.Split value sep in
    match parsePairs parseKey parseElem (Zero key) (Zero elem) pairs [] with
    | Ok m => Ok (VMap m)
    | Err e => Err e
    | Panic p => Panic p
    end
  else Ok (VMap []).

(** [field.Set] of the parsed slice: the slice made by [reflect.MakeSlice] has
    the type of the field; the [[]byte] made from the raw string is
    assignable only where the element type is [uint8] itself. *)
Definition slice_assignable (valueType : rtype) : bool :=
  match valueType with
  | TSlice _ e =>
    if decide (Kind_of e = Uint8) then bool_decide (PkgPath (uncommon_of e) = "")
    else true
  | _ => true
  end.

(** [parseValue].  [field] is the current content of the target, a
    settable variable of type [t] (every caller passes one: a field that
    passed [CanSet], an element of a fresh slice, a fresh key or element
    of a map), so [field.CanInterface()] holds. *)
Fixpoint parseValue (t : rtype) (field : Value) (value sep : string)
         (layout : option string) {struct t} : effect :=
  match AsSetter (uncommon_of t) field with
  | Some SetValue =>
    let '(v, err) := SetValue value in (Some v, of_error err)
  | None =>
    let valueType := t in
    match Kind_of valueType, valueType with
    (* parse string value *)
    | String_, _ => (Some (VString value), Nil)
    (* parse boolean value *)
    | Bool, _ =>
      match Strconv.ParseBool value with
      | (_, Some err) => (None, Err err)
      | (b, None) => (Some (VBool b), Nil)
      end
    (* parse integer (or time) value *)
    | (Int | Int8 | Int16 | Int32 | Int64), _ =>
      if bool_decide (Kind_of valueType = Int64) && is_time "Duration" valueType
      then
        match ParseDuration lib value with
        | (_, Some err) => (None, Err err)
        | (d, None) => (Some (VInt d), Nil)
        end
      else
        match Strconv.ParseInt value 0 (Bits valueType) with
        | (_, Some err) => (None, Err err)
        | (number, None) => (Some (VInt number), Nil)
        end
    (* parse unsigned integer value *)
    | (Uint | Uint8 | Uint16 | Uint32 | Uint64), _ =>
      match Strconv.ParseUint value 0 (Bits valueType) with
      | (_, Some err) => (None, Err err)
      | (number, None) => (Some (VUint number), Nil)
      end
    (* parse floating point value *)
    | (Float32 | Float64), _ =>
      match ParseFloat lib value (Bits valueType) with
      | (_, Some err) => (None, Err err)
      | (number, None) => (Some (VFloat number), Nil)
      end
    (* parse sliced value *)
    | Slice, TSlice _ e =>
      match parseSlice_with (fun val => parseValue e (Zero e) val sep layout) e value sep with
      | Err err => (None, Err err)
      | Panic p => (None, Panic p)
      | Ok sliceValue =>
        if slice_assignable valueType then (Some sliceValue, Nil)
        else (None, Panic SetNotAssignable)
      end
    (* parse mapped value *)
    | Map, TMap _ k e =>
      match parseMap_with (fun val => parseValue k (Zero k) val sep layout)
                          (fun val => parseValue e (Zero e) val sep layout)
                          k e value sep with
      | Err err => (None, Err err)
      | Panic p => (None, Panic p)
      | Ok mapValue => (Some mapValue, Nil)
      end
    | Struct, _ =>
      (* process time.Time only *)
      if is_time "Time" valueType
      then
        let l := match layout with Some l => l | None => RFC3339 end in
        match time_Parse lib l value with
        | (_, Some err) => (None, Err err)
        | (val, None) => (Some val, Nil)
        end
      else (None, Nil)
    | _, _ =>
      (None, Err (UnsupportedType (PkgPath (uncommon_of valueType))
                                  (Name (uncommon_of valueType))))
    end
  end.

(** [parseSlice]: the slice it returns, or its error. *)
Definition parseSlice (valueType : rtype) (value sep : string)
           (layout : option string) : result Value :=
  match valueType with
  | TSlice _ e =>
    parseSlice_with (fun val => parseValue e (Zero e) val sep layout) e value sep
  | _ => Panic MakeOfWrongKind
  end.

(** [parseMap]. *)
Definition parseMap (valueType : rtype) (value sep : string)
           (layout : option string) : result Value :=
  match valueType with
  | TMap _ k e =>
    parseMap_with (fun val => parseValue k (Zero k) val sep layout)
                  (fun val => parseValue e (Zero e) val sep layout)
                  k e value sep
  | _ => Panic MakeOfWrongKind
  end.

End Coercion.

(** ** Introspection ([readStructMetadata]) *)

(** The [interface{}] handed to [readStructMetadata], as far as reflection
    looks into it: nil, a pointer to a variable of type [t] (nil, or
    pointing at a location of the record), or a value of a type [t] that
    is not a pointer type. *)
Inductive iface : Type :=
| INil
| IPointer (t : rtype) (target : option path)
| IValue (t : rtype).

(** [cfgNode]. *)
Record cfgNode : Type := {
  Val : iface;
  Prefix : string
}.

(** What one field adds: a nested record for the worklist, a descriptor,
    or nothing. *)
Inductive visited : Type :=
| Pushed (n : cfgNode)
| Described (m : structMeta)
| Skipped.

Section Introspection.

(** The record [s] being read: where it is, whether it is addressable,
    and the prefix of its node. *)
Variable sLoc : path.
Variable sAddressable : bool.
Variable sPrefix : string.

(** The body of the loop over the fields of [s], for the field [idx]. *)
Definition readField (idx : nat) (fType_ : StructField rtype) : result visited :=
  let fld := {| loc := sLoc ++ [idx]; typ := fType fType_ |} in
  let exported := bool_decide (fPkgPath fType_ = "") in
  let nested :=
    bool_decide (Kind_of (typ fld) = Struct) && negb (is_time "Time" (typ fld)) in
  if nested
  then
    (* add structure to parsing stack *)
    let prefix := default "" (Tag_Lookup (fTag fType_) TagEnvPrefix) in
    if negb sAddressable then Panic AddrOfUnaddressable
    else if negb exported then Panic InterfaceOfUnexported
    else Ok (Pushed {| Val := IPointer (typ fld) (Some (loc fld));
                       Prefix := (sPrefix ++ prefix)%string |})
  else
    (* process time.Time *)
    let layout :=
      if bool_decide (Kind_of (typ fld) = Struct)
      then Tag_Lookup (fTag fType_) TagEnvLayout else None in
    (* check is the field value can be changed *)
    if negb (sAddressable && exported) then Ok Skipped
    else
      let defValue := Tag_Lookup (fTag fType_) TagEnvDefault in
      let separator :=
        match Tag_Lookup (fTag fType_) TagEnvSeparator with
        | Some sep => sep
        | None => DefaultSeparator
        end in
      let required :=
        match Tag_Lookup (fTag fType_) TagEnvRequired with
        | Some _ => true
        | None => false
        end in
      let envList :=
        match Tag_Lookup (fTag fType_) TagEnv with
        | Some envs =>
          if negb (String.length envs =? 0)%nat
          then
            let envList := GoStrings.Split envs DefaultSeparator in
            if negb (bool_decide (sPrefix = ""))
            then map (fun e => (sPrefix ++ e)%string) envList
            else envList
          else []
        | None => []
        end in
      Ok (Described {|
            envList := envList;
            fieldName := fName fType_;
            fieldValue := fld;
            defValue := defValue;
            layout := layout;
            separator := separator;
            description := Tag_Get (fTag fType_) TagEnvDescription;
            required := required |}).

(** The loop over the fields of [s], from the field [idx] on: the
    nested records to append to the worklist and the descriptors to
    append to [metas], both in declaration order. *)
Fixpoint readFields (idx : nat) (fields : list (StructField rtype))
  : result (list cfgNode * list structMeta) :=
  match fields with
  | [] => Ok ([], [])
  | f :: rest =>
    match readField idx f with
    | Err e => Err e
    | Panic p => Panic p
    | Ok v =>
      match readFields (S idx) rest with
      | Ok (nodes, metas) =>
        match v with
        | Pushed n => Ok (n :: nodes, metas)
        | Described m => Ok (nodes, m :: metas)
        | Skipped => Ok (nodes, metas)
        end
      | other => other
      end
    end
  end.

End Introspection.

(** One iteration of the loop over [cfgStack]: unwrap the pointer, refuse
    what is not a record, read the fields. *)
Definition readNode (node : cfgNode) : result (list cfgNode * list structMeta) :=
  match Val node with
  | INil => Err (WrongType Invalid)
  | IPointer _ None => Err (WrongType Invalid)
  | IPointer t (Some l) =>
    match t with
    | TStruct _ fields => readFields l true (Prefix node) 0 fields
    | _ => Err (WrongType (Kind_of t))
    end
  | IValue t =>
    match t with
    | TStruct _ fields => readFields [] false (Prefix node) 0 fields
    | _ => Err (WrongType (Kind_of t))
    end
  end.

(** The loop [for i := 0; i < len(cfgStack); i++]: the list is the part
    of [cfgStack] from index [i] on.  Every iteration takes one record of
    the finite type tree, which [fuel] bounds. *)
Fixpoint worklist (fuel : nat) (cfgStack : list cfgNode) (metas : list structMeta)
  : option (result (list structMeta)) :=
  match cfgStack with
  | [] => Some (Ok metas)
  | node :: rest =>
    match fuel with
    | O => None
    | S fuel' =>
      match readNode node with
      | Ok (nodes, ms) => worklist fuel' (rest ++ nodes) (metas ++ ms)
      | Err e => Some (Err e)
      | Panic p => Some (Panic p)
      end
    end
  end.

(** The number of types in a type tree. *)
Fixpoint type_size (t : rtype) : nat :=
  match t with
  | TStruct _ fields => S (list_sum (map (fun f => type_size (fType f)) fields))
  | _ => 1
  end.

Definition iface_size (v : iface) : nat :=
  match v with
  | IPointer t _ | IValue t => type_size t
  | INil => 1
  end.

(** [readStructMetadata]. *)
Definition readStructMetadata (cfgRoot : iface) : result (list structMeta) :=
  match worklist (iface_size cfgRoot) [{| Val := cfgRoot; Prefix := "" |}] [] with
  | Some r => r
  | None => Ok []
  end.

(** ** Applying the sources and finalizing *)

Section Sources.

Variable lib : GoLib.

(** The process environment read by [os.LookupEnv]. *)
Variable environ : gmap string string.

Definition LookupEnv (key : string) : option string := environ !! key.

(** [strings.ToUpper] and [strings.ToLower]. *)
Definition ToUpper (s : string) : string :=
  if GoStrings.isASCII s then GoStrings.map_bytes GoStrings.upper_byte s
  else unicode_ToUpper lib s.

Definition ToLower (s : string) : string :=
  if GoStrings.isASCII s then GoStrings.map_bytes GoStrings.lower_byte s
  else unicode_ToLower lib s.

(** [toPrefix]. *)
Definition toPrefix (name : string) : string :=
  if bool_decide (name = "") then ""
  else
    let name := if negb (GoStrings.HasSuffix name "_") then (name ++ "_")%string else name in
    ToUpper name.

(** [parseValue(meta.fieldValue, raw, meta.separator, meta.layout)] on
    the record. *)
Definition parseField (meta : structMeta) (raw : string) (st : store) : store * status :=
  let fld := fieldValue meta in
  match parseValue lib (typ fld) (load st fld) raw (separator meta) (layout meta) with
  | (Some v, err) => (<[loc fld := v]> st, err)
  | (None, err) => (st, err)
  end.

(** The inner loop of [readEnvVars]: the first name of the list that is
    set wins. *)
Fixpoint firstEnv (prefix : string) (envs : list string) : option string :=
  match envs with
  | [] => None
  | env :: rest =>
    match LookupEnv (prefix ++ env)%string with
    | Some value => Some value
    | None => firstEnv prefix rest
    end
  end.

(** [readEnvVars]. *)
Fixpoint readEnvVars (metaInfo : list structMeta) (prefix : string) (st : store)
  : store * status :=
  match metaInfo with
  | [] => (st, Nil)
  | meta :: rest =>
    match firstEnv prefix (envList meta) with
    | None => readEnvVars rest prefix st
    | Some rawValue =>
      match parseField meta rawValue st with
      | (st', Ok _) => readEnvVars rest prefix st'
      | failed => failed
      end
    end
  end.

(** [finalize]. *)
Fixpoint finalize (metaInfo : list structMeta) (st : store) : store * status :=
  match metaInfo with
  | [] => (st, Nil)
  | meta :: rest =>
    (* enforce required values *)
    if required meta && isFieldValueZero meta st
    then (st, Err (RequiredMissing (fieldName meta)))
    else
      (* set default values *)
      match isFieldValueZero meta st, defValue meta with
      | true, Some def =>
        match parseField meta def st with
        | (st', Ok _) => finalize rest st'
        | failed => failed
        end
      | _, _ => finalize rest st
      end
  end.

(** [ReadEnv]. *)
Definition ReadEnv (cfg : iface) (appname : string) (st : store) : store * status :=
  match readStructMetadata cfg with
  | Err e => (st, Err e)
  | Panic p => (st, Panic p)
  | Ok meta =>
    match readEnvVars meta (toPrefix appname) st with
    | (st', Ok _) => finalize meta st'
    | failed => failed
    end
  end.

(** [toFlagName]. *)
Definition toFlagName (name : string) (aliases : list string) : string :=
  match aliases with
  | alias :: _ => GoStrings.ReplaceAll (ToLower alias) "_" "-"
  | [] => ToLower name
  end.

(** [flagSet.String(name, "", usage)], which declares the flag through
    [flag.FlagSet.Var]: a name that begins with ["-"] or contains ["="]
    panics (Go 1.17 and later); otherwise a string variable holding the
    default [""] is allocated and its address returned.  [Var] also
    panics on a name that the flag set already has; [readFlagVars] never
    passes one, since its flag set is new and [names] holds what it
    declared. *)
Definition FlagSet_String (name : string) (cells : list string)
  : result (nat * list string) :=
  if GoStrings.HasPrefix name "-" then Panic (FlagBeginsWithMinus name)
  else if GoStrings.Contains name "=" then Panic (FlagContainsEquals name)
  else Ok (length cells, (cells ++ [""])%list).

(** The first loop of [readFlagVars].  [cells] are the string variables
    allocated by [flagSet.String]; [values] maps a field name to the
    address of its cell. *)
Fixpoint registerFlags (metaInfo : list structMeta)
         (values : gmap string nat) (names : gset string) (cells : list string)
  : result (gmap string nat * gset string * list string) :=
  match metaInfo with
  | [] => Ok (values, names, cells)
  | meta :: rest =>
    let flagName := toFlagName (fieldName meta) (envList meta) in
    if bool_decide (flagName ∈ names)
    then
      (* we can't have overlapping flag names *)
      registerFlags rest values names cells
    else
      match FlagSet_String flagName cells with
      | Ok (addr, cells') =>
        registerFlags rest (<[fieldName meta := addr]> values)
                      ({[flagName]} ∪ names) cells'
      | Err e => Err e
      | Panic p => Panic p
      end
  end.

(** The second loop of [readFlagVars]. *)
Fixpoint bindFlags (metaInfo : list structMeta)
         (values : gmap string nat) (cells : list string) (st : store)
  : store * status :=
  match metaInfo with
  | [] => (st, Nil)
  | meta :: rest =>
    match values !! fieldName meta with
    | None => (st, Panic NilDereference)
    | Some addr =>
      let flagVal := default "" (cells !! addr) in
      if bool_decide (flagVal = "") then bindFlags rest values cells st
      else
        match parseField meta flagVal st with
        | (st', Ok _) => bindFlags rest values cells st'
        | failed => failed
        end
    end
  end.

(** [readFlagVars].  [flag.Parse()] parses the command line into the
    process-wide flag set, not into [flagSet]: the cells keep their
    default.  [None] when [flag.Parse()] ends the process. *)
Definition readFlagVars (metaInfo : list structMeta) (st : store)
  : option (store * status) :=
  match registerFlags metaInfo ∅ ∅ [] with
  | Ok (values, _, cells) =>
    if flag_Parse_returns lib then Some (bindFlags metaInfo values cells st)
    else None
  | Err e => Some (st, Err e)
  | Panic p => Some (st, Panic p)
  end.

End Sources.

(** ** Types and records used in the statements *)

(** A type without methods. *)
Definition plain (pkg name : string) : uncommon :=
  {| PkgPath := pkg; Name := name; AsSetter := fun _ => None |}.

Definition int_t : rtype := TBasic (plain "" "int") Int.
Definition string_t : rtype := TBasic (plain "" "string") String_.
Definition uint8_t : rtype := TBasic (plain "" "uint8") Uint8.

(** [[]byte], [[]string] and [map[string]string]. *)
Definition bytes_t : rtype := TSlice (plain "" "") uint8_t.
Definition strings_t : rtype := TSlice (plain "" "") string_t.
Definition string_map_t : rtype := TMap (plain "" "") string_t string_t.

Definition exported (name : string) (t : rtype) (tag : list (string * string))
  : StructField rtype :=
  {| fName := name; fPkgPath := ""; fType := t; fTag := tag |}.

Definition unexported (name : string) (t : rtype) (tag : list (string * string))
  : StructField rtype :=
  {| fName := name; fPkgPath := "main"; fType := t; fTag := tag |}.

(** [struct { Port int `env:"PORT" env-default:"8080" env-required:"true"` }] *)
Definition RequiredPort : rtype :=
  TStruct (plain "main" "RequiredPort")
    [exported "Port" int_t
       [(TagEnv, "PORT"); (TagEnvDefault, "8080"); (TagEnvRequired, "true")]].

(** [struct { Port int `env:"PORT" env-default:def` }] *)
Definition DefaultPort (def : string) : rtype :=
  TStruct (plain "main" "DefaultPort")
    [exported "Port" int_t [(TagEnv, "PORT"); (TagEnvDefault, def)]].

(** [struct { Port int `env:"PORT"` }] *)
Definition Database : rtype :=
  TStruct (plain "main" "Database") [exported "Port" int_t [(TagEnv, "PORT")]].

(** [struct { DB Database `env-prefix:"DB_"` }] *)
Definition Service : rtype :=
  TStruct (plain "main" "Service") [exported "DB" Database [(TagEnvPrefix, "DB_")]].

(** [struct { Name string `env:"NAME"`; db Database `env-prefix:"DB_"` }] *)
Definition Private : rtype :=
  TStruct (plain "main" "Private")
    [exported "Name" string_t [(TagEnv, "NAME")];
     unexported "db" Database [(TagEnvPrefix, "DB_")]].

(** The descriptor of the only field of [RequiredPort], [DefaultPort] and
    of the field [DB.Port] of [Service]. *)
Definition Port_at (l : path) (keys : list string) (def : option string) (req : bool)
  : structMeta :=
  {| envList := keys;
     fieldName := "Port";
     fieldValue := {| loc := l; typ := int_t |};
     defValue := def;
     layout := None;
     separator := ",";
     description := "";
     required := req |}.

(** A descriptor that only carries what [readFlagVars] reads. *)
Definition flag_meta (name : string) (keys : list string) (l : path) : structMeta :=
  {| envList := keys;
     fieldName := name;
     fieldValue := {| loc := l; typ := int_t |};
     defValue := None;
     layout := None;
     separator := ",";
     description := "";
     required := false |}.

(** A library in which the float, duration and time parsers accept
    nothing and [flag.Parse] returns; for statements at records without
    such fields. *)
Definition no_parsers : GoLib :=
  {| ParseFloat := fun s _ => (0%Z, Some (NumError "ParseFloat" s ErrSyntax));
     ParseDuration := fun s => (0%Z, Some (ForeignError "time: invalid duration"));
     time_Parse := fun _ _ => (VStruct [], Some (ForeignError "parsing time"));
     unicode_ToUpper := fun s => s;
     unicode_ToLower := fun s => s;
     flag_Parse_returns := true |}.

(** ** Auxiliary notions for the statements *)

(** Whether the byte [c] occurs in [s]. *)
Fixpoint has_byte (c : ascii) (s : string) : bool :=
  match s with
  | "" => false
  | String x s' => bool_decide (x = c) || has_byte c s'
  end.

(** The bytes of a string as the elements of a [[]byte]. *)
Definition bytes_of (value : string) : list Value :=
  map (fun c => VUint (Z.of_nat (byte_val c))) (list_ascii_of_string value).

(** Whether [strings.TrimSpace] leaves something. *)
Definition nonblank (s : string) : bool :=
  negb (String.length (GoStrings.TrimSpace s) =? 0)%nat.

(** Two slice results one after the other: the elements of both, or the
    first failure. *)
Definition then_slice (r1 r2 : result Value) : result Value :=
  match r1 with
  | Ok (VSlice xs) =>
    match r2 with
    | Ok (VSlice ys) => Ok (VSlice (xs ++ ys))
    | other => other
    end
  | other => other
  end.

(** The weight of the worklist of [readStructMetadata]. *)
Definition worklist_size (cfgStack : list cfgNode) : nat :=
  list_sum (map (fun n => iface_size (Val n)) cfgStack).

(** A byte below 128 that is not white space: no white-space rune
    contains it. *)
Definition plain_byte (c : ascii) : bool :=
  byte_in 0 127 c && negb (GoStrings.ascii_space c).

(** The element written last under a key equal to [q], among the
    entries [kvs] written in order. *)
Definition last_write (kvs : list (Value * Value)) (q : Value) : option Value :=
  snd <$> find (fun ab => Value_eqb ab.1 q) (rev kvs).

(** Writing the entries [kvs] into a map in order. *)
Definition write_all (kvs : list (Value * Value)) (m : list (Value * Value))
  : list (Value * Value) :=
  fold_left (fun m ab => SetMapIndex m ab.1 ab.2) kvs m.

(** The elementwise comparison inside [Value_eqb]. *)
Definition all_eqb : list Value -> list Value -> bool :=
  fix all2 (xs ys : list Value) : bool :=
    match xs, ys with
    | [], [] => true
    | x :: xs', y :: ys' => Value_eqb x y && all2 xs' ys'
    | _, _ => false
    end.

(** The descriptors of a record with a name and a port, for a pass that
    fails half way. *)
Definition Name_meta : structMeta :=
  {| envList := ["NAME"];
     fieldName := "Name";
     fieldValue := {| loc := [0]; typ := string_t |};
     defValue := None;
     layout := None;
     separator := ",";
     description := "";
     required := false |}.

(** The value of the field [Port] of [RequiredPort] and [DefaultPort]. *)
Definition Port_field : handle := {| loc := [0]; typ := int_t |}.

(** The value of the field [DB.Port] of [Service]. *)
Definition DB_Port_field : handle := {| loc := [0; 0]; typ := int_t |}.

(** Whether a field is a nested record for [readStructMetadata]: a
    struct other than [time.Time]. *)
Definition nested_record (f : StructField rtype) : bool :=
  bool_decide (Kind_of (fType f) = Struct) && negb (is_time "Time" (fType f)).

(** [struct { X int; Y int }] and a list of such. *)
Definition Point : rtype :=
  TStruct (plain "main" "Point") [exported "X" int_t []; exported "Y" int_t []].
Definition Points : rtype := TSlice (plain "" "") Point.

(** The kinds that fall to the default case of the switch of
    [parseValue]. *)
Definition unsupported_kind (k : Kind) : bool :=
  match k with
  | Invalid | Uintptr | Complex64 | Complex128 | Array | Chan | Func
  | Interface | Ptr | UnsafePointer => true
  | _ => false
  end.

(** [struct { A string `env:"A"`; In struct { C string `env:"C"` } `env-prefix:"IN_"`; B string `env:"B"` }] *)
Definition Levels : rtype :=
  TStruct (plain "main" "Levels")
    [exported "A" string_t [(TagEnv, "A")];
     exported "In" (TStruct (plain "" "") [exported "C" string_t [(TagEnv, "C")]])
       [(TagEnvPrefix, "IN_")];
     exported "B" string_t [(TagEnv, "B")]].

(** [type MyByte uint8] and [[]MyByte]. *)
Definition MyByte : rtype := TBasic (plain "main" "MyByte") Uint8.
Definition MyBytes : rtype := TSlice (plain "" "") MyByte.

(** [float64] and
    [struct { Ratio float64 `env:"RATIO" env-default:"1.5"` }], with the
    value of its field. *)
Definition float64_t : rtype := TBasic (plain "" "float64") Float64.
Definition DefaultRatio : rtype :=
  TStruct (plain "main" "DefaultRatio")
    [exported "Ratio" float64_t [(TagEnv, "RATIO"); (TagEnvDefault, "1.5")]].
Definition Ratio_field : handle := {| loc := [0]; typ := float64_t |}.

(** A library whose [strconv.ParseFloat] knows two literals: ["-0"], the
    negative zero (the sign bit alone), and ["1.5"]; for the rest it is
    [no_parsers]. *)
Definition two_floats : GoLib :=
  {| ParseFloat := fun s bitSize =>
       if bool_decide (s = "-0") then ((2 ^ 63)%Z, None)
       else if bool_decide (s = "1.5") then (4609434218613702656%Z, None)
       else ParseFloat no_parsers s bitSize;
     ParseDuration := ParseDuration no_parsers;
     time_Parse := time_Parse no_parsers;
     unicode_ToUpper := unicode_ToUpper no_parsers;
     unicode_ToLower := unicode_ToLower no_parsers;
     flag_Parse_returns := flag_Parse_returns no_parsers |}.

(** ** Further notions for the statements *)

(** The locations the descriptors stand for. *)
Definition locs (metaInfo : list structMeta) : list path :=
  map (fun m => loc (fieldValue m)) metaInfo.

(** No name of the descriptor is set in the environment. *)
Definition unset (environ : gmap string string) (prefix : string) (meta : structMeta) : Prop :=
  Forall (fun env => environ !! (prefix ++ env)%string = None) (envList meta).

(** The flag name [readFlagVars] synthesizes for a descriptor. *)
Definition flagName_of (lib : GoLib) (meta : structMeta) : string :=
  toFlagName lib (fieldName meta) (envList meta).

(** A flag name that [flag.FlagSet.Var] accepts. *)
Definition flag_name_ok (name : string) : bool :=
  negb (GoStrings.HasPrefix name "-") && negb (GoStrings.Contains name "=").

(** The panics of [flag.FlagSet.Var] on a name it refuses. *)
Definition flag_name_panic (p : panic) : Prop :=
  exists name, flag_name_ok name = false
               /\ (p = FlagBeginsWithMinus name \/ p = FlagContainsEquals name).

(** [ReadConfig].  [parseFile], which is not part of these sources, is
    what loading the file at a path does to the record.  [None] when
    [flag.Parse()] ends the process. *)
Definition ReadConfig (parseFile : string -> store -> store * status)
           (lib : GoLib) (environ : gmap string string)
           (path_ appname : string) (cfg : iface) (st : store) : option (store * status) :=
  match (if negb (bool_decide (path_ = "")) then parseFile path_ st else (st, Nil)) with
  | (st0, Ok _) =>
    match readStructMetadata cfg with
    | Err e => Some (st0, Err e)
    | Panic p => Some (st0, Panic p)
    | Ok meta =>
      match readEnvVars lib environ meta (toPrefix lib appname) st0 with
      | (st1, Ok _) =>
        match readFlagVars lib meta st1 with
        | None => None
        | Some (st2, Ok _) => Some (finalize lib meta st2)
        | Some failed => Some failed
        end
      | failed => Some failed
      end
    end
  | failed => Some failed
  end.

(** A type descriptor as [reflect] makes them: a [TBasic] has none of
    the kinds that come with element types or fields. *)
Fixpoint wf_type (t : rtype) : bool :=
  match t with
  | TBasic _ k =>
    match k with
    | Invalid | Array | Map | Ptr | Slice | Struct => false
    | _ => true
    end
  | TArray _ _ e | TSlice _ e | TPtr _ e => wf_type e
  | TMap _ k e => wf_type k && wf_type e
  | TStruct _ fields => forallb (fun f => wf_type (fType f)) fields
  end.

(** [struct { Name string `env:"NAME" env-required:"true"`; Port int `env:"PORT" env-default:"8080"` }] *)
Definition Server : rtype :=
  TStruct (plain "main" "Server")
    [exported "Name" string_t [(TagEnv, "NAME"); (TagEnvRequired, "true")];
     exported "Port" int_t [(TagEnv, "PORT"); (TagEnvDefault, "8080")]].

(** The type found by following field indices from a type. *)
Fixpoint type_at (t : rtype) (p : path) : option rtype :=
  match p with
  | [] => Some t
  | i :: rest =>
    match t with
    | TStruct _ fields =>
      match fields !! i with
      | Some f => type_at (fType f) rest
      | None => None
      end
    | _ => None
    end
  end.

(** Every field along the indices is an exported nested record. *)
Fixpoint reached (t : rtype) (p : path) : bool :=
  match p with
  | [] => true
  | i :: rest =>
    match t with
    | TStruct _ fields =>
      match fields !! i with
      | Some f =>
        bool_decide (fPkgPath f = "") && nested_record f && reached (fType f) rest
      | None => false
      end
    | _ => false
    end
  end.

(** The prefixes declared by the fields along the indices, one after the
    other. *)
Fixpoint prefix_along (t : rtype) (p : path) : string :=
  match p with
  | [] => ""
  | i :: rest =>
    match t with
    | TStruct _ fields =>
      match fields !! i with
      | Some f =>
        (default "" (Tag_Lookup (fTag f) TagEnvPrefix) ++ prefix_along (fType f) rest)%string
      | None => ""
      end
    | _ => ""
    end
  end.

(** The location a node of the worklist points at. *)
Definition node_loc (n : cfgNode) : path :=
  match Val n with
  | IPointer _ (Some l) => l
  | _ => []
  end.

(** A node of the worklist for the root record [t] at [l]: a pointer to a record reached from the root
    through exported nested records, with their prefixes. *)
Definition node_ok (t : rtype) (l : path) (n : cfgNode) : Prop :=
  exists p t', Val n = IPointer t' (Some (l ++ p))
               /\ type_at t p = Some t' /\ reached t p = true
               /\ Prefix n = prefix_along t p.

(** A descriptor: what the loop body makes of an exported field, not a
    nested record, of such a record. *)
Definition meta_ok (t : rtype) (l : path) (m : structMeta) : Prop :=
  exists p idx u fields f,
    reached t p = true /\ type_at t p = Some (TStruct u fields)
    /\ fields !! idx = Some f
    /\ fPkgPath f = "" /\ nested_record f = false
    /\ readField (l ++ p) true (prefix_along t p) idx f = Ok (Described m)
    /\ loc (fieldValue m) = l ++ p ++ [idx]
    /\ typ (fieldValue m) = fType f /\ fieldName m = fName f.

(** The state of the worklist of [readStructMetadata] for a root at [l]:
    [done] are the locations of the records already read.  No record is
    met twice, every record but the root sits in a record already read,
    and so does every field described so far. *)
Definition worklist_inv (l : path) (done : list path)
           (cfgStack : list cfgNode) (metas : list structMeta) : Prop :=
  NoDup (done ++ map node_loc cfgStack)
  /\ Forall (fun q => length l <= length q) (done ++ map node_loc cfgStack)
  /\ Forall (fun q => q = l \/ exists q' k, q' ∈ done /\ q = q' ++ [k])
            (done ++ map node_loc cfgStack)
  /\ Forall (fun n => exists t' q, Val n = IPointer t' (Some q)) cfgStack
  /\ Forall (fun x => exists q' k, q' ∈ done /\ x = q' ++ [k]) (locs metas)
  /\ NoDup (locs metas).

(** Every byte of a string satisfies a test. *)
Fixpoint all_bytes (P : ascii -> bool) (s : string) : bool :=
  match s with
  | "" => true
  | String c s' => P c && all_bytes P s'
  end.

(** A byte a flag name is made of: neither an underscore nor an upper
    case ASCII letter. *)
Definition flag_byte (c : ascii) : bool :=
  negb (bool_decide (c = "_"%char)) && negb (byte_in 65 90 c).

(** ** [GetDescription] *)

(** [Kind.String]. *)
Definition Kind_String (k : Kind) : string :=
  match k with
  | Invalid => "invalid" | Bool => "bool"
  | Int => "int" | Int8 => "int8" | Int16 => "int16" | Int32 => "int32" | Int64 => "int64"
  | Uint => "uint" | Uint8 => "uint8" | Uint16 => "uint16" | Uint32 => "uint32"
  | Uint64 => "uint64" | Uintptr => "uintptr"
  | Float32 => "float32" | Float64 => "float64"
  | Complex64 => "complex64" | Complex128 => "complex128"
  | Array => "array" | Chan => "chan" | Func => "func" | Interface => "interface"
  | Map => "map" | Ptr => "ptr" | Slice => "slice" | String_ => "string"
  | Struct => "struct" | UnsafePointer => "unsafe.Pointer"
  end.

(** The line feed and the tabulator of the format strings. *)
Definition newline : string := String "010"%char "".
Definition tab : string := String "009"%char "".

Section Description.

(** What the verb [%q] prints for a string ([strconv.Quote]). *)
Variable Quote : string -> string.

(** The inner loop of [GetDescription], over the names of one descriptor
    from the index [idx] on: what it appends to [description]. *)
Fixpoint describeEnvs (m : structMeta) (idx : nat) (envs : list string) : string :=
  match envs with
  | [] => ""
  | env :: rest =>
    let elemDescription :=
      (newline ++ "  " ++ env ++ " " ++ Kind_String (Kind_of (typ (fieldValue m))))%string in
    let elemDescription :=
      if (0 <? idx)%nat
      then (elemDescription ++ " (alternative to " ++ hd "" (envList m) ++ ")")%string
      else elemDescription in
    let elemDescription :=
      (elemDescription ++ newline ++ "    " ++ tab ++ description m)%string in
    let elemDescription :=
      match defValue m with
      | Some def => (elemDescription ++ " (default " ++ Quote def ++ ")")%string
      | None => elemDescription
      end in
    (elemDescription ++ describeEnvs m (S idx) rest)%string
  end.

(** The outer loop. *)
Fixpoint describeAll (meta : list structMeta) : string :=
  match meta with
  | [] => ""
  | m :: rest => (describeEnvs m 0 (envList m) ++ describeAll rest)%string
  end.

(** [GetDescription]. *)
Definition GetDescription (cfg : iface) (headerText : option string) : result string :=
  match readStructMetadata cfg with
  | Err e => Err e
  | Panic p => Panic p
  | Ok meta =>
    let header :=
      match headerText with
      | Some h => h
      | None => "Environment variables:"
      end in
    let description := describeAll meta in
    if negb (bool_decide (description = "")) then Ok (header ++ description)%string
    else Ok ""
  end.

End Description.

(** The kinds of the signed and of the unsigned integer cases of
    [parseValue]. *)
Definition signed_kind (k : Kind) : bool :=
  match k with
  | Int | Int8 | Int16 | Int32 | Int64 => true
  | _ => false
  end.

Definition unsigned_kind (k : Kind) : bool :=
  match k with
  | Uint | Uint8 | Uint16 | Uint32 | Uint64 => true
  | _ => false
  end.

(** The field of [meta] holds in [st'] what coercing [raw] into it made
    of its content in [st], and the coercion returned nil. *)
Definition coerced (lib : GoLib) (meta : structMeta) (raw : string) (st st' : store) : Prop :=
  exists w,
    parseValue lib (typ (fieldValue meta)) (load st (fieldValue meta)) raw
               (separator meta) (layout meta) = (w, Nil)
    /\ load st' (fieldValue meta) = default (load st (fieldValue meta)) w.

(** The field of [meta] holds the same in both records. *)
Definition untouched (meta : structMeta) (st st' : store) : Prop :=
  load st' (fieldValue meta) = load st (fieldValue meta).

(** * Properties *)

(** ** The library models at some inputs *)

Example ParseInt_decimal : Strconv.ParseInt "8080" 0 64 = (8080%Z, None).
Proof. reflexivity. Qed.

Example ParseInt_hex : Strconv.ParseInt "-0x1F" 0 64 = ((-31)%Z, None).
Proof. reflexivity. Qed.

Example ParseInt_octal : Strconv.ParseInt "017" 0 64 = (15%Z, None).
Proof. reflexivity. Qed.

Example ParseInt_underscore : Strconv.ParseInt "1_000" 0 64 = (1000%Z, None).
Proof. reflexivity. Qed.

Example ParseInt_range :
  Strconv.ParseInt "128" 0 8 = (127%Z, Some (NumError "ParseInt" "128" ErrRange)).
Proof. reflexivity. Qed.

Example ParseInt_syntax :
  Strconv.ParseInt "12a" 0 64 = (0%Z, Some (NumError "ParseInt" "12a" ErrSyntax)).
Proof. reflexivity. Qed.

Example ParseUint_max : Strconv.ParseUint "18446744073709551615" 0 64 = (18446744073709551615%Z, None).
Proof. reflexivity. Qed.

Example Split_commas : GoStrings.Split "a,,b" "," = ["a"; ""; "b"].
Proof. reflexivity. Qed.

Example Split_empty : GoStrings.Split "" "," = [""].
Proof. reflexivity. Qed.

Example Split_long_separator : GoStrings.Split "aaab" "aa" = [""; "ab"].
Proof. reflexivity. Qed.

Example SplitN_first_colon : GoStrings.SplitN "k:v:w" ":" 2 = ["k"; "v:w"].
Proof. reflexivity. Qed.

Example TrimSpace_both_ends : GoStrings.TrimSpace "  a b  " = "a b".
Proof. reflexivity. Qed.

Example toPrefix_lower (lib : GoLib) : toPrefix lib "app" = "APP_".
Proof. reflexivity. Qed.

Example toFlagName_alias (lib : GoLib) : toFlagName lib "Port" ["DB_PORT"; "PORT"] = "db-port".
Proof. reflexivity. Qed.

(** Nested records come after the fields of the record that holds them. *)
Example readStructMetadata_breadth_first :
  (fun m => (envList m, loc (fieldValue m)))
    <$> default [] (match readStructMetadata (IPointer Levels (Some [])) with
                    | Ok metas => Some metas
                    | _ => None
                    end)
  = [(["A"], [0]); (["B"], [2]); (["IN_C"], [1; 0])].
Proof. reflexivity. Qed.


(** ** [strings.Split] at a one-byte separator *)

Section SplitFacts.

Import GoStrings.

Lemma HasPrefix_single (c x : ascii) (s : string) :
  HasPrefix (String x s) (String c "") = bool_decide (x = c).
Proof.
  unfold HasPrefix. simpl.
  destruct (ascii_dec c x) as [->|Hne].
  - rewrite bool_decide_eq_true_2; [|done]. by destruct s.
  - rewrite bool_decide_eq_false_2; [done|congruence].
Qed.

Lemma split_go_single_free (c : ascii) (p : string) :
  has_byte c p = false -> split_go (String c "") 0 p = (p, []).
Proof.
  induction p as [|x p IH]; [done|].
  cbn [has_byte]. intros [Hx Hp]%orb_false_elim.
  cbn [split_go]. rewrite HasPrefix_single, Hx, (IH Hp). done.
Qed.

Lemma split_go_single_app (c : ascii) (p s : string) :
  has_byte c p = false ->
  split_go (String c "") 0 (p +:+ String c s)
  = (p, (split_go (String c "") 0 s).1 :: (split_go (String c "") 0 s).2).
Proof.
  induction p as [|x p IH].
  - intros _. change ("" +:+ String c s) with (String c s).
    cbn [split_go]. rewrite HasPrefix_single.
    rewrite bool_decide_eq_true_2; [|done]. cbn [String.length Nat.sub].
    by destruct (split_go (String c "") 0 s).
  - cbn [has_byte]. intros [Hx Hp]%orb_false_elim.
    change (String x p +:+ String c s) with (String x (p +:+ String c s)).
    cbn [split_go]. rewrite HasPrefix_single, Hx, (IH Hp). done.
Qed.

Lemma Split_single_free (c : ascii) (p : string) :
  has_byte c p = false -> Split p (String c "") = [p].
Proof.
  intros Hp. unfold Split. rewrite decide_False; [|done].
  by rewrite split_go_single_free.
Qed.

Lemma Split_single_cons (c : ascii) (p s : string) :
  has_byte c p = false ->
  Split (p +:+ String c s) (String c "") = p :: Split s (String c "").
Proof.
  intros Hp. unfold Split. rewrite decide_False; [|done].
  rewrite split_go_single_app; [|done].
  by destruct (split_go (String c "") 0 s).
Qed.

(** Splitting a joined list gives the list back, when no piece contains
    the separator. *)
Lemma Split_Join (c : ascii) (p : string) (ps : list string) :
  Forall (fun q => has_byte c q = false) (p :: ps) ->
  Split (Join (p :: ps) (String c "")) (String c "") = p :: ps.
Proof.
  revert p. induction ps as [|q ps IH]; intros p Hall.
  - cbn [Join]. apply Split_single_free. by inversion Hall.
  - inversion Hall as [|? ? Hp Hrest]; subst.
    change (Join (p :: q :: ps) (String c ""))
      with (p +:+ String c (Join (q :: ps) (String c ""))).
    rewrite Split_single_cons; [|done]. by rewrite IH.
Qed.

End SplitFacts.

(** ** [strings.TrimSpace] keeps every byte that is not white space *)

Section TrimFacts.

Import GoStrings.

Variable c : ascii.
Hypothesis Hc : plain_byte c = true.

Lemma plain_byte_below : byte_val c < 128.
Proof.
  unfold plain_byte, byte_in in Hc.
  apply andb_prop in Hc as [[_ H]%andb_prop _]. apply Nat.leb_le in H. lia.
Qed.

Lemma plain_byte_space : ascii_space c = false.
Proof. unfold plain_byte in Hc. apply andb_prop in Hc as [_ H]. by apply negb_true_iff. Qed.

(** A byte of a white-space rune is not [c]. *)
Lemma has_byte_skip (x : ascii) (s : string) :
  ascii_space x = true \/ 128 <= byte_val x ->
  has_byte c (String x s) = true -> has_byte c s = true.
Proof.
  intros Hx. cbn [has_byte]. rewrite bool_decide_eq_false_2; [done|].
  intros ->. destruct Hx as [Hx|Hx].
  - by rewrite plain_byte_space in Hx.
  - pose proof plain_byte_below. lia.
Qed.

Ltac byte_bounds E :=
  repeat (apply orb_prop in E as [E|E]);
  repeat match goal with
         | H : _ && _ = true |- _ => apply andb_prop in H as [? ?]
         | H : _ || _ = true |- _ => apply orb_prop in H as [?|?]
         | H : byte_is _ _ = true |- _ => apply Nat.eqb_eq in H
         | H : byte_in _ _ _ = true |- _ =>
           apply andb_prop in H as [?%Nat.leb_le ?%Nat.leb_le]
         end; lia.

Lemma trim_left_keeps (n : nat) :
  forall s, String.length s <= n ->
    has_byte c s = true -> has_byte c (trim_left s) = true.
Proof.
  induction n as [|n IH]; intros s Hlen Hs.
  { destruct s; [done | cbn in Hlen; lia]. }
  destruct s as [|c0 s1]; [done|]. cbn [trim_left].
  cbn [String.length] in Hlen.
  destruct (ascii_space c0) eqn:E0.
  { apply IH; [lia|]. eapply has_byte_skip; [by left|done]. }
  destruct s1 as [|c1 s2]; [done|]. cbn [String.length] in Hlen.
  match goal with |- context [if ?b then _ else _] => destruct b eqn:E1 end.
  { apply IH; [lia|].
    apply (has_byte_skip c1); [right; byte_bounds E1|].
    apply (has_byte_skip c0); [right; byte_bounds E1|done]. }
  destruct s2 as [|c2 s3]; [done|]. cbn [String.length] in Hlen.
  match goal with |- context [if ?b then _ else _] => destruct b eqn:E2 end; [|done].
  apply IH; [lia|].
  apply (has_byte_skip c2); [right; byte_bounds E2|].
  apply (has_byte_skip c1); [right; byte_bounds E2|].
  apply (has_byte_skip c0); [right; byte_bounds E2|done].
Qed.

Lemma trim_left_rev_keeps (n : nat) :
  forall s, String.length s <= n ->
    has_byte c s = true -> has_byte c (trim_left_rev s) = true.
Proof.
  induction n as [|n IH]; intros s Hlen Hs.
  { destruct s; [done | cbn in Hlen; lia]. }
  destruct s as [|c0 s1]; [done|]. cbn [trim_left_rev].
  cbn [String.length] in Hlen.
  destruct (ascii_space c0) eqn:E0.
  { apply IH; [lia|]. eapply has_byte_skip; [by left|done]. }
  destruct s1 as [|c1 s2]; [done|]. cbn [String.length] in Hlen.
  match goal with |- context [if ?b then _ else _] => destruct b eqn:E1 end.
  { apply IH; [lia|].
    apply (has_byte_skip c1); [right; byte_bounds E1|].
    apply (has_byte_skip c0); [right; byte_bounds E1|done]. }
  destruct s2 as [|c2 s3]; [done|]. cbn [String.length] in Hlen.
  match goal with |- context [if ?b then _ else _] => destruct b eqn:E2 end; [|done].
  apply IH; [lia|].
  apply (has_byte_skip c2); [right; byte_bounds E2|].
  apply (has_byte_skip c1); [right; byte_bounds E2|].
  apply (has_byte_skip c0); [right; byte_bounds E2|done].
Qed.

Lemma has_byte_rev_app (s1 s2 : string) :
  has_byte c (String.rev_app s1 s2) = has_byte c s1 || has_byte c s2.
Proof.
  revert s2. induction s1 as [|x s1 IH]; intros s2; [done|].
  cbn [String.rev_app has_byte]. rewrite IH. cbn [has_byte].
  destruct (bool_decide (x = c)), (has_byte c s1); done.
Qed.

Lemma has_byte_rev (s : string) : has_byte c (String.rev s) = has_byte c s.
Proof. unfold String.rev. rewrite has_byte_rev_app. cbn. by rewrite orb_false_r. Qed.

(** A string in which [c] occurs is not blank. *)
Lemma has_byte_nonblank (s : string) : has_byte c s = true -> nonblank s = true.
Proof.
  intros Hs. unfold nonblank, TrimSpace.
  assert (H : has_byte c (String.rev (trim_left_rev (String.rev (trim_left s)))) = true).
  { rewrite has_byte_rev. eapply trim_left_rev_keeps; [done|].
    rewrite has_byte_rev. by eapply trim_left_keeps. }
  by destruct (String.rev _).
Qed.

End TrimFacts.

Lemma append_assoc (a b c : string) : (a +:+ b) +:+ c = a +:+ (b +:+ c).
Proof.
  induction a as [|x a IH]; [done|].
  change (String x (a +:+ b) +:+ c = String x (a +:+ (b +:+ c))). by rewrite <- IH.
Qed.

Lemma has_byte_app (c : ascii) (a b : string) :
  has_byte c (a +:+ b) = has_byte c a || has_byte c b.
Proof.
  induction a as [|x a IH]; [done|].
  change (String x a +:+ b) with (String x (a +:+ b)).
  cbn [has_byte]. rewrite IH. by rewrite orb_assoc.
Qed.

(** ** The worklist of [readStructMetadata] ends *)

Lemma type_size_pos (t : rtype) : 1 <= type_size t.
Proof. destruct t; cbn [type_size]; lia. Qed.

Lemma iface_size_pos (v : iface) : 1 <= iface_size v.
Proof. destruct v; cbn [iface_size]; auto using type_size_pos. Qed.

Lemma worklist_size_app (xs ys : list cfgNode) :
  worklist_size (xs ++ ys) = worklist_size xs + worklist_size ys.
Proof. unfold worklist_size. by rewrite map_app, list_sum_app. Qed.

(** The nested records of a record weigh no more than its fields. *)
Lemma readFields_size (sLoc : path) (addressable : bool) (sPrefix : string)
      (fields : list (StructField rtype)) :
  forall idx nodes metas,
    readFields sLoc addressable sPrefix idx fields = Ok (nodes, metas) ->
    worklist_size nodes <= list_sum (map (fun f => type_size (fType f)) fields).
Proof.
  induction fields as [|f fields IH]; intros idx nodes metas; cbn [readFields].
  - intros [= <- _]. cbn. lia.
  - destruct (readField sLoc addressable sPrefix idx f) as [v| |] eqn:Ef; [|done..].
    destruct (readFields sLoc addressable sPrefix (S idx) fields) as [[ns ms]| |] eqn:Er;
      [|done..].
    specialize (IH _ _ _ Er). unfold worklist_size, list_sum in *.
    cbn [map fold_right].
    destruct v as [n|m|]; intros [= <- _]; [|lia..].
    cbn [map fold_right].
    assert (iface_size (Val n) = type_size (fType f)); [|lia].
    unfold readField in Ef.
    repeat match type of Ef with
           | (if ?b then _ else _) = _ => destruct b
           end; try done.
    by injection Ef as <-.
Qed.

Lemma readNode_size (node : cfgNode) (nodes : list cfgNode) (metas : list structMeta) :
  readNode node = Ok (nodes, metas) ->
  S (worklist_size nodes) <= iface_size (Val node).
Proof.
  unfold readNode. destruct (Val node) as [|t [l|]|t]; try done;
    destruct t as [| | | | |u fields]; try done;
    intros H%readFields_size; cbn [iface_size type_size]; unfold list_sum in *; lia.
Qed.

Lemma worklist_enough (fuel : nat) :
  forall cfgStack metas,
    worklist_size cfgStack <= fuel -> is_Some (worklist fuel cfgStack metas).
Proof.
  induction fuel as [|fuel IH]; intros [|node rest] metas Hsize; cbn [worklist]; try done.
  - unfold worklist_size, list_sum in Hsize. cbn [map fold_right] in Hsize.
    pose proof (iface_size_pos (Val node)). lia.
  - destruct (readNode node) as [[nodes ms]| |] eqn:E; [|done..].
    apply IH. apply readNode_size in E.
    rewrite worklist_size_app. unfold worklist_size, list_sum in *.
    cbn [map fold_right] in Hsize. lia.
Qed.

(** [readStructMetadata] returns: the loop over the worklist comes to
    its end within the size of the type. *)
Lemma readStructMetadata_returns (cfgRoot : iface) :
  worklist (iface_size cfgRoot) [{| Val := cfgRoot; Prefix := "" |}] []
  = Some (readStructMetadata cfgRoot).
Proof.
  unfold readStructMetadata.
  destruct (worklist_enough (iface_size cfgRoot) [{| Val := cfgRoot; Prefix := "" |}] [])
    as [r ->]; [|done].
  unfold worklist_size. cbn. lia.
Qed.

(** ** Coercion of lists *)

Section CoercionFacts.

Variable lib : GoLib.

(** [parseValue] at a slice type without [Setter]: the slice case of the switch. *)
Lemma parseValue_slice (u : uncommon) (e : rtype) (field : Value)
      (value sep : string) (layout : option string) :
  AsSetter u field = None ->
  parseValue lib (TSlice u e) field value sep layout
  = match parseSlice lib (TSlice u e) value sep layout with
    | Err err => (None, Err err)
    | Panic p => (None, Panic p)
    | Ok sliceValue =>
      if slice_assignable (TSlice u e) then (Some sliceValue, Nil)
      else (None, Panic SetNotAssignable)
    end.
Proof. intros Hset. cbn [parseValue uncommon_of Kind_of parseSlice]. by rewrite Hset. Qed.

(** [parseValue] at a map type without [Setter]: the map case of the switch. *)
Lemma parseValue_map (u : uncommon) (k e : rtype) (field : Value)
      (value sep : string) (layout : option string) :
  AsSetter u field = None ->
  parseValue lib (TMap u k e) field value sep layout
  = match parseMap lib (TMap u k e) value sep layout with
    | Err err => (None, Err err)
    | Panic p => (None, Panic p)
    | Ok mapValue => (Some mapValue, Nil)
    end.
Proof. intros Hset. cbn [parseValue uncommon_of Kind_of parseMap]. by rewrite Hset. Qed.

Lemma parseElems_app (f : string -> effect) (z : Value) (xs ys : list string) :
  parseElems f z (xs ++ ys)
  = match parseElems f z xs with
    | Ok a =>
      match parseElems f z ys with
      | Ok b => Ok (a ++ b)
      | other => other
      end
    | other => other
    end.
Proof.
  induction xs as [|x xs IH]; cbn [app parseElems].
  - by destruct (parseElems f z ys).
  - destruct (f x) as [w [[]|e|p]]; [|done..].
    rewrite IH. destruct (parseElems f z xs); [|done..].
    by destruct (parseElems f z ys).
Qed.

Lemma parseElems_length (f : string -> effect) (z : Value) (xs : list string) (vs : list Value) :
  parseElems f z xs = Ok vs -> length vs = length xs.
Proof.
  revert vs. induction xs as [|x xs IH]; intros vs; cbn [parseElems].
  - by intros [= <-].
  - destruct (f x) as [w [[]|e|p]]; [|done..].
    destruct (parseElems f z xs) as [vs'| |]; [|done..].
    intros [= <-]. cbn. by rewrite (IH vs').
Qed.

(** A failing element makes the loop fail. *)
Lemma parseElems_fails (f : string -> effect) (z : Value) (xs : list string) (x : string) :
  x ∈ xs -> (f x).2 <> Nil -> forall vs, parseElems f z xs <> Ok vs.
Proof.
  induction xs as [|y xs IH]; [by intros ?%elem_of_nil|].
  intros [Heq|Hin]%elem_of_cons Hx vs; [subst y|]; cbn [parseElems].
  - destruct (f x) as [w [[]|e|p]]; [by cbn in Hx|done..].
  - destruct (f y) as [w [[]|e|p]]; [|done..].
    destruct (parseElems f z xs) as [vs'| |] eqn:E; [|done..].
    by destruct (IH Hin Hx vs').
Qed.

(** [parseSlice] on a list that is not a byte slice: the pieces of the
    split, coerced in order. *)
Lemma parseSlice_split (u : uncommon) (e : rtype) (value sep : string) (layout : option string) :
  Kind_of e <> Uint8 ->
  nonblank value = true ->
  parseSlice lib (TSlice u e) value sep layout
  = match parseElems (fun val => parseValue lib e (Zero e) val sep layout) (Zero e)
                     (GoStrings.Split value sep) with
    | Ok vs => Ok (VSlice vs)
    | Err err => Err err
    | Panic p => Panic p
    end.
Proof.
  intros Hk Hnb. unfold parseSlice, parseSlice_with.
  rewrite decide_False; [|done]. fold (nonblank value). by rewrite Hnb.
Qed.

Lemma parseSlice_blank (u : uncommon) (e : rtype) (value sep : string) (layout : option string) :
  Kind_of e <> Uint8 ->
  nonblank value = false ->
  parseSlice lib (TSlice u e) value sep layout = Ok (VSlice []).
Proof.
  intros Hk Hnb. unfold parseSlice, parseSlice_with.
  rewrite decide_False; [|done]. fold (nonblank value). by rewrite Hnb.
Qed.

End CoercionFacts.

Lemma comma_plain : plain_byte ","%char = true.
Proof. reflexivity. Qed.

(** C7.  For a list type whose elements are not bytes: the empty string
    gives the empty list; a string [a,b,c] of three comma-free, non-blank
    pieces gives the three elements that coercing [a], [b] and [c] alone
    give, one after the other, or the first of their failures; and a piece
    whose coercion fails makes the coercion of the whole list fail. *)
Theorem parseSlice_list (lib : GoLib) (u : uncommon) (e : rtype) (layout : option string) :
  Kind_of e <> Uint8 ->
  (forall sep, parseSlice lib (TSlice u e) "" sep layout = Ok (VSlice []))
  /\ (forall a b c : string,
        has_byte "," a = false -> has_byte "," b = false -> has_byte "," c = false ->
        nonblank a = true -> nonblank b = true -> nonblank c = true ->
        parseSlice lib (TSlice u e) (a +:+ "," +:+ b +:+ "," +:+ c) "," layout
        = then_slice (parseSlice lib (TSlice u e) a "," layout)
            (then_slice (parseSlice lib (TSlice u e) b "," layout)
                        (parseSlice lib (TSlice u e) c "," layout))
        /\ forall v, parseSlice lib (TSlice u e) (a +:+ "," +:+ b +:+ "," +:+ c) "," layout = Ok v ->
             exists x y z, v = VSlice [x; y; z])
  /\ (forall value sep piece,
        nonblank value = true ->
        piece ∈ GoStrings.Split value sep ->
        (parseValue lib e (Zero e) piece sep layout).2 <> Nil ->
        forall v, parseSlice lib (TSlice u e) value sep layout <> Ok v).
Proof.
  intros Hk. split; [|split].
  - intros sep. by apply parseSlice_blank.
  - intros a b c Ha Hb Hc Hna Hnb Hnc.
    assert (Hsplit : GoStrings.Split (a +:+ "," +:+ b +:+ "," +:+ c) "," = [a; b; c]).
    { apply (Split_Join ","%char a [b; c]). by repeat constructor. }
    assert (Hwhole : nonblank (a +:+ "," +:+ b +:+ "," +:+ c) = true).
    { apply (has_byte_nonblank _ comma_plain).
      rewrite has_byte_app. cbn. by rewrite orb_true_r. }
    rewrite !parseSlice_split by done.
    rewrite Hsplit, !Split_single_free by done.
    cbn [parseElems].
    split.
    + destruct (parseValue lib e (Zero e) a "," layout) as [wa [[]|ea|pa]]; [|done..].
      destruct (parseValue lib e (Zero e) b "," layout) as [wb [[]|eb|pb]]; [|done..].
      by destruct (parseValue lib e (Zero e) c "," layout) as [wc [[]|ec|pc]].
    + intros v.
      destruct (parseValue lib e (Zero e) a "," layout) as [wa [[]|ea|pa]]; [|done..].
      destruct (parseValue lib e (Zero e) b "," layout) as [wb [[]|eb|pb]]; [|done..].
      destruct (parseValue lib e (Zero e) c "," layout) as [wc [[]|ec|pc]]; [|done..].
      intros [= <-]. eauto.
  - intros value sep piece Hnb Hin Hfail v.
    rewrite parseSlice_split by done.
    destruct (parseElems _ _ _) as [vs| |] eqn:E; [|done..].
    by destruct (parseElems_fails (fun val => parseValue lib e (Zero e) val sep layout)
                                  (Zero e) _ piece Hin Hfail vs).
Qed.

(** The list ["a,b,c"] of strings. *)
Lemma parseSlice_list_witness :
  Kind_of string_t <> Uint8
  /\ parseSlice no_parsers strings_t "a,b,c" "," None
     = Ok (VSlice [VString "a"; VString "b"; VString "c"]).
Proof.
  split; [done|].
  destruct (parseSlice_list no_parsers (plain "" "") string_t None) as (_ & H & _); [done|].
  destruct (H "a" "b" "c") as [-> _]; done.
Defined.

(** C8, as the code has it.  For a slice whose elements are of kind
    [uint8] the raw string is taken byte for byte, whatever the separator,
    and ["hello"] gives 104, 101, 108, 108, 111.  What [parseSlice] makes
    is a [[]byte]: [parseValue] sets the field to it where the element
    type is [uint8] itself; for any other element type of that kind
    [field.Set] panics and the field is not written. *)
Theorem parseSlice_bytes (lib : GoLib) (u : uncommon) (e : rtype)
        (value sep : string) (layout : option string) :
  Kind_of e = Uint8 ->
  parseSlice lib (TSlice u e) value sep layout = Ok (VSlice (bytes_of value))
  /\ (forall field, AsSetter u field = None ->
        parseValue lib (TSlice u e) field value sep layout
        = if bool_decide (PkgPath (uncommon_of e) = "")
          then (Some (VSlice (bytes_of value)), Nil)
          else (None, Panic SetNotAssignable))
  /\ bytes_of "hello" = [VUint 104; VUint 101; VUint 108; VUint 108; VUint 111].
Proof.
  intros Hk.
  assert (Hs : parseSlice lib (TSlice u e) value sep layout = Ok (VSlice (bytes_of value))).
  { unfold parseSlice, parseSlice_with. by rewrite decide_True. }
  split; [done|]. split; [|done].
  intros field Hset. rewrite parseValue_slice, Hs by done.
  unfold slice_assignable. by rewrite decide_True.
Qed.

(** The raw string ["hello"] for a field of type [[]byte], and for a
    field of type [[]MyByte]. *)
Lemma parseSlice_bytes_witness :
  parseValue no_parsers bytes_t VNilRef "hello" "," None
  = (Some (VSlice [VUint 104; VUint 101; VUint 108; VUint 108; VUint 111]), Nil)
  /\ parseSlice no_parsers MyBytes "hello" "," None
     = Ok (VSlice [VUint 104; VUint 101; VUint 108; VUint 108; VUint 111])
  /\ parseValue no_parsers MyBytes VNilRef "hello" "," None = (None, Panic SetNotAssignable).
Proof.
  split; [|split].
  - apply (parseSlice_bytes no_parsers (plain "" "") uint8_t "hello" "," None); reflexivity.
  - apply (parseSlice_bytes no_parsers (plain "" "") MyByte "hello" "," None). reflexivity.
  - apply (parseSlice_bytes no_parsers (plain "" "") MyByte "hello" "," None); reflexivity.
Defined.

(** ** Equality of map keys *)

Lemma float_eqb_sym (a b : Z) : float_eqb a b = float_eqb b a.
Proof.
  unfold float_eqb. rewrite (Z.eqb_sym a b).
  destruct (negb _), (negb _), (b =? a)%Z, (a mod 2 ^ 63 =? 0)%Z, (b mod 2 ^ 63 =? 0)%Z; done.
Qed.

Lemma float_eqb_trans (a b c : Z) :
  float_eqb a b = true -> float_eqb b c = true -> float_eqb a c = true.
Proof.
  unfold float_eqb.
  intros [[Ha Hb]%andb_prop Hab]%andb_prop [[_ Hc]%andb_prop Hbc]%andb_prop.
  rewrite Ha, Hc. cbn [andb].
  apply orb_prop in Hab as [Hab|[Ha0 Hb0]%andb_prop];
    apply orb_prop in Hbc as [Hbc|[Hb0' Hc0]%andb_prop]; apply orb_true_iff.
  - left. apply Z.eqb_eq in Hab, Hbc. apply Z.eqb_eq. congruence.
  - right. apply Z.eqb_eq in Hab. subst b. by rewrite Hb0', Hc0.
  - right. apply Z.eqb_eq in Hbc. subst c. by rewrite Ha0, Hb0.
  - right. by rewrite Ha0, Hc0.
Qed.

(** Induction on values, through the lists they contain. *)
Lemma Value_nested_ind (P : Value -> Prop) :
  (forall b, P (VBool b)) ->
  (forall i, P (VInt i)) ->
  (forall u, P (VUint u)) ->
  (forall bits, P (VFloat bits)) ->
  (forall re im, P (VComplex re im)) ->
  (forall s, P (VString s)) ->
  P VNilRef ->
  (forall addr, P (VRef addr)) ->
  (forall elems, Forall P elems -> P (VSlice elems)) ->
  (forall entries, Forall (fun kv => P kv.1 /\ P kv.2) entries -> P (VMap entries)) ->
  (forall elems, Forall P elems -> P (VArray elems)) ->
  (forall fields, Forall P fields -> P (VStruct fields)) ->
  forall v, P v.
Proof.
  intros Hbool Hint Huint Hfloat Hcomplex Hstring Hnil Href Hslice Hmap Harray Hstruct.
  fix IH 1. intros [b|i|u|bits|re im|s| |addr|elems|entries|elems|fields].
  - apply Hbool.
  - apply Hint.
  - apply Huint.
  - apply Hfloat.
  - apply Hcomplex.
  - apply Hstring.
  - apply Hnil.
  - apply Href.
  - apply Hslice. induction elems as [|x xs IHxs]; constructor; [apply IH|apply IHxs].
  - apply Hmap. induction entries as [|[k v] xs IHxs]; constructor; [|apply IHxs].
    split; apply IH.
  - apply Harray. induction elems as [|x xs IHxs]; constructor; [apply IH|apply IHxs].
  - apply Hstruct. induction fields as [|x xs IHxs]; constructor; [apply IH|apply IHxs].
Qed.

Lemma all_eqb_sym (xs : list Value) :
  Forall (fun x => forall y, Value_eqb x y = Value_eqb y x) xs ->
  forall ys, all_eqb xs ys = all_eqb ys xs.
Proof.
  induction 1 as [|x xs Hx _ IH]; intros [|y ys]; cbn [all_eqb]; try done.
  by rewrite Hx, IH.
Qed.

Lemma all_eqb_trans (xs : list Value) :
  Forall (fun x => forall y z, Value_eqb x y = true -> Value_eqb y z = true ->
                               Value_eqb x z = true) xs ->
  forall ys zs, all_eqb xs ys = true -> all_eqb ys zs = true -> all_eqb xs zs = true.
Proof.
  induction 1 as [|x xs Hx _ IH]; intros [|y ys] [|z zs]; cbn [all_eqb]; try done.
  intros [Hxy Hxs]%andb_prop [Hyz Hys]%andb_prop.
  by rewrite (Hx y z), (IH ys zs).
Qed.

Lemma Value_eqb_sym (a b : Value) : Value_eqb a b = Value_eqb b a.
Proof.
  revert b. induction a using Value_nested_ind; intros [];
    cbn [Value_eqb]; try done.
  - by destruct b, b0.
  - apply Z.eqb_sym.
  - apply Z.eqb_sym.
  - apply float_eqb_sym.
  - by rewrite (float_eqb_sym re), (float_eqb_sym im).
  - apply bool_decide_ext. split; congruence.
  - apply Nat.eqb_sym.
  - by apply all_eqb_sym.
  - by apply all_eqb_sym.
Qed.

Lemma Value_eqb_trans (a b c : Value) :
  Value_eqb a b = true -> Value_eqb b c = true -> Value_eqb a c = true.
Proof.
  revert b c. induction a using Value_nested_ind; intros [] []; cbn [Value_eqb]; try done.
  - intros ->%bool_decide_eq_true ->%bool_decide_eq_true. by apply bool_decide_eq_true.
  - intros ->%Z.eqb_eq ->%Z.eqb_eq. apply Z.eqb_refl.
  - intros ->%Z.eqb_eq ->%Z.eqb_eq. apply Z.eqb_refl.
  - apply float_eqb_trans.
  - intros [H1 H2]%andb_prop [H3 H4]%andb_prop.
    by rewrite (float_eqb_trans _ _ _ H1 H3), (float_eqb_trans _ _ _ H2 H4).
  - intros ->%bool_decide_eq_true ->%bool_decide_eq_true. by apply bool_decide_eq_true.
  - intros ->%Nat.eqb_eq ->%Nat.eqb_eq. apply Nat.eqb_refl.
  - by apply all_eqb_trans.
  - by apply all_eqb_trans.
Qed.

(** Reading a map after a write: the written element under an equal key,
    what was there before under any other. *)
Lemma MapIndex_SetMapIndex (m : list (Value * Value)) (a b q : Value) :
  MapIndex (SetMapIndex m a b) q = if Value_eqb a q then Some b else MapIndex m q.
Proof.
  induction m as [|[k' v'] m IH]; cbn [SetMapIndex MapIndex]; [done|].
  destruct (Value_eqb k' a) eqn:Eka; cbn [MapIndex].
  - destruct (Value_eqb a q) eqn:Eaq; [done|].
    destruct (Value_eqb k' q) eqn:Ekq; [|done].
    { rewrite Value_eqb_sym in Eka.
      by rewrite (Value_eqb_trans _ _ _ Eka Ekq) in Eaq. }
  - rewrite IH. destruct (Value_eqb k' q) eqn:Ekq; [|done].
    destruct (Value_eqb a q) eqn:Eaq; [|done].
    rewrite Value_eqb_sym in Eaq.
    by rewrite (Value_eqb_trans _ _ _ Ekq Eaq) in Eka.
Qed.

Lemma last_write_cons (ab : Value * Value) (kvs : list (Value * Value)) (q : Value) :
  last_write (ab :: kvs) q
  = match last_write kvs q with
    | Some b => Some b
    | None => if Value_eqb ab.1 q then Some ab.2 else None
    end.
Proof.
  unfold last_write. cbn [rev].
  induction (rev kvs) as [|x xs IH]; cbn [app find].
  - by destruct (Value_eqb ab.1 q).
  - by destruct (Value_eqb x.1 q).
Qed.

(** The last write wins. *)
Lemma MapIndex_write_all (kvs m : list (Value * Value)) (q : Value) :
  MapIndex (write_all kvs m) q
  = match last_write kvs q with
    | Some b => Some b
    | None => MapIndex m q
    end.
Proof.
  revert m. induction kvs as [|[a b] kvs IH]; intros m; [done|].
  cbn [write_all fold_left]. fold (write_all kvs (SetMapIndex m a b)).
  rewrite IH, last_write_cons, MapIndex_SetMapIndex. cbn [fst snd].
  by destruct (last_write kvs q), (Value_eqb a q).
Qed.

(** ** Coercion of maps *)

Section MapFacts.

Variable lib : GoLib.

Lemma cut_first_none (kv : string) :
  has_byte ":" kv = false -> GoStrings.cut_first ":" kv = None.
Proof.
  induction kv as [|x kv IH]; [done|].
  cbn [has_byte]. intros [Hx Hkv]%orb_false_elim.
  cbn [GoStrings.cut_first]. rewrite HasPrefix_single, Hx, (IH Hkv). done.
Qed.

Lemma cut_first_colon (ks vs : string) :
  has_byte ":" ks = false ->
  GoStrings.cut_first ":" (ks +:+ ":" +:+ vs) = Some (ks, vs).
Proof.
  induction ks as [|x ks IH].
  - intros _. change ("" +:+ ":" +:+ vs) with (String ":" vs).
    cbn [GoStrings.cut_first]. rewrite HasPrefix_single.
    by rewrite bool_decide_eq_true_2.
  - cbn [has_byte]. intros [Hx Hks]%orb_false_elim.
    change (String x ks +:+ ":" +:+ vs) with (String x (ks +:+ ":" +:+ vs)).
    cbn [GoStrings.cut_first]. rewrite HasPrefix_single, Hx, (IH Hks). done.
Qed.

(** An entry without [":"] is refused. *)
Lemma parseEntry_no_colon (f g : string -> effect) (zk ze : Value) (kv : string) :
  has_byte ":" kv = false -> parseEntry f g zk ze kv = Err (InvalidMapItem kv).
Proof.
  intros Hkv. unfold parseEntry. cbn [GoStrings.SplitN].
  by rewrite cut_first_none.
Qed.

(** An entry is cut at its first [":"]. *)
Lemma parseEntry_colon (f g : string -> effect) (zk ze : Value) (ks vs : string)
      (wk wv : option Value) :
  has_byte ":" ks = false ->
  f ks = (wk, Nil) -> g vs = (wv, Nil) ->
  parseEntry f g zk ze (ks +:+ ":" +:+ vs) = Ok (default zk wk, default ze wv).
Proof.
  intros Hks Hf Hg. unfold parseEntry. cbn [GoStrings.SplitN].
  by rewrite cut_first_colon, Hf, Hg.
Qed.

Lemma parsePairs_all (f g : string -> effect) (zk ze : Value)
      (pairs : list string) (kvs m : list (Value * Value)) :
  Forall2 (fun kv ab => parseEntry f g zk ze kv = Ok ab) pairs kvs ->
  parsePairs f g zk ze pairs m = Ok (write_all kvs m).
Proof.
  intros H. revert m. induction H as [|kv [a b] pairs kvs Hkv _ IH]; intros m; [done|].
  cbn [parsePairs]. rewrite Hkv. by rewrite IH.
Qed.

Lemma parsePairs_first_failure (f g : string -> effect) (zk ze : Value)
      (pre post : list string) (kv : string) (kvs m : list (Value * Value)) (err : error) :
  Forall2 (fun kv ab => parseEntry f g zk ze kv = Ok ab) pre kvs ->
  parseEntry f g zk ze kv = Err err ->
  parsePairs f g zk ze (pre ++ kv :: post) m = Err err.
Proof.
  intros H Hkv. revert m.
  induction H as [|kv' [a b] pre kvs Hkv' _ IH]; intros m; cbn [app parsePairs].
  - by rewrite Hkv.
  - rewrite Hkv'. by rewrite IH.
Qed.

Lemma parsePairs_fails (f g : string -> effect) (zk ze : Value)
      (pairs : list string) (kv : string) (err : error) :
  kv ∈ pairs -> parseEntry f g zk ze kv = Err err ->
  forall m m', parsePairs f g zk ze pairs m <> Ok m'.
Proof.
  induction pairs as [|kv' pairs IH]; [by intros ?%elem_of_nil|].
  intros [Heq|Hin]%elem_of_cons Hkv m m'; [subst kv'|]; cbn [parsePairs].
  - by rewrite Hkv.
  - destruct (parseEntry f g zk ze kv') as [[a b]| |]; [|done..].
    by apply IH.
Qed.

(** [parseMap] on a string that is not blank: the entries of the split,
    coerced and written in order. *)
Lemma parseMap_split (u : uncommon) (k e : rtype) (value sep : string) (layout : option string) :
  nonblank value = true ->
  parseMap lib (TMap u k e) value sep layout
  = match parsePairs (fun val => parseValue lib k (Zero k) val sep layout)
                     (fun val => parseValue lib e (Zero e) val sep layout)
                     (Zero k) (Zero e) (GoStrings.Split value sep) [] with
    | Ok m => Ok (VMap m)
    | Err err => Err err
    | Panic p => Panic p
    end.
Proof.
  intros Hnb. unfold parseMap, parseMap_with.
  fold (nonblank value). by rewrite Hnb.
Qed.

End MapFacts.

Lemma colon_plain : plain_byte ":"%char = true.
Proof. reflexivity. Qed.

(** C6.  For a map type: the empty string gives the empty map; two
    entries [k1:v1,k2:v2] give the two pairs of the coerced keys and
    elements (one pair, with the second element, when the keys are equal);
    an entry without [":"] makes the coercion fail with the error
    "invalid map item"; every entry is cut at its first [":"], its two
    parts coerced separately, and of the elements written under equal keys
    the last one stays. *)
Theorem parseMap_entries (lib : GoLib) (u : uncommon) (k e : rtype) (layout : option string) :
  let parseKey sep := fun val => parseValue lib k (Zero k) val sep layout in
  let parseElem sep := fun val => parseValue lib e (Zero e) val sep layout in
  (forall sep, parseMap lib (TMap u k e) "" sep layout = Ok (VMap []))
  /\ (forall (k1 v1 k2 v2 : string) (wk1 wv1 wk2 wv2 : option Value),
        has_byte "," k1 = false -> has_byte "," v1 = false ->
        has_byte "," k2 = false -> has_byte "," v2 = false ->
        has_byte ":" k1 = false -> has_byte ":" k2 = false ->
        parseKey "," k1 = (wk1, Nil) -> parseElem "," v1 = (wv1, Nil) ->
        parseKey "," k2 = (wk2, Nil) -> parseElem "," v2 = (wv2, Nil) ->
        let a1 := default (Zero k) wk1 in
        let b1 := default (Zero e) wv1 in
        let a2 := default (Zero k) wk2 in
        let b2 := default (Zero e) wv2 in
        parseMap lib (TMap u k e) (k1 +:+ ":" +:+ v1 +:+ "," +:+ k2 +:+ ":" +:+ v2) "," layout
        = Ok (VMap (if Value_eqb a1 a2 then [(a2, b2)] else [(a1, b1); (a2, b2)])))
  /\ (forall (value sep kv : string),
        nonblank value = true ->
        kv ∈ GoStrings.Split value sep ->
        has_byte ":" kv = false ->
        (forall v, parseMap lib (TMap u k e) value sep layout <> Ok v)
        /\ forall pre post kvs,
             GoStrings.Split value sep = pre ++ kv :: post ->
             Forall2 (fun kv ab =>
                        parseEntry (parseKey sep) (parseElem sep) (Zero k) (Zero e) kv = Ok ab)
                     pre kvs ->
             parseMap lib (TMap u k e) value sep layout = Err (InvalidMapItem kv))
  /\ (forall (ks vs sep : string) (wk wv : option Value),
        has_byte ":" ks = false ->
        parseKey sep ks = (wk, Nil) -> parseElem sep vs = (wv, Nil) ->
        parseEntry (parseKey sep) (parseElem sep) (Zero k) (Zero e) (ks +:+ ":" +:+ vs)
        = Ok (default (Zero k) wk, default (Zero e) wv))
  /\ (forall (value sep : string) (kvs : list (Value * Value)),
        nonblank value = true ->
        Forall2 (fun kv ab =>
                   parseEntry (parseKey sep) (parseElem sep) (Zero k) (Zero e) kv = Ok ab)
                (GoStrings.Split value sep) kvs ->
        exists m, parseMap lib (TMap u k e) value sep layout = Ok (VMap m)
                  /\ forall q, MapIndex m q = last_write kvs q).
Proof.
  cbv zeta. split; [|split; [|split; [|split]]].
  - intros sep. reflexivity.
  - intros k1 v1 k2 v2 wk1 wv1 wk2 wv2 Hk1 Hv1 Hk2 Hv2 Hc1 Hc2 Pk1 Pv1 Pk2 Pv2.
    assert (Hsplit : GoStrings.Split (k1 +:+ ":" +:+ v1 +:+ "," +:+ k2 +:+ ":" +:+ v2) ","
                     = [k1 +:+ ":" +:+ v1; k2 +:+ ":" +:+ v2]).
    { replace (k1 +:+ ":" +:+ v1 +:+ "," +:+ k2 +:+ ":" +:+ v2)
        with ((k1 +:+ ":" +:+ v1) +:+ "," +:+ (k2 +:+ ":" +:+ v2))
        by (by rewrite append_assoc).
      apply (Split_Join ","%char (k1 +:+ ":" +:+ v1) [k2 +:+ ":" +:+ v2]).
      repeat constructor; rewrite !has_byte_app; cbn; by rewrite ?Hk1, ?Hv1, ?Hk2, ?Hv2. }
    rewrite parseMap_split.
    2:{ apply (has_byte_nonblank _ colon_plain). rewrite has_byte_app. cbn.
        by rewrite orb_true_r. }
    rewrite Hsplit. cbn [parsePairs].
    rewrite (parseEntry_colon (fun val => parseValue lib k (Zero k) val "," layout) (fun val => parseValue lib e (Zero e) val "," layout) _ _ k1 v1 wk1 wv1),
            (parseEntry_colon (fun val => parseValue lib k (Zero k) val "," layout) (fun val => parseValue lib e (Zero e) val "," layout) _ _ k2 v2 wk2 wv2) by done.
    cbn [SetMapIndex]. by destruct (Value_eqb _ _).
  - intros value sep kv Hnb Hin Hkv. split.
    + intros v. rewrite parseMap_split by done.
      destruct (parsePairs _ _ _ _ _ _) as [m| |] eqn:E; [|done..].
      by destruct (parsePairs_fails (fun val => parseValue lib k (Zero k) val sep layout) (fun val => parseValue lib e (Zero e) val sep layout) (Zero k) (Zero e)
                     _ kv (InvalidMapItem kv) Hin
                     (parseEntry_no_colon _ _ _ _ _ Hkv) [] m).
    + intros pre post kvs Hsplit Hpre. rewrite parseMap_split, Hsplit by done.
      by rewrite (parsePairs_first_failure (fun val => parseValue lib k (Zero k) val sep layout) (fun val => parseValue lib e (Zero e) val sep layout) (Zero k) (Zero e)
                    pre post kv kvs [] (InvalidMapItem kv) Hpre
                    (parseEntry_no_colon _ _ _ _ _ Hkv)).
  - intros ks vs sep wk wv Hks Hk Hv. by apply parseEntry_colon.
  - intros value sep kvs Hnb Hall. exists (write_all kvs []). split.
    + rewrite parseMap_split by done.
      by rewrite (parsePairs_all (fun val => parseValue lib k (Zero k) val sep layout) (fun val => parseValue lib e (Zero e) val sep layout) (Zero k) (Zero e)
                    _ kvs [] Hall).
    + intros q. rewrite MapIndex_write_all. by destruct (last_write kvs q).
Qed.

(** The field of type [map[string]string] and the raw string
    ["k1:v1,k2:v2"]. *)
Lemma parseMap_entries_witness :
  parseMap no_parsers string_map_t "k1:v1,k2:v2" "," None
  = Ok (VMap [(VString "k1", VString "v1"); (VString "k2", VString "v2")]).
Proof.
  destruct (parseMap_entries no_parsers (plain "" "") string_t string_t None)
    as (_ & H & _).
  exact (H "k1" "v1" "k2" "v2" (Some (VString "k1")) (Some (VString "v1"))
           (Some (VString "k2")) (Some (VString "v2"))
           eq_refl eq_refl eq_refl eq_refl eq_refl eq_refl eq_refl eq_refl eq_refl eq_refl).
Defined.

(** ** Failing coercions *)

(** A built-in coercion that does not return nil has written nothing. *)
Lemma parseValue_failure_writes_nothing (lib : GoLib) (t : rtype) (field : Value)
      (value sep : string) (layout : option string) (w : option Value) (failure : status) :
  AsSetter (uncommon_of t) field = None ->
  parseValue lib t field value sep layout = (w, failure) ->
  failure <> Nil -> w = None.
Proof.
  intros Hset.
  destruct t as [u k|u n e|u e|u k e|u e|u fields];
    cbn [parseValue uncommon_of Kind_of]; cbn [uncommon_of] in Hset; rewrite Hset.
  - destruct k;
      repeat match goal with
             | |- context [match ?x with (_, _) => _ end] => destruct x as [? []]
             | |- context [if ?b then _ else _] => destruct b
             end; by intros [= <- <-].
  - by intros [= <- <-].
  - destruct (parseSlice_with _ _ _ _); [|by intros [= <- <-]..].
    destruct (slice_assignable _); by intros [= <- <-].
  - destruct (parseMap_with _ _ _ _ _ _); by intros [= <- <-].
  - by intros [= <- <-].
  - destruct (is_time _ _); [|by intros [= <- <-]].
    destruct (time_Parse _ _ _) as [? []]; by intros [= <- <-].
Qed.

Section PassFacts.

Variable lib : GoLib.
Variable environ : gmap string string.

(** A coercion into a field leaves the other fields as they are. *)
Lemma parseField_frame (meta : structMeta) (raw : string) (st st' : store)
      (s : status) (l : path) :
  parseField lib meta raw st = (st', s) ->
  l <> loc (fieldValue meta) -> st' !! l = st !! l.
Proof.
  unfold parseField. destruct (parseValue _ _ _ _ _ _) as [[v|] s'].
  - intros [= <- _] Hl. by rewrite lookup_insert_ne.
  - by intros [= <- _].
Qed.

(** A failing built-in coercion leaves the whole record as it is. *)
Lemma parseField_failure (meta : structMeta) (raw : string) (st st' : store) (s : status) :
  AsSetter (uncommon_of (typ (fieldValue meta))) (load st (fieldValue meta)) = None ->
  parseField lib meta raw st = (st', s) -> s <> Nil -> st' = st.
Proof.
  unfold parseField. intros Hset.
  destruct (parseValue _ _ _ _ _ _) as [w s'] eqn:E. intros Hst Hs.
  assert (s' = s) as -> by (by destruct w; injection Hst).
  rewrite (parseValue_failure_writes_nothing _ _ _ _ _ _ _ _ Hset E Hs) in Hst.
  by injection Hst.
Qed.

Lemma readEnvVars_app (pre post : list structMeta) (prefix : string) (st : store) :
  readEnvVars lib environ (pre ++ post) prefix st
  = match readEnvVars lib environ pre prefix st with
    | (st1, Ok _) => readEnvVars lib environ post prefix st1
    | failed => failed
    end.
Proof.
  revert st. induction pre as [|m pre IH]; intros st; cbn [app readEnvVars]; [done|].
  destruct (firstEnv environ prefix (envList m)); [|apply IH].
  destruct (parseField lib m s st) as [st' [[]|e|p]]; [apply IH|done..].
Qed.

End PassFacts.

(** C9.  When the coercion of the value found for a descriptor fails
    during [readEnvVars], the pass ends with that failure whatever
    descriptors follow, and the record is as the descriptors before left
    it: the other fields keep what was written, and a built-in coercion
    leaves the failing field alone too. *)
Theorem readEnvVars_no_rollback (lib : GoLib) (environ : gmap string string)
        (pre post : list structMeta) (meta : structMeta) (prefix raw : string)
        (st st1 st2 : store) (failure : status) :
  readEnvVars lib environ pre prefix st = (st1, Nil) ->
  firstEnv environ prefix (envList meta) = Some raw ->
  parseField lib meta raw st1 = (st2, failure) ->
  failure <> Nil ->
  readEnvVars lib environ (pre ++ meta :: post) prefix st = (st2, failure)
  /\ (forall l, l <> loc (fieldValue meta) -> st2 !! l = st1 !! l)
  /\ (AsSetter (uncommon_of (typ (fieldValue meta))) (load st1 (fieldValue meta)) = None ->
      st2 = st1).
Proof.
  intros Hpre Hraw Hparse Hfail. split; [|split].
  - rewrite readEnvVars_app, Hpre. cbn [readEnvVars]. rewrite Hraw, Hparse.
    by destruct failure as [[]| |].
  - intros l Hl. by eapply parseField_frame.
  - intros Hset. by eapply parseField_failure.
Qed.

(** The name is bound, the port is not a number, a third descriptor follows. *)
Lemma readEnvVars_no_rollback_witness :
  readEnvVars no_parsers {[ "NAME" := "svc"; "PORT" := "x" ]}
              ([Name_meta] ++ Port_at [1] ["PORT"] None false :: [Port_at [2] ["PORT"] None false])
              "" ∅
  = (<[ [0] := VString "svc" ]> ∅, Err (NumError "ParseInt" "x" ErrSyntax)).
Proof.
  refine (proj1 (readEnvVars_no_rollback no_parsers {[ "NAME" := "svc"; "PORT" := "x" ]}
                   [Name_meta] [Port_at [2] ["PORT"] None false]
                   (Port_at [1] ["PORT"] None false) "" "x"
                   ∅ (<[ [0] := VString "svc" ]> ∅) (<[ [0] := VString "svc" ]> ∅)
                   (Err (NumError "ParseInt" "x" ErrSyntax)) _ _ _ _)).
  - reflexivity.
  - reflexivity.
  - reflexivity.
  - discriminate.
Defined.

(** ** End to end: [ReadEnv] *)

Section ReadEnvFacts.

Variable lib : GoLib.
Variable environ : gmap string string.

Lemma toPrefix_empty : toPrefix lib "" = "".
Proof. reflexivity. Qed.

Lemma toPrefix_APP : toPrefix lib "APP" = "APP_".
Proof. reflexivity. Qed.

Lemma readStructMetadata_RequiredPort :
  readStructMetadata (IPointer RequiredPort (Some []))
  = Ok [Port_at [0] ["PORT"] (Some "8080") true].
Proof. reflexivity. Qed.

Lemma readStructMetadata_DefaultPort (def : string) :
  readStructMetadata (IPointer (DefaultPort def) (Some []))
  = Ok [Port_at [0] ["PORT"] (Some def) false].
Proof. reflexivity. Qed.

Lemma readStructMetadata_Service :
  readStructMetadata (IPointer Service (Some []))
  = Ok [Port_at [0; 0] ["DB_PORT"] None false].
Proof. reflexivity. Qed.

(** Coercing a raw string into a field of type [int]. *)
Lemma parseField_int (l : path) (keys : list string) (def : option string) (req : bool)
      (raw : string) (st : store) :
  parseField lib (Port_at l keys def req) raw st
  = match Strconv.ParseInt raw 0 64 with
    | (_, Some err) => (st, Err err)
    | (number, None) => (<[ l := VInt number ]> st, Nil)
    end.
Proof.
  unfold parseField. cbn.
  by destruct (Strconv.ParseInt raw 0 64) as [number [err|]].
Qed.

(** Nothing to finalize for a field that is neither required nor defaulted. *)
Lemma finalize_plain (l : path) (keys : list string) (st : store) :
  finalize lib [Port_at l keys None false] st = (st, Nil).
Proof. cbn [finalize]. by destruct (isFieldValueZero _ _). Qed.

Lemma load_insert (h : handle) (v : Value) (st : store) :
  load (<[ loc h := v ]> st) h = v.
Proof. unfold load. by rewrite lookup_insert_eq. Qed.

(** [ReadEnv] on [RequiredPort] when [PORT] is not set. *)
Lemma ReadEnv_RequiredPort_unset (st : store) :
  environ !! "PORT" = None ->
  load st Port_field = VInt 0 ->
  ReadEnv lib environ (IPointer RequiredPort (Some [])) "" st
  = (st, Err (RequiredMissing "Port")).
Proof.
  intros Henv Hzero. unfold ReadEnv.
  rewrite readStructMetadata_RequiredPort, toPrefix_empty.
  cbn [readEnvVars firstEnv Port_at envList]. unfold LookupEnv.
  change ("" ++ "PORT")%string with "PORT". rewrite Henv.
  cbn [finalize]. unfold isFieldValueZero.
  change (fieldValue (Port_at [0] ["PORT"] (Some "8080") true)) with Port_field.
  by rewrite Hzero.
Qed.

(** [ReadEnv] on [RequiredPort] when [PORT=9090]. *)
Lemma ReadEnv_RequiredPort_set (st : store) :
  environ !! "PORT" = Some "9090" ->
  ReadEnv lib environ (IPointer RequiredPort (Some [])) "" st
  = (<[ [0] := VInt 9090 ]> st, Nil).
Proof.
  intros Henv. unfold ReadEnv.
  rewrite readStructMetadata_RequiredPort, toPrefix_empty.
  cbn [readEnvVars firstEnv Port_at envList]. unfold LookupEnv.
  change ("" ++ "PORT")%string with "PORT". rewrite Henv.
  rewrite parseField_int.
  change (Strconv.ParseInt "9090" 0 64) with (9090%Z, @None error).
  cbn [finalize]. unfold isFieldValueZero.
  change (fieldValue (Port_at [0] ["PORT"] (Some "8080") true)) with Port_field.
  by rewrite (load_insert Port_field).
Qed.

(** [ReadEnv] on [Service] reads the one variable whose name is the
    prefix of the application followed by [DB_PORT]. *)
Lemma ReadEnv_Service (appname key : string) (st : store) :
  (toPrefix lib appname ++ "DB_PORT")%string = key ->
  ReadEnv lib environ (IPointer Service (Some [])) appname st
  = match environ !! key with
    | Some raw => parseField lib (Port_at [0; 0] ["DB_PORT"] None false) raw st
    | None => (st, Nil)
    end.
Proof.
  intros Hkey. unfold ReadEnv. rewrite readStructMetadata_Service.
  cbn [readEnvVars firstEnv Port_at envList]. unfold LookupEnv. rewrite Hkey.
  destruct (environ !! key) as [raw|]; [|apply finalize_plain].
  rewrite parseField_int. destruct (Strconv.ParseInt raw 0 64) as [number [err|]]; [done|].
  apply finalize_plain.
Qed.

End ReadEnvFacts.

(** C1, as the code has it.  For the record with the one field
    [Port int], key [PORT], default ["8080"] and required: when [PORT] is
    not set and the field is zero, [ReadEnv] returns the error "field
    "Port" is required but the value is not provided" and leaves the record
    as it was; when [PORT=9090] is set, the field ends as 9090 and no error
    is returned. *)
Theorem ReadEnv_required_port (lib : GoLib) (environ : gmap string string) (st : store) :
  (environ !! "PORT" = None ->
   load st Port_field = VInt 0 ->
   ReadEnv lib environ (IPointer RequiredPort (Some [])) "" st
   = (st, Err (RequiredMissing "Port")))
  /\ (environ !! "PORT" = Some "9090" ->
      ReadEnv lib environ (IPointer RequiredPort (Some [])) "" st
      = (<[ [0] := VInt 9090 ]> st, Nil)
      /\ load (<[ [0] := VInt 9090 ]> st) Port_field = VInt 9090).
Proof.
  split.
  - apply ReadEnv_RequiredPort_unset.
  - intros Henv. split; [by apply ReadEnv_RequiredPort_set|apply (load_insert Port_field)].
Qed.

(** The zero record, first with no variable set, then with [PORT=9090]. *)
Lemma ReadEnv_required_port_witness :
  ReadEnv no_parsers ∅ (IPointer RequiredPort (Some [])) "" ∅
  = (∅, Err (RequiredMissing "Port"))
  /\ ReadEnv no_parsers {[ "PORT" := "9090" ]} (IPointer RequiredPort (Some [])) "" ∅
     = (<[ [0] := VInt 9090 ]> ∅, Nil).
Proof.
  split.
  - apply (proj1 (ReadEnv_required_port no_parsers ∅ ∅)); reflexivity.
  - apply (proj2 (ReadEnv_required_port no_parsers {[ "PORT" := "9090" ]} ∅)). reflexivity.
Defined.

(** C1 as stated fails: with [PORT] unset no run of [ReadEnv] on the zero
    record returns nil with the field at 8080. *)
Lemma ReadEnv_required_port_not_defaulted :
  ~ exists (lib : GoLib) (st' : store),
      ReadEnv lib ∅ (IPointer RequiredPort (Some [])) "" ∅ = (st', Nil)
      /\ load st' Port_field = VInt 8080.
Proof.
  intros (lib & st' & Hrun & _).
  rewrite ReadEnv_RequiredPort_unset in Hrun; done.
Qed.

(** C2, as the code has it.  For a nested record declared with the prefix
    ["DB_"] whose field has the key ["PORT"], the descriptor carries the
    name ["DB_PORT"]; [ReadEnv] reads the variable [DB_PORT] when the
    application name is empty and [APP_DB_PORT] when it is ["APP"], and no
    other. *)
Theorem ReadEnv_nested_prefix (lib : GoLib) (environ : gmap string string) (st : store) :
  readStructMetadata (IPointer Service (Some []))
  = Ok [Port_at [0; 0] ["DB_PORT"] None false]
  /\ ReadEnv lib environ (IPointer Service (Some [])) "" st
     = match environ !! "DB_PORT" with
       | Some raw => parseField lib (Port_at [0; 0] ["DB_PORT"] None false) raw st
       | None => (st, Nil)
       end
  /\ ReadEnv lib environ (IPointer Service (Some [])) "APP" st
     = match environ !! "APP_DB_PORT" with
       | Some raw => parseField lib (Port_at [0; 0] ["DB_PORT"] None false) raw st
       | None => (st, Nil)
       end.
Proof.
  split; [reflexivity|]. split; by apply ReadEnv_Service.
Qed.

(** C2 as stated fails: with the application name ["APP"], setting
    [APPDB_PORT] binds nothing. *)
Lemma ReadEnv_nested_prefix_not_APPDB_PORT :
  ~ exists (lib : GoLib) (st' : store),
      ReadEnv lib {[ "APPDB_PORT" := "5432" ]} (IPointer Service (Some [])) "APP" ∅ = (st', Nil)
      /\ load st' DB_Port_field = VInt 5432.
Proof.
  intros (lib & st' & Hrun & Hload).
  rewrite (ReadEnv_Service lib _ "APP" "APP_DB_PORT") in Hrun by done.
  injection Hrun as <-. done.
Qed.

(** [ReadEnv] on [DefaultPort] when [PORT] holds a literal of zero: the
    field ends at the value of the default. *)
Lemma ReadEnv_DefaultPort_zero (lib : GoLib) (environ : gmap string string) (st : store)
        (def raw : string) (n : Z) :
  environ !! "PORT" = Some raw ->
  Strconv.ParseInt raw 0 64 = (0%Z, None) ->
  Strconv.ParseInt def 0 64 = (n, None) ->
  readEnvVars lib environ [Port_at [0] ["PORT"] (Some def) false] "" st
  = (<[ [0] := VInt 0 ]> st, Nil)
  /\ ReadEnv lib environ (IPointer (DefaultPort def) (Some [])) "" st
     = (<[ [0] := VInt n ]> (<[ [0] := VInt 0 ]> st), Nil)
  /\ load (<[ [0] := VInt n ]> (<[ [0] := VInt 0 ]> st)) Port_field = VInt n.
Proof.
  intros Henv Hraw Hdef.
  assert (Hpass : readEnvVars lib environ [Port_at [0] ["PORT"] (Some def) false] "" st
                  = (<[ [0] := VInt 0 ]> st, Nil)).
  { cbn [readEnvVars firstEnv Port_at envList]. unfold LookupEnv.
    change ("" ++ "PORT")%string with "PORT". rewrite Henv.
    rewrite parseField_int, Hraw. done. }
  split; [done|]. split; [|apply (load_insert Port_field)].
  unfold ReadEnv. rewrite readStructMetadata_DefaultPort, toPrefix_empty, Hpass.
  cbn [finalize]. unfold isFieldValueZero.
  change (fieldValue (Port_at [0] ["PORT"] (Some def) false)) with Port_field.
  rewrite (load_insert Port_field).
  change (defValue (Port_at [0] ["PORT"] (Some def) false)) with (Some def).
  cbn [isZero Z.eqb required Port_at andb].
  rewrite parseField_int, Hdef. done.
Qed.


(** ** Introspection *)

Section IntrospectionFacts.

Variable sLoc : path.
Variable sPrefix : string.

(** In an addressable record a field is read without an error; the only
    panic is that of an unexported nested record. *)
Lemma readField_addressable (idx : nat) (f : StructField rtype) :
  readField sLoc true sPrefix idx f
  = (if nested_record f && negb (bool_decide (fPkgPath f = ""))
     then Panic InterfaceOfUnexported
     else readField sLoc true sPrefix idx f)
  /\ (forall e, readField sLoc true sPrefix idx f <> Err e)
  /\ (forall p, readField sLoc true sPrefix idx f = Panic p -> p = InterfaceOfUnexported).
Proof.
  unfold readField, nested_record. cbn [typ negb andb].
  destruct (bool_decide (Kind_of (fType f) = Struct) && negb (is_time "Time" (fType f)));
    destruct (bool_decide (fPkgPath f = "")); cbn [negb andb]; repeat split; try done;
    by intros p [= <-].
Qed.

(** An unexported field that is not a nested record is skipped. *)
Lemma readField_unexported_leaf (addressable : bool) (idx : nat) (f : StructField rtype) :
  nested_record f = false -> fPkgPath f <> "" ->
  readField sLoc addressable sPrefix idx f = Ok Skipped.
Proof.
  intros Hleaf Hpkg. unfold readField. unfold nested_record in Hleaf.
  cbn [typ]. rewrite Hleaf. rewrite (bool_decide_eq_false_2 _ Hpkg).
  by rewrite andb_false_r.
Qed.

(** An unexported nested record among the fields of an addressable
    record makes the loop over the fields panic. *)
Lemma readFields_unexported_nested (fields : list (StructField rtype)) (f : StructField rtype) :
  f ∈ fields -> nested_record f = true -> fPkgPath f <> "" ->
  forall idx, readFields sLoc true sPrefix idx fields = Panic InterfaceOfUnexported.
Proof.
  intros Hin Hnested Hpkg.
  induction fields as [|g fields IH]; [by apply elem_of_nil in Hin|].
  intros idx. cbn [readFields].
  destruct (readField_addressable idx g) as (Hg & Hnoerr & Hpanic).
  apply elem_of_cons in Hin as [<-|Hin].
  - rewrite Hg, Hnested, (bool_decide_eq_false_2 _ Hpkg). done.
  - destruct (readField sLoc true sPrefix idx g) as [v|e|p].
    + rewrite (IH Hin (S idx)). done.
    + by destruct (Hnoerr e).
    + by rewrite (Hpanic p).
Qed.

End IntrospectionFacts.

(** C3, as the code has it.  An unexported field that is not a nested
    record gets no descriptor; but a record, passed by pointer, with an
    unexported field that is a nested record makes [readStructMetadata]
    panic: the address of the field is turned into an interface before
    the field is checked for being settable. *)
Theorem readStructMetadata_unexported (u : uncommon) (fields : list (StructField rtype))
        (l : path) (f : StructField rtype) :
  f ∈ fields -> fPkgPath f <> "" ->
  (nested_record f = false ->
   forall sLoc addressable sPrefix idx,
     readField sLoc addressable sPrefix idx f = Ok Skipped)
  /\ (nested_record f = true ->
      readStructMetadata (IPointer (TStruct u fields) (Some l)) = Panic InterfaceOfUnexported
      /\ forall lib environ appname st,
           ReadEnv lib environ (IPointer (TStruct u fields) (Some l)) appname st
           = (st, Panic InterfaceOfUnexported)).
Proof.
  intros Hin Hpkg. split.
  - intros Hleaf sLoc addressable sPrefix idx. by apply readField_unexported_leaf.
  - intros Hnested.
    assert (H : readStructMetadata (IPointer (TStruct u fields) (Some l))
                = Panic InterfaceOfUnexported).
    { unfold readStructMetadata. cbn [iface_size type_size worklist readNode Val Prefix].
      by rewrite (readFields_unexported_nested l "" fields f). }
    split; [done|]. intros lib environ appname st. unfold ReadEnv. by rewrite H.
Qed.

(** The record [Private], whose field [db] is an unexported nested record. *)
Lemma readStructMetadata_unexported_witness :
  readStructMetadata (IPointer Private (Some [])) = Panic InterfaceOfUnexported.
Proof.
  refine (proj1 (proj2 (readStructMetadata_unexported (plain "main" "Private") _ []
                          (unexported "db" Database [(TagEnvPrefix, "DB_")]) _ _) _)).
  - apply list_elem_of_In. right. left. reflexivity.
  - discriminate.
  - reflexivity.
Defined.

(** ** Unsupported targets *)

(** C4, as the code has it.  A target of a kind that [parseValue] does
    not know fails with the error "unsupported type" naming the type; but
    for a struct other than [time.Time] (without [Setter]) [parseValue]
    returns nil and writes nothing. *)
Theorem parseValue_unsupported (lib : GoLib) (t : rtype) (field : Value)
        (value sep : string) (layout : option string) :
  AsSetter (uncommon_of t) field = None ->
  (unsupported_kind (Kind_of t) = true ->
   parseValue lib t field value sep layout
   = (None, Err (UnsupportedType (PkgPath (uncommon_of t)) (Name (uncommon_of t)))))
  /\ (Kind_of t = Struct -> is_time "Time" t = false ->
      parseValue lib t field value sep layout = (None, Nil)).
Proof.
  intros Hset. split.
  - intros Hk.
    destruct t as [u k|u n e|u e|u k e|u e|u fields];
      cbn [parseValue uncommon_of Kind_of]; cbn [uncommon_of] in Hset; rewrite Hset;
      cbn [Kind_of] in Hk; try done.
    by destruct k.
  - intros Hk Htime.
    destruct t as [u k|u n e|u e|u k e|u e|u fields]; cbn [Kind_of] in Hk; try done.
    + cbn [parseValue uncommon_of Kind_of]. cbn [uncommon_of] in Hset. rewrite Hset.
      subst k. by rewrite Htime.
    + cbn [parseValue uncommon_of Kind_of]. cbn [uncommon_of] in Hset. rewrite Hset.
      by rewrite Htime.
Qed.

(** A target of type [Point], and a list of two of them. *)
Lemma parseValue_unsupported_witness :
  parseValue no_parsers Point (Zero Point) "1;2" "," None = (None, Nil)
  /\ parseValue no_parsers Points VNilRef "a,b" "," None
     = (Some (VSlice [VStruct [VInt 0; VInt 0]; VStruct [VInt 0; VInt 0]]), Nil).
Proof.
  split; [|reflexivity].
  apply (parseValue_unsupported no_parsers Point (Zero Point) "1;2" "," None); reflexivity.
Defined.

(** ** Command-line flags *)

(** [flagSet.String] on a name that [flag] accepts, and on one that it
    refuses. *)
Lemma FlagSet_String_ok (name : string) (cells : list string) :
  flag_name_ok name = true ->
  FlagSet_String name cells = Ok (length cells, (cells ++ [""])%list).
Proof.
  unfold flag_name_ok, FlagSet_String.
  destruct (GoStrings.HasPrefix name "-"); [done|].
  by destruct (GoStrings.Contains name "=").
Qed.

Lemma FlagSet_String_refused (name : string) (cells : list string) :
  flag_name_ok name = false ->
  exists p, FlagSet_String name cells = Panic p /\ flag_name_panic p.
Proof.
  unfold flag_name_panic. intros Hbad. pose proof Hbad as Hname.
  unfold flag_name_ok in Hbad. unfold FlagSet_String.
  destruct (GoStrings.HasPrefix name "-"); [by eauto 6|].
  destruct (GoStrings.Contains name "="); [by eauto 6|done].
Qed.

(** C5, as the code has it.  Of two descriptors with the same flag name
    the second registers no flag; but when their field names differ,
    [readFlagVars] then panics and leaves the record as it was.  For a
    flag name that [flag] accepts, the first loop declares one flag and
    the second loop finds no variable for the second descriptor and
    panics on the nil pointer; a name that [flag] refuses panics where it
    is declared. *)
Theorem readFlagVars_duplicate_flag (lib : GoLib) (a b : structMeta) (st : store) :
  flag_Parse_returns lib = true ->
  toFlagName lib (fieldName a) (envList a) = toFlagName lib (fieldName b) (envList b) ->
  fieldName a <> fieldName b ->
  (exists p, readFlagVars lib [a; b] st = Some (st, Panic p))
  /\ (flag_name_ok (toFlagName lib (fieldName a) (envList a)) = true ->
      registerFlags lib [a; b] ∅ ∅ []
      = Ok (<[ fieldName a := 0 ]> ∅, {[ toFlagName lib (fieldName a) (envList a) ]} ∪ ∅, [""])
      /\ readFlagVars lib [a; b] st = Some (st, Panic NilDereference)).
Proof.
  intros Hparse Hname Hfield.
  assert (Hok : flag_name_ok (toFlagName lib (fieldName a) (envList a)) = true ->
                registerFlags lib [a; b] ∅ ∅ []
                = Ok (<[ fieldName a := 0 ]> ∅,
                      {[ toFlagName lib (fieldName a) (envList a) ]} ∪ ∅, [""])
                /\ readFlagVars lib [a; b] st = Some (st, Panic NilDereference)).
  { intros Hflag.
    assert (Hreg : registerFlags lib [a; b] ∅ ∅ []
                   = Ok (<[ fieldName a := 0 ]> ∅,
                         {[ toFlagName lib (fieldName a) (envList a) ]} ∪ ∅, [""])).
    { cbn [registerFlags]. rewrite bool_decide_eq_false_2 by set_solver.
      rewrite FlagSet_String_ok by done.
      rewrite <- Hname. rewrite bool_decide_eq_true_2 by set_solver. done. }
    split; [done|].
    unfold readFlagVars. rewrite Hreg, Hparse. cbn [bindFlags].
    rewrite lookup_insert_eq. cbn.
    rewrite lookup_insert_ne, lookup_empty by done. done. }
  split; [|done].
  destruct (flag_name_ok (toFlagName lib (fieldName a) (envList a))) eqn:Hflag.
  - exists NilDereference. by apply Hok.
  - destruct (FlagSet_String_refused _ [] Hflag) as (p & Hp & _).
    exists p. unfold readFlagVars. cbn [registerFlags].
    rewrite bool_decide_eq_false_2 by set_solver. by rewrite Hp.
Qed.

(** Two fields [A] and [B] that both name the variable [X]. *)
Lemma readFlagVars_duplicate_flag_witness :
  readFlagVars no_parsers [flag_meta "A" ["X"] [0]; flag_meta "B" ["X"] [1]] ∅
  = Some (∅, Panic NilDereference).
Proof.
  apply (readFlagVars_duplicate_flag no_parsers (flag_meta "A" ["X"] [0])
           (flag_meta "B" ["X"] [1]) ∅); [reflexivity|reflexivity|discriminate|reflexivity].
Defined.

(** ** The passes over the descriptors *)

Section PassProperties.

Variable lib : GoLib.
Variable environ : gmap string string.

Lemma firstEnv_unset (prefix : string) (envs : list string) :
  Forall (fun env => environ !! (prefix ++ env)%string = None) envs <->
  firstEnv environ prefix envs = None.
Proof.
  induction envs as [|env envs IH]; cbn [firstEnv]; unfold LookupEnv.
  - split; [done|constructor].
  - split.
    + intros H. inversion H as [|? ? Henv Hrest]; subst. rewrite Henv. by apply IH.
    + destruct (environ !! (prefix ++ env)%string) eqn:E; [done|].
      intros H. constructor; [done|by apply IH].
Qed.

Lemma firstEnv_app (prefix : string) (pre post : list string) :
  firstEnv environ prefix (pre ++ post)
  = match firstEnv environ prefix pre with
    | Some v => Some v
    | None => firstEnv environ prefix post
    end.
Proof.
  induction pre as [|env pre IH]; cbn [app firstEnv]; [done|].
  by destruct (LookupEnv environ (prefix ++ env)%string).
Qed.

Lemma readEnvVars_frame (metaInfo : list structMeta) (prefix : string) (st : store) (l : path) :
  l ∉ locs metaInfo ->
  (readEnvVars lib environ metaInfo prefix st).1 !! l = st !! l.
Proof.
  revert st. induction metaInfo as [|m metaInfo IH]; intros st Hl; cbn [readEnvVars]; [done|].
  unfold locs in Hl. cbn [map] in Hl. apply not_elem_of_cons in Hl as [Hm Hrest].
  destruct (firstEnv environ prefix (envList m)) as [raw|]; [|by apply IH].
  destruct (parseField lib m raw st) as [st' s] eqn:E.
  pose proof (parseField_frame lib m raw st st' s l E Hm) as Hst.
  destruct s as [[]|e|p]; cbn [fst]; [|done..].
  rewrite IH by done. done.
Qed.

Lemma finalize_frame (metaInfo : list structMeta) (st : store) (l : path) :
  l ∉ locs metaInfo ->
  (finalize lib metaInfo st).1 !! l = st !! l.
Proof.
  revert st. induction metaInfo as [|m metaInfo IH]; intros st Hl; cbn [finalize]; [done|].
  unfold locs in Hl. cbn [map] in Hl. apply not_elem_of_cons in Hl as [Hm Hrest].
  destruct (required m && isFieldValueZero m st); [done|].
  destruct (isFieldValueZero m st); [|by apply IH].
  destruct (defValue m) as [def|]; [|by apply IH].
  destruct (parseField lib m def st) as [st' s] eqn:E.
  pose proof (parseField_frame lib m def st st' s l E Hm) as Hst.
  destruct s as [[]|e|p]; cbn [fst]; [|done..].
  rewrite IH by done. done.
Qed.

Lemma finalize_checks_required (metaInfo : list structMeta) (st st' : store) :
  NoDup (locs metaInfo) ->
  finalize lib metaInfo st = (st', Nil) ->
  Forall (fun m => required m = true -> isFieldValueZero m st' = false) metaInfo.
Proof.
  revert st. induction metaInfo as [|m metaInfo IH]; intros st Hnd Hfin; [constructor|].
  unfold locs in Hnd. cbn [map] in Hnd. apply NoDup_cons in Hnd as [Hm Hnd].
  cbn [finalize] in Hfin.
  destruct (required m) eqn:Hreq; cbn [andb] in Hfin.
  - destruct (isFieldValueZero m st) eqn:Hz; [done|].
    constructor; [|by eapply IH].
    intros _. unfold isFieldValueZero, load in *.
    pose proof (finalize_frame metaInfo st _ Hm) as Hframe.
    rewrite Hfin in Hframe. cbn [fst] in Hframe. by rewrite Hframe.
  - constructor; [by rewrite Hreq|].
    destruct (isFieldValueZero m st); [|by eapply IH].
    destruct (defValue m) as [def|]; [|by eapply IH].
    destruct (parseField lib m def st) as [st1 [[]|e|p]]; [|done..].
    by eapply IH.
Qed.

End PassProperties.

(** X1.  A descriptor none of whose names is set is passed over: when no
    descriptor has a name that is set, [readEnvVars] returns nil and
    leaves the record as it is. *)
Theorem readEnvVars_nothing_set (lib : GoLib) (environ : gmap string string)
        (metaInfo : list structMeta) (prefix : string) (st : store) :
  Forall (unset environ prefix) metaInfo ->
  readEnvVars lib environ metaInfo prefix st = (st, Nil).
Proof.
  induction 1 as [|m metaInfo Hm _ IH]; cbn [readEnvVars]; [done|].
  apply firstEnv_unset in Hm. by rewrite Hm.
Qed.

(** Two descriptors against a process without variables. *)
Lemma readEnvVars_nothing_set_witness :
  readEnvVars no_parsers ∅ [Name_meta; Port_at [1] ["PORT"; "HTTP_PORT"] None false] "APP_" ∅
  = (∅, Nil).
Proof.
  apply (readEnvVars_nothing_set no_parsers ∅).
  repeat constructor.
Defined.

(** X2.  The names of a descriptor are tried in order under the prefix,
    and the first one that is set gives the raw value, whatever names
    follow; no value is found exactly when none of the names is set. *)
Theorem firstEnv_first_hit (environ : gmap string string) (prefix : string)
        (pre post : list string) (env value : string) :
  Forall (fun e => environ !! (prefix ++ e)%string = None) pre ->
  environ !! (prefix ++ env)%string = Some value ->
  firstEnv environ prefix (pre ++ env :: post) = Some value
  /\ forall envs,
       firstEnv environ prefix envs = None
       <-> Forall (fun e => environ !! (prefix ++ e)%string = None) envs.
Proof.
  intros Hpre Henv. split.
  - rewrite firstEnv_app. apply firstEnv_unset in Hpre. rewrite Hpre.
    cbn [firstEnv]. unfold LookupEnv. by rewrite Henv.
  - intros envs. symmetry. apply firstEnv_unset.
Qed.

(** The second of three names is the first that is set. *)
Lemma firstEnv_first_hit_witness :
  firstEnv {[ "APP_B" := "2"; "APP_C" := "3" ]} "APP_" (["A"] ++ "B" :: ["C"]) = Some "2".
Proof.
  apply (firstEnv_first_hit {[ "APP_B" := "2"; "APP_C" := "3" ]} "APP_" ["A"] ["C"] "B" "2").
  - repeat constructor.
  - reflexivity.
Defined.

(** X3.  [ReadEnv] changes no location of the record other than those
    of the descriptors that [readStructMetadata] returns; when
    [readStructMetadata] fails, it changes nothing. *)
Theorem ReadEnv_frame (lib : GoLib) (environ : gmap string string)
        (cfg : iface) (appname : string) (st : store) (l : path) :
  (ReadEnv lib environ cfg appname st).1 !! l <> st !! l ->
  exists metaInfo,
    readStructMetadata cfg = Ok metaInfo /\ l ∈ locs metaInfo.
Proof.
  unfold ReadEnv. destruct (readStructMetadata cfg) as [metaInfo|e|p]; [|done..].
  intros Hl. exists metaInfo. split; [done|].
  destruct (decide (l ∈ locs metaInfo)) as [|Hnot]; [done|]. exfalso. apply Hl.
  pose proof (readEnvVars_frame lib environ metaInfo (toPrefix lib appname) st l Hnot) as H1.
  destruct (readEnvVars lib environ metaInfo (toPrefix lib appname) st) as [st1 [[]|e|p]];
    cbn [fst] in *; [|done..].
  by rewrite finalize_frame.
Qed.

(** With [PORT=9090] the location of [Port] changes, and it is the
    location of the descriptor. *)
Lemma ReadEnv_frame_witness :
  exists metaInfo,
    readStructMetadata (IPointer RequiredPort (Some [])) = Ok metaInfo
    /\ [0] ∈ locs metaInfo.
Proof.
  apply (ReadEnv_frame no_parsers {[ "PORT" := "9090" ]} (IPointer RequiredPort (Some [])) "" ∅).
  discriminate.
Defined.

(** X4.  When [finalize] returns nil over descriptors of pairwise
    distinct fields, every required field holds a value that is not
    zero. *)
Theorem finalize_required_set (lib : GoLib) (metaInfo : list structMeta) (st st' : store) :
  NoDup (locs metaInfo) ->
  finalize lib metaInfo st = (st', Nil) ->
  Forall (fun m => required m = true -> isFieldValueZero m st' = false) metaInfo.
Proof. apply finalize_checks_required. Qed.

(** A required name that is set and a port that takes its default. *)
Lemma finalize_required_set_witness :
  Forall (fun m => required m = true ->
                   isFieldValueZero m (<[ [1] := VInt 8080 ]> (<[ [0] := VString "svc" ]> ∅)) = false)
         [{| envList := ["NAME"]; fieldName := "Name";
             fieldValue := {| loc := [0]; typ := string_t |};
             defValue := None; layout := None; separator := ",";
             description := ""; required := true |};
          Port_at [1] ["PORT"] (Some "8080") false].
Proof.
  apply (finalize_required_set no_parsers _ (<[ [0] := VString "svc" ]> ∅)).
  - unfold locs. cbn. compute_done.
  - reflexivity.
Defined.

(** X5.  When every field of the descriptors holds a value that is not
    zero, [finalize] returns nil and leaves the record as it is: neither
    a default nor the required check touches a field that is set. *)
Theorem finalize_all_set (lib : GoLib) (metaInfo : list structMeta) (st : store) :
  Forall (fun m => isFieldValueZero m st = false) metaInfo ->
  finalize lib metaInfo st = (st, Nil).
Proof.
  induction 1 as [|m metaInfo Hm _ IH]; cbn [finalize]; [done|].
  by rewrite Hm, andb_false_r.
Qed.

(** A port that is set, against a default and the required flag. *)
Lemma finalize_all_set_witness :
  finalize no_parsers [Port_at [0] ["PORT"] (Some "8080") true] (<[ [0] := VInt 9090 ]> ∅)
  = (<[ [0] := VInt 9090 ]> ∅, Nil).
Proof.
  apply (finalize_all_set no_parsers). repeat constructor.
Defined.

(** ** Command-line flags and [ReadConfig] *)

Section FlagProperties.

Variable lib : GoLib.

(** One step of the first loop, on a flag name that is new. *)
Lemma registerFlags_new (m : structMeta) (metaInfo : list structMeta)
      (values : gmap string nat) (names : gset string) (cells : list string) :
  flagName_of lib m ∉ names ->
  flag_name_ok (flagName_of lib m) = true ->
  registerFlags lib (m :: metaInfo) values names cells
  = registerFlags lib metaInfo (<[fieldName m := length cells]> values)
                  ({[flagName_of lib m]} ∪ names) (cells ++ [""]).
Proof.
  intros Hnew Hok. cbn [registerFlags]. fold (flagName_of lib m).
  rewrite bool_decide_eq_false_2 by done. by rewrite FlagSet_String_ok.
Qed.

(** The first loop fails only by a panic of [flag] on a flag name. *)
Lemma registerFlags_failure (metaInfo : list structMeta) :
  forall values names cells,
    match registerFlags lib metaInfo values names cells with
    | Ok _ => True
    | Err _ => False
    | Panic p => flag_name_panic p
    end.
Proof.
  induction metaInfo as [|m metaInfo IH]; intros values names cells; cbn [registerFlags]; [done|].
  fold (flagName_of lib m).
  destruct (bool_decide _); [apply IH|].
  destruct (flag_name_ok (flagName_of lib m)) eqn:Hok.
  - rewrite FlagSet_String_ok by done. apply IH.
  - by destruct (FlagSet_String_refused _ cells Hok) as (p & -> & Hp).
Qed.

(** The variables of the flags all hold the default. *)
Lemma registerFlags_cells (metaInfo : list structMeta) :
  forall values names cells r,
    Forall (fun c => c = "") cells ->
    registerFlags lib metaInfo values names cells = Ok r ->
    Forall (fun c => c = "") r.2.
Proof.
  induction metaInfo as [|m metaInfo IH]; intros values names cells r Hc; cbn [registerFlags].
  { by intros [= <-]. }
  fold (flagName_of lib m).
  destruct (bool_decide _); [by apply IH|].
  destruct (flag_name_ok (flagName_of lib m)) eqn:Hok.
  - rewrite FlagSet_String_ok by done. apply IH.
    apply Forall_app. split; [done|]. by repeat constructor.
  - by destruct (FlagSet_String_refused _ cells Hok) as (p & -> & _).
Qed.

(** A field name that has a variable keeps one. *)
Lemma registerFlags_keeps (metaInfo : list structMeta) (name : string) :
  forall values names cells r,
    is_Some (values !! name) ->
    registerFlags lib metaInfo values names cells = Ok r ->
    is_Some (r.1.1 !! name).
Proof.
  induction metaInfo as [|m metaInfo IH]; intros values names cells r Hn; cbn [registerFlags].
  { by intros [= <-]. }
  fold (flagName_of lib m).
  destruct (bool_decide _); [by apply IH|].
  destruct (flag_name_ok (flagName_of lib m)) eqn:Hok.
  - rewrite FlagSet_String_ok by done. apply IH.
    destruct (decide (fieldName m = name)) as [->|Hne].
    + rewrite lookup_insert_eq. eauto.
    + by rewrite lookup_insert_ne.
  - by destruct (FlagSet_String_refused _ cells Hok) as (p & -> & _).
Qed.

(** With pairwise distinct flag names, none of them registered before,
    every field name gets a variable. *)
Lemma registerFlags_all (metaInfo : list structMeta) :
  forall values names cells r,
    NoDup (map (flagName_of lib) metaInfo) ->
    Forall (fun m => flagName_of lib m ∉ names) metaInfo ->
    registerFlags lib metaInfo values names cells = Ok r ->
    Forall (fun m => is_Some (r.1.1 !! fieldName m)) metaInfo.
Proof.
  induction metaInfo as [|m metaInfo IH]; intros values names cells r Hnd Hfresh Hreg;
    [constructor|].
  cbn [map] in Hnd. apply NoDup_cons in Hnd as [Hm Hnd].
  apply Forall_cons in Hfresh as [Hm' Hrest].
  destruct (flag_name_ok (flagName_of lib m)) eqn:Hok.
  2:{ cbn [registerFlags] in Hreg. fold (flagName_of lib m) in Hreg.
      rewrite bool_decide_eq_false_2 in Hreg by done.
      by destruct (FlagSet_String_refused _ cells Hok) as (p & Hp & _); rewrite Hp in Hreg. }
  rewrite registerFlags_new in Hreg by done.
  constructor.
  - eapply registerFlags_keeps; [|exact Hreg]. rewrite lookup_insert_eq. eauto.
  - eapply IH; [done| |exact Hreg].
    apply Forall_forall. intros m2 Hin.
    rewrite Forall_forall in Hrest. specialize (Hrest m2 Hin).
    assert (flagName_of lib m2 <> flagName_of lib m).
    { intros Heq. apply Hm. rewrite <- Heq. apply list_elem_of_fmap. eauto. }
    by intros [?%elem_of_singleton|?]%elem_of_union.
Qed.

(** The first loop returns when [flag] accepts every flag name. *)
Lemma registerFlags_accepted (metaInfo : list structMeta) :
  forall values names cells,
    Forall (fun m => flag_name_ok (flagName_of lib m) = true) metaInfo ->
    exists r, registerFlags lib metaInfo values names cells = Ok r.
Proof.
  induction metaInfo as [|m metaInfo IH]; intros values names cells Hok; cbn [registerFlags];
    [by eauto|].
  apply Forall_cons in Hok as [Hm Hok]. fold (flagName_of lib m).
  destruct (bool_decide _); [by apply IH|].
  rewrite FlagSet_String_ok by done. by apply IH.
Qed.

(** The first loop panics when [flag] refuses one of the flag names. *)
Lemma registerFlags_refused (metaInfo : list structMeta) :
  forall values names cells,
    (forall name, name ∈ names -> flag_name_ok name = true) ->
    Exists (fun m => flag_name_ok (flagName_of lib m) = false) metaInfo ->
    exists p, registerFlags lib metaInfo values names cells = Panic p.
Proof.
  induction metaInfo as [|m metaInfo IH]; intros values names cells Hnames Hbad.
  { by apply Exists_nil in Hbad. }
  cbn [registerFlags]. fold (flagName_of lib m).
  destruct (flag_name_ok (flagName_of lib m)) eqn:Hok.
  - apply Exists_cons in Hbad as [Hbad|Hbad]; [congruence|].
    destruct (bool_decide _); [by apply IH|].
    rewrite FlagSet_String_ok by done. apply IH; [|done].
    intros name [->%elem_of_singleton|Hin]%elem_of_union; [done|by apply Hnames].
  - rewrite bool_decide_eq_false_2.
    + destruct (FlagSet_String_refused _ cells Hok) as (p & -> & _). eauto.
    + intros Hin. apply Hnames in Hin. congruence.
Qed.

(** The second loop over variables that hold the default changes
    nothing. *)
Lemma bindFlags_defaults (metaInfo : list structMeta) (values : gmap string nat)
      (cells : list string) (st : store) :
  Forall (fun c => c = "") cells ->
  (Forall (fun m => is_Some (values !! fieldName m)) metaInfo ->
   bindFlags lib metaInfo values cells st = (st, Nil))
  /\ (bindFlags lib metaInfo values cells st = (st, Nil)
      \/ bindFlags lib metaInfo values cells st = (st, Panic NilDereference)).
Proof.
  intros Hc.
  assert (Hcell : forall addr, default "" (cells !! addr) = "").
  { intros addr. destruct (cells !! addr) as [c|] eqn:E; [|done].
    rewrite Forall_forall in Hc. apply (Hc c). by eapply list_elem_of_lookup_2. }
  induction metaInfo as [|m metaInfo [IH1 IH2]]; cbn [bindFlags]; [by split; [|left]|].
  split.
  - intros H. inversion H as [|? ? [addr Hm] Hrest]; subst.
    rewrite Hm, Hcell. rewrite bool_decide_eq_true_2 by done. by apply IH1.
  - destruct (values !! fieldName m) as [addr|]; [|by right].
    rewrite Hcell. by rewrite bool_decide_eq_true_2.
Qed.

Lemma readFlagVars_distinct_names (metaInfo : list structMeta) (st : store) :
  flag_Parse_returns lib = true ->
  Forall (fun m => flag_name_ok (flagName_of lib m) = true) metaInfo ->
  NoDup (map (flagName_of lib) metaInfo) ->
  readFlagVars lib metaInfo st = Some (st, Nil).
Proof.
  intros Hparse Hok Hnd. unfold readFlagVars.
  destruct (registerFlags_accepted metaInfo ∅ ∅ [] Hok) as [[[values names] cells] Hreg].
  rewrite Hreg, Hparse.
  pose proof (registerFlags_cells metaInfo ∅ ∅ [] _ (Forall_nil_2 _) Hreg) as Hc.
  destruct (bindFlags_defaults metaInfo values cells st Hc) as [H1 _].
  rewrite H1; [done|].
  apply (registerFlags_all metaInfo ∅ ∅ [] (values, names, cells) Hnd); [|exact Hreg].
  apply Forall_forall. intros m _. apply not_elem_of_empty.
Qed.

End FlagProperties.

(** X6.  [readFlagVars] never changes the record and never returns an
    error: when [flag.Parse()] returns, it returns nil, or panics on the
    nil pointer, or panics on a flag name that [flag] refuses, with the
    record as it was.  With pairwise distinct flag names that [flag]
    accepts it returns nil; with a flag name that [flag] refuses it
    panics. *)
Theorem readFlagVars_binds_nothing (lib : GoLib) (metaInfo : list structMeta) (st : store) :
  flag_Parse_returns lib = true ->
  (exists s, readFlagVars lib metaInfo st = Some (st, s)
             /\ (s = Nil \/ s = Panic NilDereference
                 \/ exists p, s = Panic p /\ flag_name_panic p))
  /\ (Forall (fun m => flag_name_ok (flagName_of lib m) = true) metaInfo ->
      NoDup (map (flagName_of lib) metaInfo) ->
      readFlagVars lib metaInfo st = Some (st, Nil))
  /\ (Exists (fun m => flag_name_ok (flagName_of lib m) = false) metaInfo ->
      exists p, readFlagVars lib metaInfo st = Some (st, Panic p) /\ flag_name_panic p).
Proof.
  intros Hparse. split; [|split].
  - unfold readFlagVars.
    pose proof (registerFlags_failure lib metaInfo ∅ ∅ []) as Hfail.
    pose proof (registerFlags_cells lib metaInfo ∅ ∅ []) as Hc.
    destruct (registerFlags lib metaInfo ∅ ∅ []) as [[[values names] cells]|e|p]; [|done|].
    + rewrite Hparse. specialize (Hc _ (Forall_nil_2 _) eq_refl). cbn [snd] in Hc.
      destruct (bindFlags_defaults lib metaInfo values cells st Hc) as [_ [-> | ->]]; eauto.
    + exists (Panic p). eauto 6.
  - intros Hok Hnd. unfold readFlagVars.
    destruct (registerFlags_accepted lib metaInfo ∅ ∅ [] Hok) as [[[values names] cells] Hreg].
    rewrite Hreg, Hparse.
    pose proof (registerFlags_cells lib metaInfo ∅ ∅ [] _ (Forall_nil_2 _) Hreg) as Hc.
    destruct (bindFlags_defaults lib metaInfo values cells st Hc) as [H1 _].
    rewrite H1; [done|].
    apply (registerFlags_all lib metaInfo ∅ ∅ [] (values, names, cells) Hnd); [|exact Hreg].
    apply Forall_forall. intros m _. apply not_elem_of_empty.
  - intros Hbad. unfold readFlagVars.
    pose proof (registerFlags_failure lib metaInfo ∅ ∅ []) as Hfail.
    destruct (registerFlags_refused lib metaInfo ∅ ∅ []) as [p Hp]; [|done|].
    + intros name Hin. by apply not_elem_of_empty in Hin.
    + rewrite Hp in *. eauto.
Qed.

(** Two fields with their own names, and a field whose flag name would
    begin with a minus sign. *)
Lemma readFlagVars_binds_nothing_witness :
  readFlagVars no_parsers [flag_meta "A" ["X"] [0]; flag_meta "B" ["Y"] [1]] ∅ = Some (∅, Nil)
  /\ exists p, readFlagVars no_parsers [flag_meta "A" ["_X"] [0]] ∅ = Some (∅, Panic p)
               /\ flag_name_panic p.
Proof.
  split.
  - apply (readFlagVars_binds_nothing no_parsers); [reflexivity| |].
    + by repeat constructor.
    + cbn. compute_done.
  - apply (readFlagVars_binds_nothing no_parsers); [reflexivity|].
    by repeat constructor.
Defined.

(** X7.  Without a file, and with pairwise distinct flag names that
    [flag] accepts, [ReadConfig] does what [ReadEnv] does. *)
Theorem ReadConfig_without_file (parseFile : string -> store -> store * status)
        (lib : GoLib) (environ : gmap string string)
        (appname : string) (cfg : iface) (st : store) :
  flag_Parse_returns lib = true ->
  (forall metaInfo, readStructMetadata cfg = Ok metaInfo ->
                    Forall (fun m => flag_name_ok (flagName_of lib m) = true) metaInfo
                    /\ NoDup (map (flagName_of lib) metaInfo)) ->
  ReadConfig parseFile lib environ "" appname cfg st
  = Some (ReadEnv lib environ cfg appname st).
Proof.
  intros Hparse Hnd. unfold ReadConfig, ReadEnv. cbn [negb bool_decide].
  rewrite bool_decide_eq_true_2 by done. cbn [negb].
  destruct (readStructMetadata cfg) as [metaInfo|e|p] eqn:Hread; [|done..].
  destruct (readEnvVars lib environ metaInfo (toPrefix lib appname) st) as [st1 [[]|e|p]];
    [|done..].
  destruct (Hnd metaInfo eq_refl) as [Hok Hdistinct].
  by rewrite (readFlagVars_distinct_names lib metaInfo st1 Hparse Hok Hdistinct).
Qed.

(** The record [RequiredPort] with [PORT=9090]. *)
Lemma ReadConfig_without_file_witness :
  ReadConfig (fun _ st => (st, Nil)) no_parsers {[ "PORT" := "9090" ]} ""
             "" (IPointer RequiredPort (Some [])) ∅
  = Some (<[ [0] := VInt 9090 ]> ∅, Nil).
Proof.
  rewrite (ReadConfig_without_file (fun _ st => (st, Nil)) no_parsers).
  - reflexivity.
  - reflexivity.
  - intros metaInfo [= <-]. split; [by repeat constructor|]. cbn. compute_done.
Defined.

(** ** Zero values and the root of the introspection *)

Lemma forallb_replicate {A : Type} (f : A -> bool) (n : nat) (x : A) :
  f x = true -> forallb f (replicate n x) = true.
Proof. intros Hx. induction n as [|n IH]; cbn; [done|]. by rewrite Hx, IH. Qed.

Lemma isZero_Zero_type : forall t : rtype, isZero (Zero t) = true.
Proof.
  fix IH 1. intros [u k|u n e|u e|u k e|u e|u fields]; cbn [Zero isZero].
  - by destruct k.
  - apply forallb_replicate. apply IH.
  - reflexivity.
  - reflexivity.
  - reflexivity.
  - induction fields as [|f fields IHf]; cbn [map forallb]; [done|].
    rewrite (IH (fType f)). exact IHf.
Qed.

(** X8.  The zero value of every type is zero for [isZero]; so in a
    record that was never written every field of a descriptor counts as
    not set, and [finalize] refuses the first required one. *)
Theorem isZero_Zero (lib : GoLib) (t : rtype) (meta : structMeta) (rest : list structMeta) :
  isZero (Zero t) = true
  /\ isFieldValueZero meta ∅ = true
  /\ (required meta = true ->
      finalize lib (meta :: rest) ∅ = (∅, Err (RequiredMissing (fieldName meta)))).
Proof.
  assert (Hz : isFieldValueZero meta ∅ = true).
  { unfold isFieldValueZero, load. rewrite lookup_empty. apply isZero_Zero_type. }
  split; [apply isZero_Zero_type|]. split; [done|].
  intros Hreq. cbn [finalize]. by rewrite Hreq, Hz.
Qed.

(** The required name of [Server] in the zero record. *)
Lemma isZero_Zero_witness :
  finalize no_parsers
           [{| envList := ["NAME"]; fieldName := "Name";
               fieldValue := {| loc := [0]; typ := string_t |};
               defValue := None; layout := None; separator := ",";
               description := ""; required := true |};
            Port_at [1] ["PORT"] (Some "8080") false] ∅
  = (∅, Err (RequiredMissing "Name")).
Proof.
  apply (isZero_Zero no_parsers string_t). reflexivity.
Defined.

Section RootFacts.

(** What is read off a well-formed field that is a nested record is a
    struct type. *)
Lemma wf_struct_kind (t : rtype) :
  wf_type t = true -> Kind_of t = Struct -> exists u fields, t = TStruct u fields.
Proof.
  destruct t as [u k| | | | |u fields]; cbn [Kind_of wf_type]; try done.
  - intros Hwf ->. done.
  - eauto.
Qed.

(** What the loop body pushes: the address of an exported nested record,
    under the prefix extended by the tag of the field. *)
Lemma readField_pushed (sLoc : path) (sPrefix : string) (idx : nat)
      (f : StructField rtype) (n : cfgNode) :
  readField sLoc true sPrefix idx f = Ok (Pushed n) ->
  nested_record f = true /\ fPkgPath f = ""
  /\ n = {| Val := IPointer (fType f) (Some (sLoc ++ [idx]));
            Prefix := (sPrefix ++ default "" (Tag_Lookup (fTag f) TagEnvPrefix))%string |}.
Proof.
  unfold readField. cbn [typ loc].
  change (bool_decide (Kind_of (fType f) = Struct) && negb (is_time "Time" (fType f)))
    with (nested_record f).
  destruct (nested_record f); cbn [negb andb].
  - destruct (bool_decide (fPkgPath f = "")) eqn:Hx; cbn [negb]; [|done].
    apply bool_decide_eq_true in Hx. by intros [= <-].
  - by destruct (bool_decide (fPkgPath f = "")).
Qed.

(** What the loop body describes: an exported field that is not a nested
    record, at its place in the record. *)
Lemma readField_described (sLoc : path) (sPrefix : string) (idx : nat)
      (f : StructField rtype) (m : structMeta) :
  readField sLoc true sPrefix idx f = Ok (Described m) ->
  nested_record f = false /\ fPkgPath f = ""
  /\ loc (fieldValue m) = sLoc ++ [idx] /\ typ (fieldValue m) = fType f
  /\ fieldName m = fName f.
Proof.
  unfold readField. cbn [typ loc].
  change (bool_decide (Kind_of (fType f) = Struct) && negb (is_time "Time" (fType f)))
    with (nested_record f).
  destruct (nested_record f); cbn [negb andb].
  - by destruct (bool_decide (fPkgPath f = "")).
  - destruct (bool_decide (fPkgPath f = "")) eqn:Hx; cbn [negb]; [|done].
    apply bool_decide_eq_true in Hx. by intros [= <-].
Qed.

(** The nodes pushed for the fields of a well-formed addressable record
    are pointers to well-formed struct types. *)
Lemma readFields_pushed (sLoc : path) (sPrefix : string) (fields : list (StructField rtype)) :
  forallb (fun f => wf_type (fType f)) fields = true ->
  forall idx nodes metas,
    readFields sLoc true sPrefix idx fields = Ok (nodes, metas) ->
    Forall (fun n => exists u fs l, Val n = IPointer (TStruct u fs) (Some l)
                                    /\ wf_type (TStruct u fs) = true) nodes.
Proof.
  induction fields as [|f fields IH]; cbn [forallb readFields]; intros Hwf idx nodes metas.
  - intros [= <- _]. constructor.
  - apply andb_prop in Hwf as [Hf Hwf].
    destruct (readField sLoc true sPrefix idx f) as [v| |] eqn:Ef; [|done..].
    destruct (readFields sLoc true sPrefix (S idx) fields) as [[ns ms]| |] eqn:Er; [|done..].
    specialize (IH Hwf _ _ _ Er).
    destruct v as [n|m|]; intros [= <- _]; [|done..].
    constructor; [|done].
    apply readField_pushed in Ef as (Hn & _ & ->). cbn [Val].
    unfold nested_record in Hn. apply andb_prop in Hn as [Hk%bool_decide_eq_true _].
    destruct (wf_struct_kind _ Hf Hk) as (u & fs & Hty). rewrite Hty in *. eauto.
Qed.

(** Reading the fields of an addressable record returns no error. *)
Lemma readFields_no_error (sLoc : path) (sPrefix : string) (fields : list (StructField rtype)) :
  forall idx e, readFields sLoc true sPrefix idx fields <> Err e.
Proof.
  induction fields as [|f fields IH]; intros idx e; cbn [readFields]; [done|].
  destruct (readField_addressable sLoc sPrefix idx f) as (_ & Hnoerr & _).
  destruct (readField sLoc true sPrefix idx f) as [v|e'|p]; [|by destruct (Hnoerr e')|done].
  specialize (IH (S idx)).
  destruct (readFields sLoc true sPrefix (S idx) fields) as [[ns ms]|e'|p]; [|apply IH|done].
  by destruct v.
Qed.

Lemma worklist_no_error (fuel : nat) :
  forall cfgStack metas r,
    Forall (fun n => exists u fs l, Val n = IPointer (TStruct u fs) (Some l)
                                    /\ wf_type (TStruct u fs) = true) cfgStack ->
    worklist fuel cfgStack metas = Some r ->
    forall e, r <> Err e.
Proof.
  induction fuel as [|fuel IH]; intros [|node rest] metas r Hq; cbn [worklist];
    try done; try (by intros [= <-]).
  inversion Hq as [|? ? (u & fs & l & Hval & Hwf) Hrest]; subst.
  unfold readNode. rewrite Hval.
  destruct (readFields l true (Prefix node) 0 fs) as [[nodes ms]|e|p] eqn:E.
  - apply IH. apply Forall_app. split; [done|].
    by eapply readFields_pushed.
  - by destruct (readFields_no_error l (Prefix node) fs 0 e).
  - by intros [= <-].
Qed.

End RootFacts.

(** X9.  [readStructMetadata] returns the error "wrong type" exactly for
    a root that is not a record: nil, a nil pointer, or a value or pointer
    target of another kind.  For a (well-formed) record it never returns
    an error, however its fields are nested. *)
Theorem readStructMetadata_wrong_type (t : rtype) (l : path) :
  readStructMetadata INil = Err (WrongType Invalid)
  /\ readStructMetadata (IPointer t None) = Err (WrongType Invalid)
  /\ (Kind_of t <> Struct ->
      readStructMetadata (IPointer t (Some l)) = Err (WrongType (Kind_of t))
      /\ readStructMetadata (IValue t) = Err (WrongType (Kind_of t)))
  /\ (Kind_of t = Struct -> wf_type t = true ->
      forall e, readStructMetadata (IPointer t (Some l)) <> Err e).
Proof.
  split; [reflexivity|]. split; [by destruct t|]. split.
  - intros Hk. by destruct t.
  - intros Hk Hwf e.
    destruct (wf_struct_kind t Hwf Hk) as (u & fs & ->).
    eapply worklist_no_error; [|apply readStructMetadata_returns].
    constructor; [|constructor]. cbn [Val]. eauto.
Qed.

(** A pointer to an [int], and the record [Service] with its nested
    record. *)
Lemma readStructMetadata_wrong_type_witness :
  readStructMetadata (IPointer int_t (Some [])) = Err (WrongType Int)
  /\ forall e, readStructMetadata (IPointer Service (Some [])) <> Err e.
Proof.
  split.
  - apply (readStructMetadata_wrong_type int_t []). discriminate.
  - apply (readStructMetadata_wrong_type Service []); reflexivity.
Defined.

(** X10.  A record passed by value is never bound: [readStructMetadata]
    returns no descriptor (and panics on the first nested record, whose
    address it cannot take), so [ReadEnv] returns nil or that panic, skips
    defaults and required checks, and leaves the record as it is. *)
Theorem ReadEnv_by_value (lib : GoLib) (environ : gmap string string)
        (u : uncommon) (fields : list (StructField rtype)) (appname : string) (st : store) :
  readStructMetadata (IValue (TStruct u fields))
  = (if existsb nested_record fields then Panic AddrOfUnaddressable else Ok [])
  /\ ReadEnv lib environ (IValue (TStruct u fields)) appname st
     = (st, if existsb nested_record fields then Panic AddrOfUnaddressable else Nil).
Proof.
  assert (Hfields : forall idx,
             readFields [] false "" idx fields
             = if existsb nested_record fields then Panic AddrOfUnaddressable else Ok ([], [])).
  { induction fields as [|f fs IH]; intros idx; cbn [readFields existsb]; [done|].
    unfold readField at 1. fold (nested_record f). cbn [typ].
    change (bool_decide (Kind_of (fType f) = Struct) && negb (is_time "Time" (fType f)))
      with (nested_record f).
    destruct (nested_record f); cbn [negb orb andb]; [done|].
    rewrite IH. by destruct (existsb nested_record fs). }
  assert (H : readStructMetadata (IValue (TStruct u fields))
              = if existsb nested_record fields then Panic AddrOfUnaddressable else Ok []).
  { unfold readStructMetadata. cbn [iface_size type_size worklist readNode Val Prefix].
    rewrite Hfields. destruct (existsb nested_record fields); [done|].
    cbn [app]. by destruct (list_sum _). }
  split; [done|]. unfold ReadEnv. rewrite H.
  by destruct (existsb nested_record fields).
Qed.

(** ** What the descriptors stand for *)

Lemma append_empty_r (s : string) : s +:+ "" = s.
Proof. induction s as [|c s IH]; [done|]. change (String c (s +:+ "") = String c s). by rewrite IH. Qed.

Section PathFacts.

Variable t : rtype.

Lemma type_at_snoc (p : path) (i : nat) (u : uncommon)
      (fields : list (StructField rtype)) (f : StructField rtype) :
  type_at t p = Some (TStruct u fields) -> fields !! i = Some f ->
  type_at t (p ++ [i]) = Some (fType f).
Proof.
  revert t. induction p as [|j p IH]; intros t0; cbn [type_at app].
  - intros [= ->] Hf. by rewrite Hf.
  - destruct t0 as [| | | | |u0 fs]; try done.
    destruct (fs !! j) as [g|]; [|done]. apply IH.
Qed.

Lemma reached_snoc (p : path) (i : nat) (u : uncommon)
      (fields : list (StructField rtype)) (f : StructField rtype) :
  type_at t p = Some (TStruct u fields) -> fields !! i = Some f ->
  reached t p = true -> fPkgPath f = "" -> nested_record f = true ->
  reached t (p ++ [i]) = true.
Proof.
  revert t. induction p as [|j p IH]; intros t0; cbn [type_at reached app].
  - intros [= ->] Hf _ Hx Hn. rewrite Hf, Hn.
    by rewrite bool_decide_eq_true_2.
  - destruct t0 as [| | | | |u0 fs]; try done.
    destruct (fs !! j) as [g|]; [|done].
    intros Hty Hf [Hg Hr]%andb_prop Hx Hn. rewrite Hg. cbn [andb]. by eapply IH.
Qed.

Lemma prefix_along_snoc (p : path) (i : nat) (u : uncommon)
      (fields : list (StructField rtype)) (f : StructField rtype) :
  type_at t p = Some (TStruct u fields) -> fields !! i = Some f ->
  prefix_along t (p ++ [i])
  = (prefix_along t p ++ default "" (Tag_Lookup (fTag f) TagEnvPrefix))%string.
Proof.
  revert t. induction p as [|j p IH]; intros t0; cbn [type_at prefix_along app].
  - intros [= ->] Hf. rewrite Hf. cbn. apply append_empty_r.
  - destruct t0 as [| | | | |u0 fs]; try done.
    destruct (fs !! j) as [g|]; [|done].
    intros Hty Hf. rewrite (IH _ Hty Hf). by rewrite append_assoc.
Qed.

End PathFacts.

Section DescriptorFacts.

(** The root record and where it is. *)
Variable t : rtype.
Variable l : path.

(** What the loop over the fields returns comes from the loop body, field
    by field. *)
Lemma readFields_elems (sLoc : path) (sPrefix : string) (fields : list (StructField rtype)) :
  forall idx nodes metas,
    readFields sLoc true sPrefix idx fields = Ok (nodes, metas) ->
    Forall (fun n => exists k f, fields !! k = Some f
                                 /\ readField sLoc true sPrefix (idx + k) f = Ok (Pushed n)) nodes
    /\ Forall (fun m => exists k f, fields !! k = Some f
                                    /\ readField sLoc true sPrefix (idx + k) f = Ok (Described m))
              metas.
Proof.
  induction fields as [|f fields IH]; intros idx nodes metas; cbn [readFields].
  - intros [= <- <-]. split; constructor.
  - destruct (readField sLoc true sPrefix idx f) as [v| |] eqn:Ef; [|done..].
    destruct (readFields sLoc true sPrefix (S idx) fields) as [[ns ms]| |] eqn:Er; [|done..].
    destruct (IH _ _ _ Er) as [Hns Hms].
    assert (Hns' : Forall (fun n => exists k g, (f :: fields) !! k = Some g
                     /\ readField sLoc true sPrefix (idx + k) g = Ok (Pushed n)) ns).
    { eapply Forall_impl; [exact Hns|]. intros n (k & g & Hk & Hg).
      exists (S k), g. split; [done|]. by replace (idx + S k) with (S idx + k) by lia. }
    assert (Hms' : Forall (fun m => exists k g, (f :: fields) !! k = Some g
                     /\ readField sLoc true sPrefix (idx + k) g = Ok (Described m)) ms).
    { eapply Forall_impl; [exact Hms|]. intros m (k & g & Hk & Hg).
      exists (S k), g. split; [done|]. by replace (idx + S k) with (S idx + k) by lia. }
    assert (Hhere : readField sLoc true sPrefix (idx + 0) f = Ok v)
      by (by rewrite Nat.add_0_r).
    destruct v as [n|m|]; intros [= <- <-].
    + split; [constructor; [by exists 0, f|done]|done].
    + split; [done|constructor; [by exists 0, f|done]].
    + by split.
Qed.

Lemma readNode_ok (node : cfgNode) (nodes : list cfgNode) (metas : list structMeta) :
  node_ok t l node -> readNode node = Ok (nodes, metas) ->
  Forall (node_ok t l) nodes /\ Forall (meta_ok t l) metas.
Proof.
  intros (p & t' & Hval & Hty & Hr & Hpre). unfold readNode. rewrite Hval.
  destruct t' as [| | | | |u fields]; try done.
  intros [Hns Hms]%readFields_elems. cbn [Nat.add] in *. split.
  - eapply Forall_impl; [exact Hns|]. intros n (k & f & Hk & Hf).
    apply readField_pushed in Hf as (Hn & Hx & ->).
    exists (p ++ [k]), (fType f). cbn [Val Prefix].
    rewrite app_assoc. split; [done|].
    split; [by eapply type_at_snoc|]. split; [by eapply reached_snoc|].
    rewrite Hpre. symmetry. by eapply prefix_along_snoc.
  - eapply Forall_impl; [exact Hms|]. intros m (k & f & Hk & Hf).
    destruct (readField_described _ _ _ _ _ Hf) as (Hn & Hx & Hloc & Htyp & Hname).
    exists p, k, u, fields, f. rewrite Hpre in Hf. rewrite <- app_assoc in Hloc.
    by repeat split.
Qed.

Lemma worklist_ok (fuel : nat) :
  forall cfgStack metas out,
    Forall (node_ok t l) cfgStack -> Forall (meta_ok t l) metas ->
    worklist fuel cfgStack metas = Some (Ok out) ->
    Forall (meta_ok t l) out.
Proof.
  induction fuel as [|fuel IH]; intros [|node rest] metas out Hq Hm; cbn [worklist];
    try done; try (by intros [= <-]).
  inversion Hq as [|? ? Hnode Hrest]; subst.
  destruct (readNode node) as [[nodes ms]| |] eqn:E; [|done..].
  destruct (readNode_ok node nodes ms Hnode E) as [Hns Hms].
  apply IH; by apply Forall_app.
Qed.

End DescriptorFacts.

(** X11.  Every descriptor that [readStructMetadata] returns for a pointer
    to a record stands for an exported field that is not itself a nested
    record, reached from the root through exported nested records only:
    it carries the location, type and name of that field, and it is what
    the loop body makes of the field under the prefixes declared along the
    way, one after the other. *)
Theorem readStructMetadata_sound (t : rtype) (l : path)
        (metaInfo : list structMeta) (m : structMeta) :
  readStructMetadata (IPointer t (Some l)) = Ok metaInfo ->
  m ∈ metaInfo ->
  exists p idx u fields f,
    reached t p = true /\ type_at t p = Some (TStruct u fields)
    /\ fields !! idx = Some f
    /\ fPkgPath f = "" /\ nested_record f = false
    /\ readField (l ++ p) true (prefix_along t p) idx f = Ok (Described m)
    /\ loc (fieldValue m) = l ++ p ++ [idx]
    /\ typ (fieldValue m) = fType f /\ fieldName m = fName f.
Proof.
  intros Hread Hin.
  pose proof (readStructMetadata_returns (IPointer t (Some l))) as Hw. rewrite Hread in Hw.
  eapply (worklist_ok t l) in Hw; [|repeat constructor|constructor].
  - rewrite Forall_forall in Hw. by apply Hw.
  - exists [], t. cbn. by rewrite app_nil_r.
Qed.

(** The descriptor of [DB.Port] in [Service]. *)
Lemma readStructMetadata_sound_witness :
  exists p idx u fields f,
    reached Service p = true /\ type_at Service p = Some (TStruct u fields)
    /\ fields !! idx = Some f
    /\ fPkgPath f = "" /\ nested_record f = false
    /\ readField ([] ++ p) true (prefix_along Service p) idx f
       = Ok (Described (Port_at [0; 0] ["DB_PORT"] None false))
    /\ loc (fieldValue (Port_at [0; 0] ["DB_PORT"] None false)) = [] ++ p ++ [idx]
    /\ typ (fieldValue (Port_at [0; 0] ["DB_PORT"] None false)) = fType f
    /\ fieldName (Port_at [0; 0] ["DB_PORT"] None false) = fName f.
Proof.
  apply (readStructMetadata_sound Service [] [Port_at [0; 0] ["DB_PORT"] None false]).
  - reflexivity.
  - apply list_elem_of_In. left. reflexivity.
Defined.

(** ** The descriptors stand for distinct fields *)

Section DistinctFacts.

(** The fields of one record: the nested records pushed and the fields
    described sit at distinct indices of the record. *)
Lemma readFields_locs (sLoc : path) (sPrefix : string) (fields : list (StructField rtype)) :
  forall idx nodes metas,
    readFields sLoc true sPrefix idx fields = Ok (nodes, metas) ->
    Forall (fun n => exists k t', idx <= k /\ Val n = IPointer t' (Some (sLoc ++ [k]))) nodes
    /\ NoDup (map node_loc nodes)
    /\ Forall (fun m => exists k, idx <= k /\ loc (fieldValue m) = sLoc ++ [k]) metas
    /\ NoDup (locs metas).
Proof.
  induction fields as [|f fields IH]; intros idx nodes metas; cbn [readFields].
  - intros [= <- <-]. repeat split; constructor.
  - destruct (readField sLoc true sPrefix idx f) as [v| |] eqn:Ef; [|done..].
    destruct (readFields sLoc true sPrefix (S idx) fields) as [[ns ms]| |] eqn:Er; [|done..].
    destruct (IH _ _ _ Er) as (Hns & Hnd & Hms & Hmd).
    assert (Hns' : Forall (fun n => exists k t', idx <= k
                     /\ Val n = IPointer t' (Some (sLoc ++ [k]))) ns).
    { eapply Forall_impl; [exact Hns|]. intros n (k & t' & Hk & Hv). exists k, t'.
      split; [lia|done]. }
    assert (Hms' : Forall (fun m => exists k, idx <= k
                     /\ loc (fieldValue m) = sLoc ++ [k]) ms).
    { eapply Forall_impl; [exact Hms|]. intros m (k & Hk & Hv). exists k. split; [lia|done]. }
    destruct v as [n|m|]; intros [= <- <-].
    + apply readField_pushed in Ef as (_ & _ & ->).
      split; [constructor; [by exists idx, (fType f)|done]|].
      split; [|done]. cbn [map]. apply NoDup_cons. split; [|done].
      unfold node_loc at 1. cbn [Val].
      intros (n' & Heq & Hin)%list_elem_of_fmap.
      rewrite Forall_forall in Hns. destruct (Hns n' Hin) as (k & t' & Hk & Hv).
      unfold node_loc in Heq. rewrite Hv in Heq.
      apply app_inj_tail in Heq as [_ Heq]. lia.
    + apply readField_described in Ef as (_ & _ & Hloc & _).
      split; [done|]. split; [done|].
      split; [constructor; [by exists idx|done]|].
      unfold locs. cbn [map]. apply NoDup_cons. split; [|done].
      intros (m' & Heq & Hin)%list_elem_of_fmap.
      rewrite Forall_forall in Hms. destruct (Hms m' Hin) as (k & Hk & Hv).
      rewrite Hloc, Hv in Heq. apply app_inj_tail in Heq as [_ Heq]. lia.
    + done.
Qed.

Variable l : path.

Lemma worklist_inv_step (done : list path) (node : cfgNode) (rest nodes : list cfgNode)
      (metas ms : list structMeta) :
  worklist_inv l done (node :: rest) metas ->
  readNode node = Ok (nodes, ms) ->
  worklist_inv l (done ++ [node_loc node]) (rest ++ nodes) (metas ++ ms).
Proof.
  intros (Hnd & Hlen & Hfrom & Hptr & Hmfrom & Hmnd) Hread.
  apply Forall_cons in Hptr as [(t' & p & Hval) Hptr'].
  assert (Hp : node_loc node = p) by (unfold node_loc; by rewrite Hval).
  unfold readNode in Hread. rewrite Hval in Hread.
  destruct t' as [| | | | |u fields]; try done.
  apply readFields_locs in Hread as (Hns & Hnsd & Hms & Hmsd).
  cbn [map] in Hnd, Hlen, Hfrom. rewrite Hp in *.
  (* the record being read was not read before, and is none of the others *)
  apply NoDup_app in Hnd as (Hd & Hdq & Hq).
  apply NoDup_cons in Hq as [Hprest Hrestd].
  assert (Hpd : p ∉ done).
  { intros Hin. apply (Hdq p Hin). by left. }
  apply Forall_app in Hlen as [Hlen_d Hlen_q].
  apply Forall_cons in Hlen_q as [Hlen_p Hlen_rest].
  apply Forall_app in Hfrom as [Hfrom_d Hfrom_q].
  apply Forall_cons in Hfrom_q as [Hfrom_p Hfrom_rest].
  (* a nested record of [p] is none of the records met so far *)
  assert (Hchild : forall k x, x ∈ done ++ p :: map node_loc rest -> x <> p ++ [k]).
  { intros k x Hx ->.
    assert (Hx' : Forall (fun q => q = l \/ exists q' k, q' ∈ done /\ q = q' ++ [k])
                         (done ++ p :: map node_loc rest))
      by (apply Forall_app; split; [done|by constructor]).
    rewrite Forall_forall in Hx'. destruct (Hx' _ Hx) as [Heq|(q' & k' & Hq' & Heq)].
    - rewrite <- Heq in Hlen_p. rewrite length_app in Hlen_p. cbn in Hlen_p. lia.
    - apply app_inj_tail in Heq as [-> _]. done. }
  assert (Hnl : forall n, n ∈ nodes -> exists k, node_loc n = p ++ [k]).
  { intros n Hin. rewrite Forall_forall in Hns. destruct (Hns n Hin) as (k & t' & _ & Hv).
    exists k. unfold node_loc. by rewrite Hv. }
  assert (Hml : forall m, m ∈ ms -> exists k, loc (fieldValue m) = p ++ [k]).
  { intros m Hin. rewrite Forall_forall in Hms. destruct (Hms m Hin) as (k & _ & Hv). eauto. }
  repeat split.
  - rewrite map_app, <- app_assoc. apply NoDup_app. split; [done|]. split.
    + intros x Hx [->%list_elem_of_singleton|[Hin|Hin]%elem_of_app]%elem_of_app; [done| |].
      * apply (Hdq x Hx). by right.
      * apply list_elem_of_fmap in Hin as (n & -> & Hin). destruct (Hnl n Hin) as [k Hk].
        apply (Hchild k (node_loc n)); [|done]. apply elem_of_app. by left.
    + cbn [app]. apply NoDup_cons. split.
      * intros [Hin|Hin]%elem_of_app; [done|].
        apply list_elem_of_fmap in Hin as (n & Heq & Hin). destruct (Hnl n Hin) as [k Hk].
        apply (Hchild k p); [|congruence]. apply elem_of_app. right. by left.
      * apply NoDup_app. split; [done|]. split; [|done].
        intros x Hx Hin.
        apply list_elem_of_fmap in Hin as (n & -> & Hin). destruct (Hnl n Hin) as [k Hk].
        apply (Hchild k (node_loc n)); [|done]. apply elem_of_app. right. by right.
  - rewrite map_app, <- app_assoc. apply Forall_app. split; [done|].
    cbn [app]. constructor; [done|]. apply Forall_app. split; [done|].
    apply Forall_forall. intros x (n & -> & Hin)%list_elem_of_fmap.
    destruct (Hnl n Hin) as [k ->]. rewrite length_app. cbn. lia.
  - rewrite map_app, <- app_assoc.
    assert (Hmono : forall q, (q = l \/ exists q' k, q' ∈ done /\ q = q' ++ [k]) ->
                 q = l \/ exists q' k, q' ∈ done ++ [p] /\ q = q' ++ [k]).
    { intros q [->|(q' & k & Hq' & ->)]; [by left|right].
      exists q', k. split; [|done]. apply elem_of_app. by left. }
    apply Forall_app. split; [by eapply Forall_impl; [exact Hfrom_d|]|].
    cbn [app]. constructor; [by apply Hmono|].
    apply Forall_app. split; [by eapply Forall_impl; [exact Hfrom_rest|]|].
    apply Forall_forall. intros x (n & -> & Hin)%list_elem_of_fmap.
    destruct (Hnl n Hin) as [k ->]. right. exists p, k. split; [|done].
    apply elem_of_app. right. by left.
  - apply Forall_app. split; [done|].
    eapply Forall_impl; [exact Hns|]. intros n (k & t' & _ & Hv). eauto.
  - unfold locs. rewrite map_app. apply Forall_app. split.
    + eapply Forall_impl; [exact Hmfrom|]. intros x (q' & k & Hq' & ->).
      exists q', k. split; [|done]. apply elem_of_app. by left.
    + apply Forall_forall. intros x (m & -> & Hin)%list_elem_of_fmap.
      destruct (Hml m Hin) as [k ->]. exists p, k. split; [|done].
      apply elem_of_app. right. by left.
  - unfold locs. rewrite map_app. apply NoDup_app. split; [done|]. split; [|done].
    intros x Hx (m & -> & Hin)%list_elem_of_fmap.
    destruct (Hml m Hin) as [k Hk].
    rewrite Forall_forall in Hmfrom. destruct (Hmfrom _ Hx) as (q' & k' & Hq' & Heq).
    rewrite Hk in Heq. apply app_inj_tail in Heq as [-> _]. done.
Qed.

Lemma worklist_distinct (fuel : nat) :
  forall done cfgStack metas out,
    worklist_inv l done cfgStack metas ->
    worklist fuel cfgStack metas = Some (Ok out) ->
    NoDup (locs out).
Proof.
  induction fuel as [|fuel IH]; intros done [|node rest] metas out Hinv; cbn [worklist];
    try done; try (intros [= <-]; apply Hinv).
  destruct (readNode node) as [[nodes ms]| |] eqn:E; [|done..].
  apply (IH (done ++ [node_loc node])). by apply worklist_inv_step.
Qed.

End DistinctFacts.

(** X12.  The descriptors that [readStructMetadata] returns for a
    pointer to a record stand for pairwise distinct fields: no location
    occurs twice. *)
Theorem readStructMetadata_distinct (t : rtype) (l : path) (metaInfo : list structMeta) :
  readStructMetadata (IPointer t (Some l)) = Ok metaInfo ->
  NoDup (locs metaInfo).
Proof.
  intros Hread.
  pose proof (readStructMetadata_returns (IPointer t (Some l))) as Hw. rewrite Hread in Hw.
  eapply (worklist_distinct l _ []); [|exact Hw].
  unfold worklist_inv. cbn [map app node_loc Val locs].
  repeat split; repeat constructor; eauto.
  apply not_elem_of_nil.
Qed.

(** The three fields of [Levels], one of them in the nested record. *)
Lemma readStructMetadata_distinct_witness :
  NoDup (locs (default [] (match readStructMetadata (IPointer Levels (Some [])) with
                           | Ok metas => Some metas
                           | _ => None
                           end))).
Proof.
  refine (readStructMetadata_distinct Levels []
            (default [] (match readStructMetadata (IPointer Levels (Some [])) with
                         | Ok metas => Some metas
                         | _ => None
                         end)) _).
  reflexivity.
Defined.

(** X13.  When [ReadEnv] returns nil, every required field of the
    record, as [readStructMetadata] describes it, holds a value that is
    not zero. *)
Theorem ReadEnv_required_set (lib : GoLib) (environ : gmap string string)
        (t : rtype) (l : path) (appname : string) (st st' : store)
        (metaInfo : list structMeta) :
  readStructMetadata (IPointer t (Some l)) = Ok metaInfo ->
  ReadEnv lib environ (IPointer t (Some l)) appname st = (st', Nil) ->
  Forall (fun m => required m = true -> isFieldValueZero m st' = false) metaInfo.
Proof.
  intros Hread Hrun. unfold ReadEnv in Hrun. rewrite Hread in Hrun.
  destruct (readEnvVars lib environ metaInfo (toPrefix lib appname) st) as [st1 [[]|e|p]];
    [|done..].
  eapply finalize_checks_required; [|exact Hrun].
  pose proof (readStructMetadata_returns (IPointer t (Some l))) as Hw. rewrite Hread in Hw.
  eapply (worklist_distinct l _ []); [|exact Hw].
  unfold worklist_inv. cbn [map app node_loc Val locs].
  repeat split; repeat constructor; eauto.
  apply not_elem_of_nil.
Qed.

(** [Server] with its required name set. *)
Lemma ReadEnv_required_set_witness :
  Forall (fun m => required m = true ->
                   isFieldValueZero m (<[ [1] := VInt 8080 ]> (<[ [0] := VString "svc" ]> ∅)) = false)
         (default [] (match readStructMetadata (IPointer Server (Some [])) with
                      | Ok metas => Some metas
                      | _ => None
                      end)).
Proof.
  apply (ReadEnv_required_set no_parsers {[ "NAME" := "svc" ]} Server [] "" ∅); reflexivity.
Defined.

(** ** Prefixes and flag names *)

Section NameFacts.

Import GoStrings.

Lemma isASCII_all_bytes (s : string) : isASCII s = all_bytes (byte_in 0 127) s.
Proof.
  unfold isASCII. induction s as [|c s IH]; [done|].
  cbn [list_ascii_of_string forallb all_bytes]. by rewrite IH.
Qed.

Lemma all_bytes_app (P : ascii -> bool) (a b : string) :
  all_bytes P (a +:+ b) = all_bytes P a && all_bytes P b.
Proof.
  induction a as [|c a IH]; [done|].
  change (String c a +:+ b) with (String c (a +:+ b)).
  cbn [all_bytes]. by rewrite IH, andb_assoc.
Qed.

Lemma all_bytes_map (P : ascii -> bool) (f : ascii -> ascii) (s : string) :
  (forall c, P (f c) = true) -> all_bytes P (map_bytes f s) = true.
Proof.
  intros Hf. induction s as [|c s IH]; [done|].
  cbn [map_bytes all_bytes]. by rewrite Hf, IH.
Qed.

Lemma all_bytes_map_weak (P Q : ascii -> bool) (f : ascii -> ascii) (s : string) :
  (forall c, Q c = true -> P (f c) = true) ->
  all_bytes Q s = true -> all_bytes P (map_bytes f s) = true.
Proof.
  intros Hf. induction s as [|c s IH]; [done|].
  cbn [map_bytes all_bytes]. intros [Hc Hs]%andb_prop. by rewrite (Hf c Hc), IH.
Qed.

Lemma byte_val_of_nat (n : nat) : n < 256 -> byte_val (ascii_of_nat n) = n.
Proof. apply nat_ascii_embedding. Qed.

Lemma byte_val_bound (c : ascii) : byte_val c < 256.
Proof. apply nat_ascii_bounded. Qed.

Lemma upper_byte_ascii (c : ascii) : byte_in 0 127 c = true -> byte_in 0 127 (upper_byte c) = true.
Proof.
  unfold upper_byte. destruct (byte_in 97 122 c) eqn:E; [|done]. intros _.
  unfold byte_in in *. apply andb_prop in E as [H1%Nat.leb_le H2%Nat.leb_le].
  rewrite byte_val_of_nat by lia.
  apply andb_true_intro. split; apply Nat.leb_le; lia.
Qed.

Lemma upper_byte_idem (c : ascii) : upper_byte (upper_byte c) = upper_byte c.
Proof.
  destruct (byte_in 97 122 c) eqn:E.
  - assert (Hu : upper_byte c = ascii_of_nat (byte_val c - 32)) by (unfold upper_byte; by rewrite E).
    rewrite Hu. unfold upper_byte.
    assert (Hno : byte_in 97 122 (ascii_of_nat (byte_val c - 32)) = false); [|by rewrite Hno].
    unfold byte_in in *. apply andb_prop in E as [H1%Nat.leb_le H2%Nat.leb_le].
    rewrite byte_val_of_nat by lia.
    apply andb_false_intro1, Nat.leb_gt. lia.
  - assert (Hu : upper_byte c = c) by (unfold upper_byte; by rewrite E).
    by rewrite !Hu.
Qed.

Lemma upper_byte_underscore (c : ascii) : upper_byte c = "_"%char <-> c = "_"%char.
Proof.
  split; [|by intros ->].
  unfold upper_byte. destruct (byte_in 97 122 c) eqn:E; [|done].
  unfold byte_in in E. apply andb_prop in E as [H1%Nat.leb_le H2%Nat.leb_le].
  intros H. apply (f_equal byte_val) in H. rewrite byte_val_of_nat in H by lia.
  change (byte_val "_") with 95 in H. lia.
Qed.

Lemma map_bytes_idem (f : ascii -> ascii) (s : string) :
  (forall c, f (f c) = f c) -> map_bytes f (map_bytes f s) = map_bytes f s.
Proof.
  intros Hf. induction s as [|c s IH]; [done|]. cbn [map_bytes]. by rewrite Hf, IH.
Qed.

Lemma rev_app_append (a b c : string) :
  String.rev_app (a +:+ b) c = String.rev_app b (String.rev_app a c).
Proof.
  revert c. induction a as [|x a IH]; intros c; [done|].
  change (String x a +:+ b) with (String x (a +:+ b)). cbn [String.rev_app]. apply IH.
Qed.

Lemma rev_app_map_bytes (f : ascii -> ascii) (a c : string) :
  String.rev_app (map_bytes f a) (map_bytes f c) = map_bytes f (String.rev_app a c).
Proof.
  revert c. induction a as [|x a IH]; intros c; [done|].
  cbn [map_bytes String.rev_app]. apply (IH (String x c)).
Qed.

Lemma HasSuffix_append_underscore (s : string) : HasSuffix (s +:+ "_") "_" = true.
Proof.
  unfold HasSuffix, String.rev. rewrite rev_app_append.
  cbn [String.rev_app String.prefix].
  destruct (ascii_dec "_" "_"); [|done]. by destruct (String.rev_app s "").
Qed.

Lemma rev_map_bytes (f : ascii -> ascii) (s : string) :
  String.rev (map_bytes f s) = map_bytes f (String.rev s).
Proof. apply (rev_app_map_bytes f s ""). Qed.

Lemma HasSuffix_map_upper (s : string) :
  HasSuffix (map_bytes upper_byte s) "_" = HasSuffix s "_".
Proof.
  unfold HasSuffix. rewrite rev_map_bytes. change (String.rev "_") with "_".
  destruct (String.rev s) as [|x r]; [done|].
  cbn [map_bytes String.prefix].
  destruct (ascii_dec "_" (upper_byte x)) as [H|H], (ascii_dec "_" x) as [H'|H'].
  - by destruct r.
  - symmetry in H. apply (proj1 (upper_byte_underscore x)) in H. by subst x.
  - subst x. done.
  - done.
Qed.

Lemma map_bytes_nonempty (f : ascii -> ascii) (s : string) : s <> "" -> map_bytes f s <> "".
Proof. by destruct s. Qed.

Variable lib : GoLib.

Lemma ToUpper_ascii (s : string) :
  isASCII s = true -> ToUpper lib s = map_bytes upper_byte s.
Proof. unfold ToUpper. by intros ->. Qed.

(** [toPrefix] on a non-empty ASCII name: the name in upper case, with
    an underscore at the end if there was none. *)
Lemma toPrefix_ascii (name : string) :
  name <> "" -> isASCII name = true ->
  toPrefix lib name
  = map_bytes upper_byte (if HasSuffix name "_" then name else name +:+ "_").
Proof.
  intros Hne Hascii. unfold toPrefix. rewrite bool_decide_eq_false_2 by done.
  destruct (HasSuffix name "_"); cbn [negb]; apply ToUpper_ascii; [done|].
  rewrite isASCII_all_bytes in *. by rewrite all_bytes_app, Hascii.
Qed.

Lemma toPrefix_ascii_facts (name : string) :
  name <> "" -> isASCII name = true ->
  toPrefix lib name <> "" /\ isASCII (toPrefix lib name) = true
  /\ HasSuffix (toPrefix lib name) "_" = true.
Proof.
  intros Hne Hascii. rewrite toPrefix_ascii by done.
  destruct (HasSuffix name "_") eqn:E.
  - split; [by apply map_bytes_nonempty|]. split; [|by rewrite HasSuffix_map_upper].
    rewrite isASCII_all_bytes in *.
    by apply (all_bytes_map_weak _ (byte_in 0 127)); [apply upper_byte_ascii|].
  - split; [apply map_bytes_nonempty; by destruct name|].
    split; [|by rewrite HasSuffix_map_upper, HasSuffix_append_underscore].
    rewrite isASCII_all_bytes in *.
    apply (all_bytes_map_weak _ (byte_in 0 127)); [apply upper_byte_ascii|].
    by rewrite all_bytes_app, Hascii.
Qed.

End NameFacts.

(** X14.  For a non-empty ASCII application name, the prefix made by
    [toPrefix] ends in an underscore, [toPrefix] leaves it as it is, and a
    name without the underscore at its end gives the same prefix as the
    name with it. *)
Theorem toPrefix_normal (lib : GoLib) (name : string) :
  name <> "" -> GoStrings.isASCII name = true ->
  GoStrings.HasSuffix (toPrefix lib name) "_" = true
  /\ toPrefix lib (toPrefix lib name) = toPrefix lib name
  /\ (GoStrings.HasSuffix name "_" = false ->
      toPrefix lib (name +:+ "_") = toPrefix lib name).
Proof.
  intros Hne Hascii.
  destruct (toPrefix_ascii_facts lib name Hne Hascii) as (Hne' & Hascii' & Hsuf).
  split; [done|]. split.
  - rewrite (toPrefix_ascii lib (toPrefix lib name)) by done. rewrite Hsuf.
    rewrite (toPrefix_ascii lib name) by done.
    apply map_bytes_idem, upper_byte_idem.
  - intros Hno. rewrite (toPrefix_ascii lib name), Hno by done.
    rewrite toPrefix_ascii.
    + by rewrite HasSuffix_append_underscore.
    + by destruct name.
    + rewrite isASCII_all_bytes in *. by rewrite all_bytes_app, Hascii.
Qed.

(** The names ["app"] and ["app_"]. *)
Lemma toPrefix_normal_witness :
  toPrefix no_parsers ("app" +:+ "_") = toPrefix no_parsers "app"
  /\ toPrefix no_parsers (toPrefix no_parsers "app") = toPrefix no_parsers "app".
Proof.
  destruct (toPrefix_normal no_parsers "app") as (_ & H2 & H3); [done|reflexivity|].
  split; [by apply H3|exact H2].
Defined.

Section FlagNameFacts.

Import GoStrings.

Lemma lower_byte_not_upper (c : ascii) : byte_in 65 90 (lower_byte c) = false.
Proof.
  unfold lower_byte. destruct (byte_in 65 90 c) eqn:E; [|done].
  unfold byte_in in *. apply andb_prop in E as [H1%Nat.leb_le H2%Nat.leb_le].
  rewrite byte_val_of_nat by lia.
  apply andb_false_intro2, Nat.leb_gt. lia.
Qed.

(** The pieces of a split at a byte do not contain it, and are made of
    bytes of the string. *)
Lemma split_go_single_pieces (P : ascii -> bool) (c : ascii) (s : string) :
  all_bytes P s = true ->
  let Q := fun x => negb (bool_decide (x = c)) && P x in
  all_bytes Q (split_go (String c "") 0 s).1 = true
  /\ Forall (fun p => all_bytes Q p = true) (split_go (String c "") 0 s).2.
Proof.
  intros Hs Q. induction s as [|x s IH]; [by split; [|constructor]|].
  cbn [all_bytes] in Hs. apply andb_prop in Hs as [Hx Hs]. destruct (IH Hs) as [IH1 IH2].
  cbn [split_go]. rewrite HasPrefix_single.
  destruct (bool_decide (x = c)) eqn:E; cbn [String.length Nat.sub];
    destruct (split_go (String c "") 0 s) as [p ps]; cbn [fst snd] in *.
  - split; [done|by constructor].
  - split; [|done]. cbn [all_bytes]. unfold Q at 1. by rewrite E, Hx, IH1.
Qed.

Lemma all_bytes_Join (Q : ascii -> bool) (ps : list string) (sep : string) :
  all_bytes Q sep = true -> Forall (fun p => all_bytes Q p = true) ps ->
  all_bytes Q (Join ps sep) = true.
Proof.
  intros Hsep. induction 1 as [|p ps Hp Hps IH]; [done|].
  destruct ps as [|q ps]; [done|].
  change (Join (p :: q :: ps) sep) with (p +:+ sep +:+ Join (q :: ps) sep).
  by rewrite !all_bytes_app, Hp, Hsep, IH.
Qed.

End FlagNameFacts.

(** X15.  The flag name made from a first ASCII alias contains neither
    an underscore nor an upper case letter, whatever the name of the field
    and the other aliases; without aliases it is the field name in lower
    case. *)
Theorem toFlagName_shape (lib : GoLib) (name alias : string) (aliases : list string) :
  GoStrings.isASCII alias = true ->
  all_bytes flag_byte (toFlagName lib name (alias :: aliases)) = true
  /\ (GoStrings.isASCII name = true ->
      toFlagName lib name [] = GoStrings.map_bytes GoStrings.lower_byte name).
Proof.
  intros Hascii. split.
  - unfold toFlagName, GoStrings.ReplaceAll, ToLower, GoStrings.Split. rewrite Hascii.
    rewrite decide_False by done.
    pose proof (split_go_single_pieces (fun x => negb (byte_in 65 90 x)) "_"
                  (GoStrings.map_bytes GoStrings.lower_byte alias)) as H.
    destruct H as [H1 H2].
    { apply all_bytes_map. intros c. by rewrite lower_byte_not_upper. }
    destruct (GoStrings.split_go "_" 0 _) as [p ps]. cbn [fst snd] in *.
    apply all_bytes_Join; [done|]. by constructor.
  - intros Hname. unfold toFlagName, ToLower. by rewrite Hname.
Qed.

(** The alias ["DB_Port"]. *)
Lemma toFlagName_shape_witness :
  all_bytes flag_byte (toFlagName no_parsers "Port" ["DB_Port"; "PORT"]) = true.
Proof.
  apply (toFlagName_shape no_parsers "Port" "DB_Port" ["PORT"]). reflexivity.
Defined.

(** ** Lists of lists, and blank values *)

Section NestedFacts.

Variable lib : GoLib.

Lemma has_byte_all_bytes (c : ascii) (s : string) :
  all_bytes (fun x => negb (bool_decide (x = c)) && true) s = true -> has_byte c s = false.
Proof.
  induction s as [|x s IH]; [done|]. cbn [all_bytes has_byte].
  intros [Hx Hs]%andb_prop. rewrite (IH Hs).
  by destruct (bool_decide (x = c)).
Qed.

(** The pieces of a split at a byte do not contain that byte. *)
Lemma Split_single_pieces (c : ascii) (s : string) :
  Forall (fun p => has_byte c p = false) (GoStrings.Split s (String c "")).
Proof.
  unfold GoStrings.Split. rewrite decide_False by done.
  assert (Hs : all_bytes (fun _ => true) s = true) by (induction s; [done|by cbn]).
  destruct (split_go_single_pieces (fun _ => true) c s Hs) as [H1 H2].
  destruct (GoStrings.split_go (String c "") 0 s) as [p ps]. cbn [fst snd] in *.
  constructor; [by apply has_byte_all_bytes|].
  eapply Forall_impl; [exact H2|]. intros q. apply has_byte_all_bytes.
Qed.

Lemma parseElems_Forall (f : string -> effect) (z : Value) (P : Value -> Prop)
      (xs : list string) (vs : list Value) :
  parseElems f z xs = Ok vs ->
  (forall x w, x ∈ xs -> f x = (w, Nil) -> P (default z w)) ->
  Forall P vs.
Proof.
  revert vs. induction xs as [|x xs IH]; intros vs; cbn [parseElems].
  - intros [= <-] _. constructor.
  - destruct (f x) as [w [[]|e|p]] eqn:E; [|done..].
    destruct (parseElems f z xs) as [vs'| |]; [|done..].
    intros [= <-] H. constructor.
    + apply (H x w); [by left|done].
    + apply IH; [done|]. intros y w' Hy. apply H. by right.
Qed.

(** The elements of the coerced list, when each piece gives a known
    value. *)
Lemma parseElems_map (f : string -> effect) (z : Value) (g : string -> Value)
      (xs : list string) (vs : list Value) :
  parseElems f z xs = Ok vs ->
  (forall x w, x ∈ xs -> f x = (w, Nil) -> default z w = g x) ->
  vs = map g xs.
Proof.
  revert vs. induction xs as [|x xs IH]; intros vs; cbn [parseElems map].
  - by intros [= <-] _.
  - destruct (f x) as [w [[]|e|p]] eqn:E; [|done..].
    destruct (parseElems f z xs) as [vs'| |]; [|done..].
    intros [= <-] H. f_equal.
    + apply (H x w); [by left|done].
    + apply IH; [done|]. intros y w' Hy. apply H. by right.
Qed.

End NestedFacts.

(** X16.  In a list of lists both levels are given the same
    separator.  Where the inner elements are not bytes, the pieces of the
    outer split are split again at it, so an inner list never gets more
    than one element: for a one-byte separator, every element of the
    coerced outer list is a list of at most one element.  Where the inner
    elements are bytes, every inner list is the bytes of one piece. *)
Theorem parseSlice_nested (lib : GoLib) (u u' : uncommon) (e : rtype) (c : ascii)
        (value : string) (layout : option string) (vs : list Value) :
  (forall field, AsSetter u' field = None) ->
  parseSlice lib (TSlice u (TSlice u' e)) value (String c "") layout = Ok (VSlice vs) ->
  (Kind_of e <> Uint8 ->
   Forall (fun v => exists xs, v = VSlice xs /\ length xs <= 1) vs)
  /\ (Kind_of e = Uint8 ->
      vs = if nonblank value
           then map (fun piece => VSlice (bytes_of piece))
                    (GoStrings.Split value (String c ""))
           else []).
Proof.
  intros Hset Hparse.
  assert (Houter : Kind_of (TSlice u' e) <> Uint8) by done.
  destruct (nonblank value) eqn:Hnb.
  2:{ rewrite parseSlice_blank in Hparse by done. injection Hparse as <-.
      split; [constructor|done]. }
  rewrite parseSlice_split in Hparse by done.
  destruct (parseElems _ _ _) as [vs'| |] eqn:E; [|done..]. injection Hparse as <-.
  split; intros Hk.
  - eapply parseElems_Forall; [exact E|].
    intros piece w Hin Hpiece. cbv beta in Hpiece.
    rewrite parseValue_slice in Hpiece by apply Hset.
    assert (Hfree : has_byte c piece = false).
    { pose proof (Split_single_pieces c value) as H. rewrite Forall_forall in H. by apply H. }
    assert (Hassign : slice_assignable (TSlice u' e) = true).
    { unfold slice_assignable. by rewrite decide_False. }
    rewrite Hassign in Hpiece.
    destruct (nonblank piece) eqn:Hpb.
    + rewrite parseSlice_split in Hpiece by done.
      rewrite Split_single_free in Hpiece by done.
      destruct (parseElems _ _ [piece]) as [xs| |] eqn:Ex; [|done..].
      injection Hpiece as <-. apply parseElems_length in Ex. cbn in *.
      exists xs. split; [done|lia].
    + rewrite parseSlice_blank in Hpiece by done. injection Hpiece as <-.
      exists []. split; [done|]. cbn. lia.
  - eapply parseElems_map; [exact E|].
    intros piece w Hin Hpiece. cbv beta in Hpiece.
    rewrite parseValue_slice in Hpiece by apply Hset.
    assert (Hs : parseSlice lib (TSlice u' e) piece (String c "") layout
                 = Ok (VSlice (bytes_of piece))).
    { unfold parseSlice, parseSlice_with. by rewrite decide_True. }
    rewrite Hs in Hpiece.
    destruct (slice_assignable (TSlice u' e)); [|done].
    by injection Hpiece as <-.
Qed.

(** A list of lists of strings, and a list of byte lists, from ["ab,cd"]. *)
Lemma parseSlice_nested_witness :
  Forall (fun v => exists xs, v = VSlice xs /\ length xs <= 1)
         [VSlice [VString "ab"]; VSlice [VString "cd"]]
  /\ [VSlice [VUint 97; VUint 98]; VSlice [VUint 99; VUint 100]]
     = map (fun piece => VSlice (bytes_of piece)) ["ab"; "cd"].
Proof.
  split.
  - apply (parseSlice_nested no_parsers (plain "" "") (plain "" "") string_t ","%char
             "ab,cd" None); [done|reflexivity|done].
  - apply (parseSlice_nested no_parsers (plain "" "") (plain "" "") uint8_t ","%char
             "ab,cd" None); [done|reflexivity|done].
Defined.

(** X17.  A blank raw string coerced into a list (other than of bytes)
    or a map gives an empty list or map, not nil: the field then counts as
    set, so [finalize] neither applies its default nor misses it when it
    is required. *)
Theorem blank_counts_as_set (lib : GoLib) (meta : structMeta) (raw : string) (st : store) :
  nonblank raw = false ->
  (exists u e, typ (fieldValue meta) = TSlice u e /\ Kind_of e <> Uint8)
  \/ (exists u k e, typ (fieldValue meta) = TMap u k e) ->
  AsSetter (uncommon_of (typ (fieldValue meta))) (load st (fieldValue meta)) = None ->
  exists st',
    parseField lib meta raw st = (st', Nil)
    /\ (load st' (fieldValue meta) = VSlice [] \/ load st' (fieldValue meta) = VMap [])
    /\ isFieldValueZero meta st' = false
    /\ finalize lib [meta] st' = (st', Nil).
Proof.
  intros Hblank Hty Hset.
  assert (H : exists v, parseField lib meta raw st = (<[ loc (fieldValue meta) := v ]> st, Nil)
                        /\ (v = VSlice [] \/ v = VMap [])).
  { unfold parseField.
    destruct Hty as [(u & e & Hty & Hk)|(u & k & e & Hty)]; rewrite Hty in *;
      cbn [uncommon_of] in Hset.
    - rewrite parseValue_slice, parseSlice_blank by done.
      unfold slice_assignable. rewrite decide_False by done. eauto.
    - rewrite parseValue_map by done. unfold parseMap, parseMap_with.
      fold (nonblank raw). rewrite Hblank. cbn [negb]. eauto. }
  destruct H as (v & Hparse & Hv).
  exists (<[ loc (fieldValue meta) := v ]> st).
  assert (Hload : load (<[ loc (fieldValue meta) := v ]> st) (fieldValue meta) = v)
    by apply load_insert.
  assert (Hz : isFieldValueZero meta (<[ loc (fieldValue meta) := v ]> st) = false).
  { unfold isFieldValueZero. rewrite Hload. by destruct Hv as [-> | ->]. }
  split; [done|]. split; [by rewrite Hload|]. split; [done|].
  cbn [finalize]. by rewrite Hz, andb_false_r.
Qed.

(** A required list of strings with a default, set to the empty string. *)
Lemma blank_counts_as_set_witness :
  exists st',
    parseField no_parsers
               {| envList := ["HOSTS"]; fieldName := "Hosts";
                  fieldValue := {| loc := [0]; typ := strings_t |};
                  defValue := Some "a,b"; layout := None; separator := ",";
                  description := ""; required := true |} "" ∅ = (st', Nil)
    /\ (load st' {| loc := [0]; typ := strings_t |} = VSlice []
        \/ load st' {| loc := [0]; typ := strings_t |} = VMap [])
    /\ isZero (load st' {| loc := [0]; typ := strings_t |}) = false
    /\ finalize no_parsers
                [{| envList := ["HOSTS"]; fieldName := "Hosts";
                    fieldValue := {| loc := [0]; typ := strings_t |};
                    defValue := Some "a,b"; layout := None; separator := ",";
                    description := ""; required := true |}] st' = (st', Nil).
Proof.
  apply (blank_counts_as_set no_parsers
           {| envList := ["HOSTS"]; fieldName := "Hosts";
              fieldValue := {| loc := [0]; typ := strings_t |};
              defValue := Some "a,b"; layout := None; separator := ",";
              description := ""; required := true |} "" ∅).
  - reflexivity.
  - left. exists (plain "" ""), string_t. split; [reflexivity|discriminate].
  - reflexivity.
Defined.

(** ** The description of the variables *)

Section DescriptionFacts.

Variable Quote : string -> string.

Lemma prefix_append (h d : string) : String.prefix h (h +:+ d) = true.
Proof.
  induction h as [|a h IH]; [by destruct d|].
  change (String a h +:+ d) with (String a (h +:+ d)). cbn [String.prefix].
  by destruct (ascii_dec a a).
Qed.

Lemma append_nonempty_r (a b : string) : b <> "" -> a +:+ b <> "".
Proof. intros Hb. destruct a; [done|]. discriminate. Qed.

(** A name makes the lines of its descriptor start with a line feed. *)
Lemma describeEnvs_cons (m : structMeta) (idx : nat) (env : string) (rest : list string) :
  exists d, describeEnvs Quote m idx (env :: rest) = String "010" d.
Proof.
  cbn [describeEnvs]. unfold newline.
  destruct (0 <? idx)%nat, (defValue m); cbn; eauto.
Qed.

Lemma describeAll_empty (meta : list structMeta) :
  describeAll Quote meta = "" <-> Forall (fun m => envList m = []) meta.
Proof.
  induction meta as [|m meta IH]; cbn [describeAll].
  - split; [constructor|done].
  - destruct (envList m) as [|env rest] eqn:E.
    + cbn [describeEnvs]. change ("" ++ describeAll Quote meta)%string with (describeAll Quote meta).
      rewrite IH. split; [by constructor|by inversion 1].
    + destruct (describeEnvs_cons m 0 env rest) as [d ->]. split; [done|].
      inversion 1; congruence.
Qed.

Lemma describeAll_nonempty (meta : list structMeta) :
  describeAll Quote meta <> "" -> exists d, describeAll Quote meta = String "010" d.
Proof.
  induction meta as [|m meta IH]; cbn [describeAll]; [done|].
  destruct (envList m) as [|env rest] eqn:E.
  - cbn [describeEnvs]. apply IH.
  - destruct (describeEnvs_cons m 0 env rest) as [d ->]. intros _. cbn. eauto.
Qed.

End DescriptionFacts.

(** X18.  [GetDescription] returns the empty string, without the header,
    exactly when no descriptor has a name; otherwise it returns the header
    followed by lines that start with a line feed.  It fails exactly as
    [readStructMetadata] does. *)
Theorem GetDescription_shape (Quote : string -> string) (cfg : iface)
        (headerText : option string) (meta : list structMeta) :
  readStructMetadata cfg = Ok meta ->
  let header := default "Environment variables:" headerText in
  exists s,
    GetDescription Quote cfg headerText = Ok s
    /\ (Forall (fun m => envList m = []) meta -> s = "")
    /\ (~ Forall (fun m => envList m = []) meta ->
        GoStrings.HasPrefix s header = true
        /\ exists d, s = header +:+ String "010" d).
Proof.
  intros Hread header. unfold GetDescription. rewrite Hread.
  replace (match headerText with Some h => h | None => "Environment variables:" end)
    with header by (by destruct headerText).
  destruct (decide (describeAll Quote meta = "")) as [Hd|Hd].
  - rewrite bool_decide_eq_true_2 by done. cbn [negb]. exists "". split; [done|].
    split; [done|]. intros Hne. by apply (proj1 (describeAll_empty Quote meta)) in Hd.
  - rewrite bool_decide_eq_false_2 by done. cbn [negb].
    exists (header +:+ describeAll Quote meta). split; [done|]. split.
    + intros Hall. by apply (proj2 (describeAll_empty Quote meta)) in Hall.
    + intros _. split; [apply prefix_append|].
      destruct (describeAll_nonempty Quote meta Hd) as [d ->]. eauto.
Qed.

(** [RequiredPort] under the header ["Variables:"]. *)
Lemma GetDescription_shape_witness :
  exists s,
    GetDescription (fun s => s) (IPointer RequiredPort (Some [])) (Some "Variables:") = Ok s
    /\ GoStrings.HasPrefix s "Variables:" = true.
Proof.
  destruct (GetDescription_shape (fun s => s) (IPointer RequiredPort (Some []))
              (Some "Variables:") [Port_at [0] ["PORT"] (Some "8080") true] eq_refl)
    as (s & Hs & _ & H).
  exists s. split; [exact Hs|]. apply H. by inversion 1.
Defined.

(** ** Coerced integers fit their target *)

Section BoundFacts.

Import Strconv.
Local Open Scope Z_scope.

Lemma scan_digits_bound (base0 : bool) (base cutoff maxVal : Z) (s : string) :
  forall n u n' u',
    0 <= n <= maxVal ->
    scan_digits base0 base cutoff maxVal s n u = Scanned n' u' ->
    0 <= n' <= maxVal.
Proof.
  induction s as [|c s IH]; intros n u n' u' Hn; cbn [scan_digits].
  - by intros [= <- _].
  - destruct (byte_is 95 c && base0); [by apply IH|].
    destruct (if byte_in 48 57 c then _ else _) as [d|]; [|done].
    destruct (base <=? d); [done|].
    destruct (cutoff <=? n); [done|].
    destruct ((n * base + d) mod 2 ^ 64 <? n * base) eqn:E1; [done|].
    destruct (maxVal <? (n * base + d) mod 2 ^ 64) eqn:E2; [done|].
    cbn [orb]. apply IH. apply Z.ltb_ge in E2.
    pose proof (Z.mod_pos_bound (n * base + d) (2 ^ 64) ltac:(lia)). lia.
Qed.

Lemma ParseUint_bound (s : string) (base bitSize n : Z) (err : option error) :
  1 <= bitSize <= 64 ->
  ParseUint s base bitSize = (n, err) ->
  0 <= n <= 2 ^ bitSize - 1.
Proof.
  intros Hb. unfold ParseUint.
  assert (Hmax : 0 <= 2 ^ bitSize - 1).
  { pose proof (Z.pow_pos_nonneg 2 bitSize ltac:(lia) ltac:(lia)). lia. }
  destruct (decide (s = "")); [by intros [= <- _]|].
  destruct (if (2 <=? base) && (base <=? 36) then _ else _) as [[base' s']|];
    [|by intros [= <- _]].
  replace (bitSize =? 0) with false by (symmetry; apply Z.eqb_neq; lia).
  replace ((bitSize <? 0) || (64 <? bitSize)) with false.
  2:{ symmetry. apply orb_false_intro; apply Z.ltb_ge; lia. }
  destruct (scan_digits _ _ _ _ _ _ _) as [n' u'| |] eqn:E.
  - apply scan_digits_bound in E; [|lia].
    destruct (u' && negb (underscoreOK s)); by intros [= <- _].
  - by intros [= <- _].
  - intros [= <- _]. lia.
Qed.

Lemma ParseInt_bound (s : string) (base bitSize n : Z) :
  2 <= bitSize <= 64 ->
  ParseInt s base bitSize = (n, None) ->
  - 2 ^ (bitSize - 1) <= n <= 2 ^ (bitSize - 1) - 1.
Proof.
  intros Hb. unfold ParseInt.
  destruct (decide (s = "")); [done|].
  destruct (match s with String c s' => _ | _ => _ end) as [neg s1].
  destruct (ParseUint s1 base bitSize) as [un err] eqn:E.
  apply ParseUint_bound in E; [|lia].
  replace (bitSize =? 0) with false by (symmetry; apply Z.eqb_neq; lia).
  assert (Hgoal :
    (if negb neg && (2 ^ (bitSize - 1) <=? un)
     then (2 ^ (bitSize - 1) - 1, Some (NumError "ParseInt" s ErrRange))
     else if neg && (2 ^ (bitSize - 1) <? un)
          then (- 2 ^ (bitSize - 1), Some (NumError "ParseInt" s ErrRange))
          else (if neg then - un else un, None)) = (n, None) ->
    - 2 ^ (bitSize - 1) <= n <= 2 ^ (bitSize - 1) - 1);
    [|by destruct err as [[? ? []| | | | |]|]].
  destruct (negb neg && (2 ^ (bitSize - 1) <=? un)) eqn:E1; [done|].
  destruct (neg && (2 ^ (bitSize - 1) <? un)) eqn:E2; [done|].
  intros [= <-].
  destruct neg; cbn [negb andb] in E1, E2.
  - apply Z.ltb_ge in E2. lia.
  - apply Z.leb_gt in E1.
    pose proof (Z.pow_pos_nonneg 2 (bitSize - 1) ltac:(lia) ltac:(lia)). lia.
Qed.

End BoundFacts.

(** X19.  An integer that [parseValue] writes fits the width of its
    target: a signed target of [b] bits receives a value from [-2^(b-1)]
    to [2^(b-1) - 1], an unsigned one a value from 0 to [2^b - 1]; what
    does not fit is an error and not a wrapped value. *)
Theorem parseValue_integer_fits (lib : GoLib) (u : uncommon) (k : Kind) (field : Value)
        (value sep : string) (layout : option string) (w : option Value) :
  AsSetter u field = None ->
  is_time "Duration" (TBasic u k) = false ->
  parseValue lib (TBasic u k) field value sep layout = (w, Nil) ->
  (signed_kind k = true ->
   exists n, w = Some (VInt n)
             /\ (- 2 ^ (Bits (TBasic u k) - 1) <= n <= 2 ^ (Bits (TBasic u k) - 1) - 1)%Z)
  /\ (unsigned_kind k = true ->
      exists n, w = Some (VUint n) /\ (0 <= n <= 2 ^ Bits (TBasic u k) - 1)%Z).
Proof.
  intros Hset Hdur. cbn [parseValue uncommon_of Kind_of]. rewrite Hset.
  split; intros Hk; destruct k; try done; revert H;
    rewrite ?Hdur, ?andb_false_r;
    match goal with
    | |- context [Strconv.ParseInt value 0 ?b] =>
      destruct (Strconv.ParseInt value 0 b) as [n [err|]] eqn:E; [done|];
      intros [= <-]; exists n; split; [done|];
      by apply (ParseInt_bound value 0) in E
    | |- context [Strconv.ParseUint value 0 ?b] =>
      destruct (Strconv.ParseUint value 0 b) as [n [err|]] eqn:E; [done|];
      intros [= <-]; exists n; split; [done|];
      by apply (ParseUint_bound value 0) in E
    end.
Qed.

(** The literal ["127"] for an [int8]. *)
Lemma parseValue_integer_fits_witness :
  exists n, Some (VInt 127) = Some (VInt n) /\ (- 2 ^ (8 - 1) <= n <= 2 ^ (8 - 1) - 1)%Z.
Proof.
  apply (parseValue_integer_fits no_parsers (plain "" "int8") Int8 (VInt 0) "127" "," None);
    reflexivity.
Defined.

(** ** What the passes leave in the record *)

Section PostFacts.

Variable lib : GoLib.

Lemma load_frame (h : handle) (st st' : store) :
  st' !! loc h = st !! loc h -> load st' h = load st h.
Proof. unfold load. by intros ->. Qed.

Lemma parseField_coerced (meta : structMeta) (raw : string) (st st' : store) :
  parseField lib meta raw st = (st', Nil) -> coerced lib meta raw st st'.
Proof.
  unfold parseField, coerced.
  destruct (parseValue _ _ _ _ _ _) as [[v|] s]; intros [= <- ->].
  - exists (Some v). split; [done|]. apply load_insert.
  - by exists None.
Qed.

Lemma coerced_frame (meta : structMeta) (raw : string) (st0 st st' st'' : store) :
  st !! loc (fieldValue meta) = st0 !! loc (fieldValue meta) ->
  st'' !! loc (fieldValue meta) = st' !! loc (fieldValue meta) ->
  coerced lib meta raw st st' -> coerced lib meta raw st0 st''.
Proof.
  intros H0 H1 (w & Hw & Hl). exists w.
  rewrite <- (load_frame _ _ _ H0). split; [done|].
  by rewrite (load_frame _ _ _ H1).
Qed.

End PostFacts.

Lemma readEnvVars_post (lib : GoLib) (environ : gmap string string)
        (metaInfo : list structMeta) (prefix : string) (st st' : store) :
  NoDup (locs metaInfo) ->
  readEnvVars lib environ metaInfo prefix st = (st', Nil) ->
  Forall (fun m => match firstEnv environ prefix (envList m) with
                   | Some raw => coerced lib m raw st st'
                   | None => untouched m st st'
                   end) metaInfo.
Proof.
  revert st st'. induction metaInfo as [|m metaInfo IH]; intros st st' Hnd Hrun; [constructor|].
  unfold locs in Hnd. cbn [map] in Hnd. apply NoDup_cons in Hnd as [Hm Hnd].
  cbn [readEnvVars] in Hrun.
  destruct (firstEnv environ prefix (envList m)) as [raw|] eqn:Hraw.
  - destruct (parseField lib m raw st) as [st1 [[]|e|p]] eqn:Hp; [|done..].
    pose proof (readEnvVars_frame lib environ metaInfo prefix st1 _ Hm) as Hframe.
    rewrite Hrun in Hframe. cbn [fst] in Hframe.
    constructor.
    + rewrite Hraw. apply parseField_coerced in Hp.
      by apply (coerced_frame lib m raw st st st1 st').
    + specialize (IH st1 st' Hnd Hrun). rewrite Forall_forall in IH.
      apply Forall_forall. intros m' Hin. specialize (IH m' Hin).
      assert (Hne : loc (fieldValue m') <> loc (fieldValue m)).
      { intros Heq. apply Hm. rewrite <- Heq. apply list_elem_of_fmap. eauto. }
      pose proof (parseField_frame lib m raw st st1 _ _ Hp Hne) as H1.
      destruct (firstEnv environ prefix (envList m')) as [raw'|].
      * by apply (coerced_frame lib m' raw' st st1 st' st').
      * unfold untouched in *. by rewrite IH, (load_frame _ _ _ H1).
  - pose proof (readEnvVars_frame lib environ metaInfo prefix st _ Hm) as Hframe.
    rewrite Hrun in Hframe. cbn [fst] in Hframe.
    constructor; [|by apply IH].
    rewrite Hraw. by apply load_frame.
Qed.

Lemma finalize_post (lib : GoLib) (metaInfo : list structMeta) (st st' : store) :
  NoDup (locs metaInfo) ->
  finalize lib metaInfo st = (st', Nil) ->
  Forall (fun m => match isFieldValueZero m st, defValue m with
                   | true, Some def => coerced lib m def st st'
                   | _, _ => untouched m st st'
                   end) metaInfo.
Proof.
  revert st st'. induction metaInfo as [|m metaInfo IH]; intros st st' Hnd Hrun; [constructor|].
  unfold locs in Hnd. cbn [map] in Hnd. apply NoDup_cons in Hnd as [Hm Hnd].
  cbn [finalize] in Hrun.
  destruct (required m && isFieldValueZero m st); [done|].
  assert (Hskip : finalize lib metaInfo st = (st', Nil) ->
            untouched m st st'
            /\ Forall (fun m => match isFieldValueZero m st, defValue m with
                                | true, Some def => coerced lib m def st st'
                                | _, _ => untouched m st st'
                                end) metaInfo).
  { intros Hrest. split; [|by apply IH].
    pose proof (finalize_frame lib metaInfo st _ Hm) as Hframe.
    rewrite Hrest in Hframe. by apply load_frame. }
  destruct (isFieldValueZero m st) eqn:Hz.
  2:{ destruct (Hskip Hrun) as [Hhead Hrest]. constructor; [|exact Hrest].
      rewrite Hz. exact Hhead. }
  destruct (defValue m) as [def|] eqn:Hdef.
  2:{ destruct (Hskip Hrun) as [Hhead Hrest]. constructor; [|exact Hrest].
      rewrite Hz, Hdef. exact Hhead. }
  destruct (parseField lib m def st) as [st1 [[]|e|p]] eqn:Hp; [|done..].
  pose proof (finalize_frame lib metaInfo st1 _ Hm) as Hframe.
  rewrite Hrun in Hframe. cbn [fst] in Hframe.
  constructor.
  - rewrite Hz, Hdef. apply parseField_coerced in Hp.
    by apply (coerced_frame lib m def st st st1 st').
  - specialize (IH st1 st' Hnd Hrun). rewrite Forall_forall in IH.
    apply Forall_forall. intros m' Hin. specialize (IH m' Hin).
    assert (Hne : loc (fieldValue m') <> loc (fieldValue m)).
    { intros Heq. apply Hm. rewrite <- Heq. apply list_elem_of_fmap. eauto. }
    pose proof (parseField_frame lib m def st st1 _ _ Hp Hne) as H1.
    assert (Hzero : isFieldValueZero m' st1 = isFieldValueZero m' st).
    { unfold isFieldValueZero. by rewrite (load_frame _ _ _ H1). }
    rewrite Hzero in IH.
    destruct (isFieldValueZero m' st), (defValue m') as [def'|];
      try (unfold untouched in *; by rewrite IH, (load_frame _ _ _ H1)).
    by apply (coerced_frame lib m' def' st st1 st' st').
Qed.

(** A required field that is zero makes [finalize] fail, at this field
    or before it. *)
Lemma finalize_required_zero (lib : GoLib) (metaInfo : list structMeta) (m : structMeta) :
  forall st st',
    NoDup (locs metaInfo) ->
    m ∈ metaInfo ->
    required m = true ->
    isFieldValueZero m st = true ->
    finalize lib metaInfo st <> (st', Nil).
Proof.
  induction metaInfo as [|m0 metaInfo IH]; intros st st' Hnd Hin Hreq Hz.
  { by apply elem_of_nil in Hin. }
  unfold locs in Hnd. cbn [map] in Hnd. apply NoDup_cons in Hnd as [Hm Hnd].
  cbn [finalize].
  apply elem_of_cons in Hin as [<-|Hin]; [by rewrite Hreq, Hz|].
  destruct (required m0 && isFieldValueZero m0 st); [done|].
  assert (Hne : loc (fieldValue m) <> loc (fieldValue m0)).
  { intros Heq. apply Hm. rewrite <- Heq. apply list_elem_of_fmap. eauto. }
  destruct (isFieldValueZero m0 st); [|by apply IH].
  destruct (defValue m0) as [def|]; [|by apply IH].
  destruct (parseField lib m0 def st) as [st1 [[]|e|p]] eqn:Hp; [|done..].
  apply IH; [done..|].
  pose proof (parseField_frame lib m0 def st st1 _ _ Hp Hne) as H1.
  unfold isFieldValueZero. by rewrite (load_frame _ _ _ H1).
Qed.

(** X20.  When [readEnvVars] returns nil over descriptors of pairwise
    distinct fields, every field with a name that is set holds what the
    coercion of the first such value made of it, and every other field of
    the descriptors holds what it held. *)
Theorem readEnvVars_bound (lib : GoLib) (environ : gmap string string)
        (metaInfo : list structMeta) (prefix : string) (st st' : store) :
  NoDup (locs metaInfo) ->
  readEnvVars lib environ metaInfo prefix st = (st', Nil) ->
  Forall (fun m => match firstEnv environ prefix (envList m) with
                   | Some raw => coerced lib m raw st st'
                   | None => untouched m st st'
                   end) metaInfo.
Proof. apply readEnvVars_post. Qed.

(** The name is set, the port is not. *)
Lemma readEnvVars_bound_witness :
  Forall (fun m => match firstEnv {[ "NAME" := "svc" ]} "" (envList m) with
                   | Some raw => coerced no_parsers m raw ∅ (<[ [0] := VString "svc" ]> ∅)
                   | None => untouched m ∅ (<[ [0] := VString "svc" ]> ∅)
                   end)
         [Name_meta; Port_at [1] ["PORT"] None false].
Proof.
  apply (readEnvVars_bound no_parsers {[ "NAME" := "svc" ]}); [|reflexivity].
  unfold locs. cbn. compute_done.
Defined.

(** X21.  When [finalize] returns nil over descriptors of pairwise
    distinct fields, every field that was zero and has a default holds
    what the coercion of the default made of it, and every other field of
    the descriptors holds what it held. *)
Theorem finalize_defaults (lib : GoLib) (metaInfo : list structMeta) (st st' : store) :
  NoDup (locs metaInfo) ->
  finalize lib metaInfo st = (st', Nil) ->
  Forall (fun m => match isFieldValueZero m st, defValue m with
                   | true, Some def => coerced lib m def st st'
                   | _, _ => untouched m st st'
                   end) metaInfo.
Proof. apply finalize_post. Qed.

(** The name is set, the port takes its default. *)
Lemma finalize_defaults_witness :
  Forall (fun m => match isFieldValueZero m (<[ [0] := VString "svc" ]> ∅), defValue m with
                   | true, Some def =>
                     coerced no_parsers m def (<[ [0] := VString "svc" ]> ∅)
                             (<[ [1] := VInt 8080 ]> (<[ [0] := VString "svc" ]> ∅))
                   | _, _ =>
                     untouched m (<[ [0] := VString "svc" ]> ∅)
                               (<[ [1] := VInt 8080 ]> (<[ [0] := VString "svc" ]> ∅))
                   end)
         [Name_meta; Port_at [1] ["PORT"] (Some "8080") false].
Proof.
  apply (finalize_defaults no_parsers); [|reflexivity].
  unfold locs. cbn. compute_done.
Defined.

(** ** A zero that a source supplies *)

(** C10, as the code has it.  A value that a source supplies and that
    [isZero] reports as zero counts as not set.  For a field with a
    default that is not required, [ReadEnv] then returns nil only with
    the field at what the coercion of the default made of it; for a
    required field [ReadEnv] does not return nil, default or not. *)
Theorem ReadEnv_zero_overridden (lib : GoLib) (environ : gmap string string)
        (t : rtype) (l : path) (appname : string) (st st1 : store)
        (metaInfo : list structMeta) (m : structMeta) (raw def : string) :
  readStructMetadata (IPointer t (Some l)) = Ok metaInfo ->
  m ∈ metaInfo ->
  defValue m = Some def ->
  firstEnv environ (toPrefix lib appname) (envList m) = Some raw ->
  readEnvVars lib environ metaInfo (toPrefix lib appname) st = (st1, Nil) ->
  isFieldValueZero m st1 = true ->
  coerced lib m raw st st1
  /\ (required m = false ->
      forall st', ReadEnv lib environ (IPointer t (Some l)) appname st = (st', Nil) ->
                  coerced lib m def st1 st')
  /\ (required m = true ->
      forall st', ReadEnv lib environ (IPointer t (Some l)) appname st <> (st', Nil)).
Proof.
  intros Hread Hin Hdef Hraw Hpass Hz.
  assert (Hnd : NoDup (locs metaInfo)).
  { pose proof (readStructMetadata_returns (IPointer t (Some l))) as Hw. rewrite Hread in Hw.
    eapply (worklist_distinct l _ []); [|exact Hw].
    unfold worklist_inv. cbn [map app node_loc Val locs].
    repeat split; repeat constructor; eauto.
    apply not_elem_of_nil. }
  split; [|split].
  - pose proof (readEnvVars_post lib environ metaInfo _ st st1 Hnd Hpass) as Hpost.
    rewrite Forall_forall in Hpost. specialize (Hpost m Hin). by rewrite Hraw in Hpost.
  - intros Hreq st' Hrun. unfold ReadEnv in Hrun. rewrite Hread, Hpass in Hrun.
    pose proof (finalize_post lib metaInfo st1 st' Hnd Hrun) as Hpost.
    rewrite Forall_forall in Hpost. specialize (Hpost m Hin). by rewrite Hz, Hdef in Hpost.
  - intros Hreq st'. unfold ReadEnv. rewrite Hread, Hpass.
    by apply finalize_required_zero with (m := m).
Qed.

(** [PORT=0] against the default ["8080"] of a field that is not
    required. *)
Lemma ReadEnv_zero_overridden_witness :
  coerced no_parsers (Port_at [0] ["PORT"] (Some "8080") false) "8080"
          (<[ [0] := VInt 0 ]> ∅) (<[ [0] := VInt 8080 ]> (<[ [0] := VInt 0 ]> ∅))
  /\ load (<[ [0] := VInt 8080 ]> (<[ [0] := VInt 0 ]> ∅)) Port_field = VInt 8080.
Proof.
  split; [|reflexivity].
  refine (proj1 (proj2 (ReadEnv_zero_overridden no_parsers {[ "PORT" := "0" ]}
                          (DefaultPort "8080") [] "" ∅ (<[ [0] := VInt 0 ]> ∅)
                          [Port_at [0] ["PORT"] (Some "8080") false]
                          (Port_at [0] ["PORT"] (Some "8080") false) "0" "8080"
                          _ _ _ _ _ _)) _ _ _).
  - reflexivity.
  - apply list_elem_of_here.
  - reflexivity.
  - reflexivity.
  - reflexivity.
  - reflexivity.
  - reflexivity.
  - reflexivity.
Defined.

(** C10 as stated fails.  A zero supplied to a required field is not
    overwritten by the default: with [PORT=0] no run of [ReadEnv] on
    [RequiredPort] ends with the field at 8080.  And a negative zero
    supplied to a float field equals the zero value of its type, yet it
    survives a default: [isZero] tests the bits. *)
Lemma ReadEnv_zero_overridden_not_general :
  (~ exists (lib : GoLib) (st' : store) (s : status),
       ReadEnv lib {[ "PORT" := "0" ]} (IPointer RequiredPort (Some [])) "" ∅ = (st', s)
       /\ load st' Port_field = VInt 8080)
  /\ ReadEnv two_floats {[ "RATIO" := "-0" ]} (IPointer DefaultRatio (Some [])) "" ∅
     = (<[ [0] := VFloat (2 ^ 63) ]> ∅, Nil)
  /\ Value_eqb (VFloat (2 ^ 63)) (Zero float64_t) = true
  /\ isZero (VFloat (2 ^ 63)) = false.
Proof.
  split; [|by vm_compute].
  intros (lib & st' & s & Hrun & Hload).
  vm_compute in Hrun. injection Hrun as <- <-. by vm_compute in Hload.
Qed.
